(** * tsdump: the time stamp file dumper of sudo (plugins/sudoers/tsdump.c)

    A shallow embedding of [main]'s scan loop, [valid_entry],
    [convert_entry], [type2string], [print_flags] and [dump_entry].

    The record under inspection lives in a [union timestamp_entry_storage]:
    one region of raw bytes that the code reads through three overlapping
    struct layouts.  The embedding keeps that region as a list of bytes and
    every field access as a load or a store at the field's offset, so that
    the aliasing between the v1 and the v2 layout is part of the model. *)

From Stdlib Require Import ZArith List String Ascii Bool Lia.
From Stdlib Require DecimalString HexadecimalString.
From Stdlib Require HexadecimalN HexadecimalPos.
From coqutil Require Import Byte Word.LittleEndianList.
Import ListNotations.
Local Open Scope Z_scope.

(** ** Raw storage *)

(** [load off n m]: the [n] bytes of [m] that start at offset [off]. *)
Definition load (off n : nat) (m : list byte) : list byte :=
  firstn n (skipn off m).

(** [store off bs m]: [m] with the bytes [bs] written at offset [off]
    (what [memcpy(m + off, bs, length bs)] leaves in [m]). *)
Definition store (off : nat) (bs m : list byte) : list byte :=
  (firstn off m ++ bs ++ skipn (off + List.length bs) m)%list.

(** [memset(p, 0, n)] writes [zeros n]. *)
Definition zeros (n : nat) : list byte := repeat Byte.x00 n.

(** Two's complement reading of an [n]-byte unsigned value. *)
Definition signed (n : nat) (z : Z) : Z :=
  if z <? 2 ^ (8 * Z.of_nat n - 1) then z else z - 2 ^ (8 * Z.of_nat n).

(** What an [n]-byte signed object holds after [z] is assigned to it. *)
Definition wrap_signed (n : nat) (z : Z) : Z :=
  signed n (z mod 2 ^ (Z.of_nat n * 8)).

(** Integer fields, in the byte order of the producer (little endian). *)
Definition get_u (off n : nat) (m : list byte) : Z := le_combine (load off n m).
Definition get_s (off n : nat) (m : list byte) : Z := signed n (get_u off n m).
Definition put (off n : nat) (z : Z) (m : list byte) : list byte :=
  store off (le_split n z) m.

(** [(int)x] for a 32-bit [int]. *)
Definition to_int (z : Z) : Z := wrap_signed 4 z.

(** ** printf conversions *)

(** [%d], [%hu], [%lld], [%zu]: the decimal digits of the argument. *)
Definition dec (z : Z) : string :=
  DecimalString.NilZero.string_of_int (Z.to_int z).

(** [%x]: lower-case hexadecimal digits of a non-negative argument. *)
Definition hex (z : Z) : string :=
  HexadecimalString.NilZero.string_of_uint (N.to_hex_uint (Z.to_N z)).

Definition nl : string := String (ascii_of_nat 10) EmptyString.

(** ** struct timespec and the sudo_timespec* macros *)

Record timespec := { tv_sec : Z; tv_nsec : Z }.

(** The [sudo_timespec*] macros come from sudo's headers, which are not
    under src/.  The spec (4.4) has: a field is "set" when it is non-zero,
    the unset sentinel is all-zero, wall_time = monotonic_time + offset, and
    offset = wall-clock time minus monotonic time. *)

(** Modelled from the spec: [sudo_timespecisset], a macro of sudo's
    headers; a time is set when one of its two fields is not zero. *)
Definition sudo_timespecisset (t : timespec) : bool :=
  negb (tv_sec t =? 0) || negb (tv_nsec t =? 0).

(** Modelled from the spec: the value [sudo_timespecclear], a macro of
    sudo's headers, leaves behind; the unset sentinel, all zero. *)
Definition timespec_zero : timespec := {| tv_sec := 0; tv_nsec := 0 |}.

(** Modelled from the spec: [sudo_timespecadd], a macro of sudo's
    headers; the sum field by field, with the nanoseconds brought back below one second
    by carrying into the seconds. *)
Definition sudo_timespecadd (a b : timespec) : timespec :=
  let sec := tv_sec a + tv_sec b in
  let nsec := tv_nsec a + tv_nsec b in
  if 1000000000 <=? nsec
  then {| tv_sec := sec + nsec / 1000000000; tv_nsec := nsec mod 1000000000 |}
  else {| tv_sec := sec; tv_nsec := nsec |}.

(** Modelled from the spec: [sudo_timespecsub], a macro of sudo's
    headers; the difference field by field, with negative nanoseconds brought back to
    zero or above by borrowing from the seconds. *)
Definition sudo_timespecsub (a b : timespec) : timespec :=
  let sec := tv_sec a - tv_sec b in
  let nsec := tv_nsec a - tv_nsec b in
  if nsec <? 0
  then {| tv_sec := sec + nsec / 1000000000; tv_nsec := nsec mod 1000000000 |}
  else {| tv_sec := sec; tv_nsec := nsec |}.

(** ** What check.h and the platform fix *)

(** The struct declarations [timestamp_entry_v1] and [timestamp_entry], the
    [TS_*] constants and the widths of [uid_t], [pid_t], [dev_t], [time_t]
    and [long] come from check.h and the system headers, none of which is
    under src/.  They are taken as a parameter: field offsets and sizes in
    bytes, the type codes and the flag masks. *)
Record abi := {
  linux : bool;             (* is __linux__ defined *)
  sz_uid : nat;             (* sizeof(uid_t) *)
  sz_pid : nat;             (* sizeof(pid_t) *)
  sz_dev : nat;             (* sizeof(dev_t) *)
  sz_time : nat;            (* sizeof(time_t) *)
  sz_long : nat;            (* sizeof(long) *)
  off_nsec : nat;           (* offsetof(struct timespec, tv_nsec) *)
  sz_timespec : nat;        (* sizeof(struct timespec) *)
  sz_u : nat;               (* sizeof of the union member u *)
  v1_auth_uid : nat;        (* offsets in struct timestamp_entry_v1 *)
  v1_sid : nat;
  v1_ts : nat;
  v1_u : nat;
  sizeof_v1 : nat;          (* sizeof(struct timestamp_entry_v1) *)
  v2_auth_uid : nat;        (* offsets in struct timestamp_entry *)
  v2_sid : nat;
  v2_start_time : nat;
  v2_ts : nat;
  v2_u : nat;
  sizeof_v2 : nat;          (* sizeof(struct timestamp_entry) *)
  TS_GLOBAL : Z;
  TS_TTY : Z;
  TS_PPID : Z;
  TS_LOCKEXCL : Z;
  TS_DISABLED : Z;
  TS_ANYUID : Z
}.

(** Modelled from the spec: [TS_VERSION] is a constant of check.h; the spec
    has version 2 as the current schema and version 1 as the one recognized
    older version. *)
Definition TS_VERSION : Z := 2.

(** [struct timestamp_entry_common] is declared in tsdump.c itself: four
    [unsigned short] fields, 16 bits each. *)
Definition sz_short : nat := 2.
Definition off_version : nat := 0.
Definition off_size : nat := 2.
Definition off_type : nat := 4.
Definition off_flags : nat := 6.
Definition sizeof_common : nat := 8.

(** [sizeof(union timestamp_entry_storage)]: the slot the scan loop reads. *)
Definition sizeof_cur (A : abi) : nat :=
  Nat.max sizeof_common (Nat.max (sizeof_v1 A) (sizeof_v2 A)).

(** A layout a C compiler can produce for the two structs: the fields follow
    the common header in declaration order without overlapping, the union
    [u] holds both of its members, the v2 struct is the larger one and its
    size fits the 16-bit [size] field; the four type codes are distinct and
    the two flag masks are non-zero and share no bit. *)
Definition abi_ok (A : abi) : bool :=
  ((1 <=? sz_uid A) && (1 <=? sz_pid A) && (1 <=? sz_dev A)
   && (1 <=? sz_time A) && (1 <=? sz_long A)
   && (sz_time A <=? off_nsec A) && (off_nsec A + sz_long A <=? sz_timespec A)
   && (sz_dev A <=? sz_u A) && (sz_pid A <=? sz_u A)
   && (sizeof_common <=? v1_auth_uid A)
   && (v1_auth_uid A + sz_uid A <=? v1_sid A)
   && (v1_sid A + sz_pid A <=? v1_ts A)
   && (v1_ts A + sz_timespec A <=? v1_u A)
   && (v1_u A + sz_u A <=? sizeof_v1 A)
   && (sizeof_common <=? v2_auth_uid A)
   && (v2_auth_uid A + sz_uid A <=? v2_sid A)
   && (v2_sid A + sz_pid A <=? v2_start_time A)
   && (v2_start_time A + sz_timespec A <=? v2_ts A)
   && (v2_ts A + sz_timespec A <=? v2_u A)
   && (v2_u A + sz_u A <=? sizeof_v2 A)
   && (sizeof_v1 A <? sizeof_v2 A))%nat
  && (Z.of_nat (sizeof_v2 A) <? 65536)
  && negb (TS_GLOBAL A =? TS_TTY A) && negb (TS_GLOBAL A =? TS_PPID A)
  && negb (TS_GLOBAL A =? TS_LOCKEXCL A) && negb (TS_TTY A =? TS_PPID A)
  && negb (TS_TTY A =? TS_LOCKEXCL A) && negb (TS_PPID A =? TS_LOCKEXCL A)
  && (0 <? TS_DISABLED A) && (0 <? TS_ANYUID A)
  && (Z.land (TS_DISABLED A) (TS_ANYUID A) =? 0).

(** ** The process: descriptor, storage, output channels *)

(** System calls made on the descriptor, with the value each returned. *)
Inductive call :=
| SysRead (nbytes : nat) (ret : Z)
| SysLseekCur (offset : Z) (ret : Z).

Record state := {
  fd_off : Z;               (* file offset of [fd] *)
  cur : list byte;          (* storage of main's [cur] *)
  out : string;             (* what was written to standard output *)
  err : list string;        (* messages written to standard error *)
  calls : list call         (* system calls on [fd], oldest first *)
}.

(** What the program is run against. *)
Record env := {
  fname : string;                       (* the time stamp file's path *)
  open_fails : bool;                    (* open(2) returns -1 *)
  file : list byte;                     (* contents of the file *)
  read_error : Z -> bool;               (* read(2) at this offset returns -1 *)
  gettime_real : option timespec;       (* sudo_gettime_real, None for -1 *)
  gettime_mono : option timespec;       (* sudo_gettime_mono, None for -1 *)
  stack : list byte;                    (* indeterminate first contents of [cur] *)
  ctime : Z -> string;                  (* ctime(3), with its trailing newline *)
  sudo_ttyname_dev : Z -> option string (* None for NULL *)
}.

(** A computation either goes on with a value or has called [exit]. *)
Inductive result (T : Type) :=
| Ok (v : T) (s : state)
| Exit (status : Z) (s : state).
Arguments Ok {T} v s.
Arguments Exit {T} status s.

Definition M (T : Type) : Type := state -> result T.

Definition ret {T} (v : T) : M T := fun s => Ok v s.

Definition bind {T U} (c : M T) (k : T -> M U) : M U :=
  fun s => match c s with
           | Ok v s' => k v s'
           | Exit st s' => Exit st s'
           end.

Notation "x <- c ;; k" := (bind c (fun x => k))
  (at level 61, c at next level, right associativity).
Notation "c ;;; k" := (bind c (fun _ => k))
  (at level 61, right associativity).

(** Reads and writes through the pointer to [cur]. *)
Definition rd {T} (f : list byte -> T) : M T := fun s => Ok (f (cur s)) s.

Definition wr (f : list byte -> list byte) : M unit :=
  fun s => Ok tt {| fd_off := fd_off s; cur := f (cur s); out := out s;
                    err := err s; calls := calls s |}.

(** [printf]: the formatted text goes to standard output. *)
Definition printf (text : string) : M unit :=
  fun s => Ok tt {| fd_off := fd_off s; cur := cur s;
                    out := (out s ++ text)%string;
                    err := err s; calls := calls s |}.

(** Modelled from the spec: [sudo_warnx], a function of sudo's utility
    library, not under src/; it writes its message to the error channel. *)
Definition sudo_warnx (msg : string) : M unit :=
  fun s => Ok tt {| fd_off := fd_off s; cur := cur s; out := out s;
                    err := (err s ++ [msg])%list; calls := calls s |}.

(** [EXIT_FAILURE] of stdlib.h. *)
Definition EXIT_FAILURE : Z := 1.

(** Modelled from the spec: [sudo_fatal], a function of sudo's utility
    library, not under src/; it writes its message to the error channel
    and exits with a non-zero failure status. *)
Definition sudo_fatal {T} (msg : string) : M T :=
  fun s => Exit EXIT_FAILURE
             {| fd_off := fd_off s; cur := cur s; out := out s;
                err := (err s ++ [msg])%list; calls := calls s |}.

(** The exit status of [main] after the loop: [return 0] when the loop was
    left by [break], the status passed to [exit] otherwise. *)
Definition exit_of (r : result unit) : Z * state :=
  match r with
  | Ok _ s => (0, s)
  | Exit st s => (st, s)
  end.

(** ** The descriptor *)

Section Tsdump.

Context (A : abi) (E : env).

(** [read(fd, &cur, n)]: -1 on an I/O error; otherwise the bytes available
    at the file offset, at most [n], land at the start of [cur] (the rest of
    [cur] keeps what it held), the offset advances by their number, and that
    number is returned: 0 at or past the end of the file. *)
Definition read (n : nat) : M Z :=
  fun s =>
    if read_error E (fd_off s) then
      Ok (-1) {| fd_off := fd_off s; cur := cur s; out := out s; err := err s;
                 calls := (calls s ++ [SysRead n (-1)])%list |}
    else
      let chunk := load (Z.to_nat (fd_off s)) n (file E) in
      let nread := Z.of_nat (List.length chunk) in
      Ok nread {| fd_off := fd_off s + nread; cur := store 0 chunk (cur s);
                  out := out s; err := err s;
                  calls := (calls s ++ [SysRead n nread])%list |}.

(** [lseek(fd, offset, SEEK_CUR)]: the new offset, or -1 (and no move) when
    it would be negative. *)
Definition lseek_cur (offset : Z) : M Z :=
  fun s =>
    let p := fd_off s + offset in
    if p <? 0 then
      Ok (-1) {| fd_off := fd_off s; cur := cur s; out := out s; err := err s;
                 calls := (calls s ++ [SysLseekCur offset (-1)])%list |}
    else
      Ok p {| fd_off := p; cur := cur s; out := out s; err := err s;
              calls := (calls s ++ [SysLseekCur offset p])%list |}.

(** ** struct timespec in storage *)

Definition get_timespec (off : nat) (m : list byte) : timespec :=
  {| tv_sec := get_s off (sz_time A) m;
     tv_nsec := get_s (off + off_nsec A) (sz_long A) m |}.

Definition put_timespec (off : nat) (t : timespec) (m : list byte) : list byte :=
  put (off + off_nsec A) (sz_long A) (tv_nsec t) (put off (sz_time A) (tv_sec t) m).

(** What a [struct timespec] holds after [t] is assigned to it. *)
Definition wrap_timespec (t : timespec) : timespec :=
  {| tv_sec := wrap_signed (sz_time A) (tv_sec t);
     tv_nsec := wrap_signed (sz_long A) (tv_nsec t) |}.

(** ** valid_entry *)

Definition valid_entry (pos : Z) : M bool :=
  version <- rd (get_u off_version sz_short);;
  if version =? 1 then
    size <- rd (get_u off_size sz_short);;
    if negb (size =? Z.of_nat (sizeof_v1 A)) then
      printf ("wrong sized v1 record @ " ++ dec pos ++ ", got " ++ dec size
              ++ ", expected " ++ dec (Z.of_nat (sizeof_v1 A)) ++ nl);;;
      ret false
    else ret true
  else if version =? 2 then
    size <- rd (get_u off_size sz_short);;
    if negb (size =? Z.of_nat (sizeof_v2 A)) then
      printf ("wrong sized v2 record @ " ++ dec pos ++ ", got " ++ dec size
              ++ ", expected " ++ dec (Z.of_nat (sizeof_v2 A)) ++ nl);;;
      ret false
    else ret true
  else
    printf ("unknown time stamp entry version " ++ dec version
            ++ " @ " ++ dec pos ++ nl);;;
    ret false.

(** ** type2string *)

Definition type2string (type : Z) : string :=
  if type =? TS_LOCKEXCL A then "TS_LOCKEXCL"
  else if type =? TS_GLOBAL A then "TS_GLOBAL"
  else if type =? TS_TTY A then "TS_TTY"
  else if type =? TS_PPID A then "TS_PPID"
  else "UNKNOWN (0x" ++ hex type ++ ")".

(** ** print_flags *)

(** Modelled from the spec: [ISSET], a macro of sudo's headers, not under
    src/; a flag is present when one of its bits is. *)
Definition ISSET (flags bit : Z) : bool := negb (Z.land flags bit =? 0).

(** Modelled from the spec: [CLR], a macro of sudo's headers, not under
    src/; clearing a flag removes its bits. *)
Definition CLR (flags bit : Z) : Z := Z.ldiff flags bit.

(** The separator [first ? "" : ", "]. *)
Definition sep (first : bool) : string := if first then "" else ", ".

Definition print_flags (flags : Z) : M unit :=
  let first := true in
  printf "flags: ";;;
  st <- (if ISSET flags (TS_DISABLED A) then
           printf (sep first ++ "TS_DISABLED");;;
           ret (CLR flags (TS_DISABLED A), false)
         else ret (flags, first));;
  let '(flags, first) := st in
  st <- (if ISSET flags (TS_ANYUID A) then
           printf (sep first ++ "TS_ANYUID");;;
           ret (CLR flags (TS_ANYUID A), false)
         else ret (flags, first));;
  let '(flags, first) := st in
  (if negb (flags =? 0) then printf (sep first ++ "0x" ++ hex flags)
   else ret tt);;;
  printf nl.

(** ** convert_entry *)

(** Lines 250-261: the in-place upgrade of a version 1 record.  [orig] is
    the snapshot taken by [memcpy]; every right-hand side reads [orig],
    every left-hand side writes [record] through the v2 layout. *)
Definition convert_entry_upgrade : M unit :=
  orig <- rd (load 0 (sizeof_cur A));;
  wr (store (v2_auth_uid A) (load (v1_auth_uid A) (sz_uid A) orig));;;
  wr (store (v2_sid A) (load (v1_sid A) (sz_pid A) orig));;;
  wr (put_timespec (v2_start_time A) timespec_zero);;;
  wr (store (v2_ts A) (load (v1_ts A) (sz_timespec A) orig));;;
  type <- rd (get_u off_type sz_short);;
  if type =? TS_TTY A then
    wr (store (v2_u A) (load (v1_u A) (sz_dev A) orig))
  else if type =? TS_PPID A then
    wr (store (v2_u A) (load (v1_u A) (sz_pid A) orig))
  else
    wr (store (v2_u A) (zeros (sz_u A))).

(** Lines 264-274: the time stamps become wall-clock times. *)
Definition convert_entry_adjust (off : timespec) : M bool :=
  (if linux A then
     start_time <- rd (get_timespec (v2_start_time A));;
     if sudo_timespecisset start_time then
       wr (put_timespec (v2_start_time A) (sudo_timespecadd start_time off))
     else ret tt
   else ret tt);;;
  ts <- rd (get_timespec (v2_ts A));;
  (if sudo_timespecisset ts then
     wr (put_timespec (v2_ts A) (sudo_timespecadd ts off))
   else ret tt);;;
  ret true.

Definition convert_entry (off : timespec) : M bool :=
  version <- rd (get_u off_version sz_short);;
  if negb (version =? TS_VERSION) then
    if negb (version =? 1) then
      sudo_warnx ("unexpected record version " ++ dec version);;;
      ret false
    else
      convert_entry_upgrade;;;
      convert_entry_adjust off
  else convert_entry_adjust off.

(** ** dump_entry *)

Definition dump_entry (pos : Z) : M unit :=
  printf ("position: " ++ dec pos ++ nl);;;
  version <- rd (get_u off_version sz_short);;
  printf ("version: " ++ dec version ++ nl);;;
  size <- rd (get_u off_size sz_short);;
  printf ("size: " ++ dec size ++ nl);;;
  type <- rd (get_u off_type sz_short);;
  printf ("type: " ++ type2string type ++ nl);;;
  flags <- rd (get_u off_flags sz_short);;
  print_flags flags;;;
  auth_uid <- rd (get_u (v2_auth_uid A) (sz_uid A));;
  printf ("auth uid: " ++ dec (to_int auth_uid) ++ nl);;;
  sid <- rd (get_s (v2_sid A) (sz_pid A));;
  printf ("session ID: " ++ dec (to_int sid) ++ nl);;;
  start_time <- rd (get_timespec (v2_start_time A));;
  (if sudo_timespecisset start_time then
     printf ("start time: " ++ ctime E (tv_sec start_time))
   else ret tt);;;
  ts <- rd (get_timespec (v2_ts A));;
  (if sudo_timespecisset ts then
     printf ("time stamp: " ++ ctime E (tv_sec ts))
   else ret tt);;;
  type <- rd (get_u off_type sz_short);;
  (if type =? TS_TTY A then
     ttydev <- rd (get_u (v2_u A) (sz_dev A));;
     match sudo_ttyname_dev E ttydev with
     | None => printf ("terminal: " ++ dec (to_int ttydev) ++ nl)
     | Some tty => printf ("terminal: " ++ tty ++ nl)
     end
   else if type =? TS_PPID A then
     ppid <- rd (get_s (v2_u A) (sz_pid A));;
     printf ("parent pid: " ++ dec (to_int ppid) ++ nl)
   else ret tt);;;
  printf nl.

(** ** main: the scan loop *)

Inductive ctl := Break | Continue.

(** Lines 148-153: what the loop does with a record once [valid] is known. *)
Definition show_entry (valid : bool) (pos : Z) (timediff : timespec) : M ctl :=
  if valid then
    ok <- convert_entry timediff;;
    if negb ok then ret Continue
    else dump_entry pos;;; ret Continue
  else ret Continue.

(** Lines 143-147: the relative seek to the record's declared length. *)
Definition resync : M unit :=
  size <- rd (get_u off_size sz_short);;
  if negb (size =? 0) && negb (size =? Z.of_nat (sizeof_cur A)) then
    let offset := size - Z.of_nat (sizeof_cur A) in
    r <- lseek_cur offset;;
    if r =? -1 then
      sudo_fatal ("unable to seek " ++ dec (to_int offset) ++ " bytes")
    else ret tt
  else ret tt.

(** Lines 133-153: one turn of the [for (;;)] loop. *)
Definition iteration (timediff : timespec) : M ctl :=
  pos <- lseek_cur 0;;
  nread <- read (sizeof_cur A);;
  if nread =? 0 then ret Break
  else if nread =? -1 then sudo_fatal ("unable to read " ++ fname E)
  else
    valid <- valid_entry pos;;
    resync;;;
    show_entry valid pos timediff.

(** The loop itself can run for ever (a seek may bring the offset back to
    where the turn began), so it is unrolled [fuel] times; [None] when that
    was not enough. *)
Fixpoint scan (fuel : nat) (timediff : timespec) (s : state)
  : option (result unit) :=
  match fuel with
  | O => None
  | S fuel' =>
      match iteration timediff s with
      | Ok Break s' => Some (Ok tt s')
      | Ok Continue s' => scan fuel' timediff s'
      | Exit st s' => Some (Exit st s')
      end
  end.

Definition initial : state :=
  {| fd_off := 0; cur := stack E; out := ""; err := []; calls := [] |}.

(** Lines 109-156, from the clocks on (option parsing and the lookup of the
    file name are left out: [fname E] is the path they end with).  The
    result is the exit status and the final state. *)
Definition main (fuel : nat) : option (Z * state) :=
  match gettime_real E with
  | None => Some (exit_of (sudo_fatal "unable to get current time" initial))
  | Some now =>
      match gettime_mono E with
      | None => Some (exit_of (sudo_fatal "unable to read the clock" initial))
      | Some mono =>
          let timediff := sudo_timespecsub now mono in
          if open_fails E then
            Some (exit_of (sudo_fatal ("unable to open " ++ fname E) initial))
          else option_map exit_of (scan fuel timediff initial)
      end
  end.

End Tsdump.

(** ** Two instances of the parameter *)

(** The values of sudo's check.h with the type widths and struct layout of
    Linux on x86-64 ([dev_t] is 64 bits wide). *)
Definition linux_amd64 : abi :=
  {| linux := true;
     sz_uid := 4; sz_pid := 4; sz_dev := 8; sz_time := 8; sz_long := 8;
     off_nsec := 8; sz_timespec := 16; sz_u := 8;
     v1_auth_uid := 8; v1_sid := 12; v1_ts := 16; v1_u := 32; sizeof_v1 := 40;
     v2_auth_uid := 8; v2_sid := 12; v2_start_time := 16; v2_ts := 32;
     v2_u := 48; sizeof_v2 := 56;
     TS_GLOBAL := 1; TS_TTY := 2; TS_PPID := 3; TS_LOCKEXCL := 4;
     TS_DISABLED := 1; TS_ANYUID := 2 |}.

(** The same on OpenBSD on x86-64: no [__linux__], [dev_t] is 32 bits wide. *)
Definition openbsd_amd64 : abi :=
  {| linux := false;
     sz_uid := 4; sz_pid := 4; sz_dev := 4; sz_time := 8; sz_long := 8;
     off_nsec := 8; sz_timespec := 16; sz_u := 4;
     v1_auth_uid := 8; v1_sid := 12; v1_ts := 16; v1_u := 32; sizeof_v1 := 40;
     v2_auth_uid := 8; v2_sid := 12; v2_start_time := 16; v2_ts := 32;
     v2_u := 48; sizeof_v2 := 56;
     TS_GLOBAL := 1; TS_TTY := 2; TS_PPID := 3; TS_LOCKEXCL := 4;
     TS_DISABLED := 1; TS_ANYUID := 2 |}.

(** ** Sample records and files *)

(** The bytes of a version 2 record in the layout [A]. *)
Definition mk_v2 (A : abi) (type flags auth_uid sid : Z)
    (start_time ts : timespec) (u : Z) : list byte :=
  put (v2_u A) (sz_u A) u
    (put_timespec A (v2_ts A) ts
      (put_timespec A (v2_start_time A) start_time
        (put (v2_sid A) (sz_pid A) sid
          (put (v2_auth_uid A) (sz_uid A) auth_uid
            (put off_flags sz_short flags
              (put off_type sz_short type
                (put off_size sz_short (Z.of_nat (sizeof_v2 A))
                  (put off_version sz_short 2 (zeros (sizeof_v2 A)))))))))).

(** The bytes of a version 1 record in the layout [A]. *)
Definition mk_v1 (A : abi) (type flags auth_uid sid : Z)
    (ts : timespec) (u : Z) : list byte :=
  put (v1_u A) (sz_u A) u
    (put_timespec A (v1_ts A) ts
      (put (v1_sid A) (sz_pid A) sid
        (put (v1_auth_uid A) (sz_uid A) auth_uid
          (put off_flags sz_short flags
            (put off_type sz_short type
              (put off_size sz_short (Z.of_nat (sizeof_v1 A))
                (put off_version sz_short 1 (zeros (sizeof_v1 A))))))))).

(** A run over the file [f] with working clocks and no I/O error; [ctime]
    shows the seconds between angle brackets and no terminal has a name. *)
Definition sample_env (f : list byte) : env :=
  {| fname := "/run/sudo/ts/user";
     open_fails := false;
     file := f;
     read_error := fun _ => false;
     gettime_real := Some {| tv_sec := 1540000000; tv_nsec := 500 |};
     gettime_mono := Some {| tv_sec := 1000; tv_nsec := 0 |};
     stack := zeros 56;
     ctime := fun sec => ("<" ++ dec sec ++ ">" ++ nl)%string;
     sudo_ttyname_dev := fun _ => None |}.

(** ** The records as the specification describes them *)

(** The declarations of [struct timestamp_entry_v1] and of
    [struct timestamp_entry] are in check.h, not under src/.  The spec (3)
    has a common header ([version], [size], [type], [flags]) followed, in
    version 1, by [auth_uid], [session_id], [timestamp] and a scope value
    read according to [type]; version 2 adds [start_time]. *)

(** Modelled from the spec: the scope value, the union [u] of check.h; a
    terminal device for TTY, a parent process id for PPID, without meaning
    (here: the raw bytes) for any other type. *)
Inductive scope :=
| ScopeTty (ttydev : Z)
| ScopePpid (ppid : Z)
| ScopeOther (raw : list byte).

(** Modelled from the spec: a version 1 record,
    [struct timestamp_entry_v1] of check.h. *)
Record entry_v1 := {
  o_version : Z; o_size : Z; o_type : Z; o_flags : Z;
  o_auth_uid : Z; o_sid : Z; o_ts : timespec; o_scope : scope
}.

(** Modelled from the spec: a current-schema record,
    [struct timestamp_entry] of check.h. *)
Record entry := {
  e_version : Z; e_size : Z; e_type : Z; e_flags : Z;
  e_auth_uid : Z; e_sid : Z; e_start_time : timespec; e_ts : timespec;
  e_scope : scope
}.

Section Decoded.

Context (A : abi) (E : env).

(** The union [u] at offset [off], read as [type] says. *)
Definition scope_at (type : Z) (off : nat) (m : list byte) : scope :=
  if type =? TS_TTY A then ScopeTty (get_u off (sz_dev A) m)
  else if type =? TS_PPID A then ScopePpid (get_s off (sz_pid A) m)
  else ScopeOther (load off (sz_u A) m).

(** The storage read through the v1 layout. *)
Definition decode_v1 (m : list byte) : entry_v1 :=
  {| o_version := get_u off_version sz_short m;
     o_size := get_u off_size sz_short m;
     o_type := get_u off_type sz_short m;
     o_flags := get_u off_flags sz_short m;
     o_auth_uid := get_u (v1_auth_uid A) (sz_uid A) m;
     o_sid := get_s (v1_sid A) (sz_pid A) m;
     o_ts := get_timespec A (v1_ts A) m;
     o_scope := scope_at (get_u off_type sz_short m) (v1_u A) m |}.

(** The storage read through the v2 layout. *)
Definition decode_v2 (m : list byte) : entry :=
  {| e_version := get_u off_version sz_short m;
     e_size := get_u off_size sz_short m;
     e_type := get_u off_type sz_short m;
     e_flags := get_u off_flags sz_short m;
     e_auth_uid := get_u (v2_auth_uid A) (sz_uid A) m;
     e_sid := get_s (v2_sid A) (sz_pid A) m;
     e_start_time := get_timespec A (v2_start_time A) m;
     e_ts := get_timespec A (v2_ts A) m;
     e_scope := scope_at (get_u off_type sz_short m) (v2_u A) m |}.

(** Migration as a function of the original record alone: the header, the
    identity fields and the time stamp are those of the v1 record, the start
    time is unset, the scope value is kept for TTY and PPID and zeroed for
    any other type. *)
Definition migrate (o : entry_v1) : entry :=
  {| e_version := o_version o;
     e_size := o_size o;
     e_type := o_type o;
     e_flags := o_flags o;
     e_auth_uid := o_auth_uid o;
     e_sid := o_sid o;
     e_start_time := timespec_zero;
     e_ts := o_ts o;
     e_scope := match o_scope o with
                | ScopeTty d => ScopeTty d
                | ScopePpid p => ScopePpid p
                | ScopeOther _ => ScopeOther (zeros (sz_u A))
                end |}.

(** Normalization of one time stamp: a set value becomes that value plus
    the offset, as a [struct timespec] holds it; the unset one stays. *)
Definition normalize_time (off t : timespec) : timespec :=
  if sudo_timespecisset t then wrap_timespec A (sudo_timespecadd t off) else t.

(** Normalization of a current-schema record: [timestamp] always,
    [start_time] on Linux only. *)
Definition normalize (off : timespec) (e : entry) : entry :=
  {| e_version := e_version e;
     e_size := e_size e;
     e_type := e_type e;
     e_flags := e_flags e;
     e_auth_uid := e_auth_uid e;
     e_sid := e_sid e;
     e_start_time := if linux A then normalize_time off (e_start_time e)
                     else e_start_time e;
     e_ts := normalize_time off (e_ts e);
     e_scope := e_scope e |}.

(** What a record of a known version decodes to once converted: a version
    1 record is migrated first, then the time stamps are normalized. *)
Definition converted (off : timespec) (m : list byte) : entry :=
  normalize off
    (if get_u off_version sz_short m =? 1 then migrate (decode_v1 m)
     else decode_v2 m).

(** The symbolic name of a type, with the hexadecimal fallback tag. *)
Definition type_name (type : Z) : string :=
  if type =? TS_GLOBAL A then "TS_GLOBAL"
  else if type =? TS_TTY A then "TS_TTY"
  else if type =? TS_PPID A then "TS_PPID"
  else if type =? TS_LOCKEXCL A then "TS_LOCKEXCL"
  else "UNKNOWN (0x" ++ hex type ++ ")".

(** The bits of [flags] that belong to no recognized flag. *)
Definition residual (flags : Z) : Z :=
  Z.ldiff flags (Z.lor (TS_DISABLED A) (TS_ANYUID A)).

(** What the flags line lists: the name of each recognized flag present,
    then the residual bits in hexadecimal if there are any. *)
Definition flag_names (flags : Z) : list string :=
  ((if ISSET flags (TS_DISABLED A) then ["TS_DISABLED"%string] else [])
   ++ (if ISSET flags (TS_ANYUID A) then ["TS_ANYUID"%string] else [])
   ++ (if residual flags =? 0 then []
       else [("0x" ++ hex (residual flags))%string]))%list.

Definition flags_line (flags : Z) : string :=
  "flags: " ++ String.concat ", " (flag_names flags) ++ nl.

(** The type-specific trailer. *)
Definition trailer (sc : scope) : list string :=
  match sc with
  | ScopeTty d =>
      match sudo_ttyname_dev E d with
      | Some tty => [("terminal: " ++ tty ++ nl)%string]
      | None => [("terminal: " ++ dec (to_int d) ++ nl)%string]
      end
  | ScopePpid p => [("parent pid: " ++ dec (to_int p) ++ nl)%string]
  | ScopeOther _ => []
  end.

(** The block of a record, piece by piece in the order it is emitted. *)
Definition render (pos : Z) (e : entry) : list string :=
  ([("position: " ++ dec pos ++ nl)%string;
    ("version: " ++ dec (e_version e) ++ nl)%string;
    ("size: " ++ dec (e_size e) ++ nl)%string;
    ("type: " ++ type_name (e_type e) ++ nl)%string;
    flags_line (e_flags e);
    ("auth uid: " ++ dec (to_int (e_auth_uid e)) ++ nl)%string;
    ("session ID: " ++ dec (to_int (e_sid e)) ++ nl)%string]
   ++ (if sudo_timespecisset (e_start_time e)
       then [("start time: " ++ ctime E (tv_sec (e_start_time e)))%string]
       else [])
   ++ (if sudo_timespecisset (e_ts e)
       then [("time stamp: " ++ ctime E (tv_sec (e_ts e)))%string]
       else [])
   ++ trailer (e_scope e)
   ++ [nl])%list.

End Decoded.

(** [needle] occurs in [hay]. *)
Definition occurs (needle hay : string) : Prop :=
  exists before after : string, hay = (before ++ needle ++ after)%string.

(** State updates used to say what a call left behind. *)
Definition emit (s : state) (text : string) : state :=
  {| fd_off := fd_off s; cur := cur s; out := (out s ++ text)%string;
     err := err s; calls := calls s |}.

Definition complain (s : state) (msg : string) : state :=
  {| fd_off := fd_off s; cur := cur s; out := out s;
     err := (err s ++ [msg])%list; calls := calls s |}.

Definition with_cur (s : state) (m : list byte) : state :=
  {| fd_off := fd_off s; cur := m; out := out s; err := err s;
     calls := calls s |}.

(** The bytes a [read] of [n] bytes delivers at the offset of [s]. *)
Definition avail (E : env) (n : nat) (s : state) : list byte :=
  load (Z.to_nat (fd_off s)) n (file E).

(** The state a call leaves behind: [queried] after [lseek(fd, 0, SEEK_CUR)],
    [slot_read] after a [read] that delivered [chunk], [sought] after a
    relative seek that succeeded, [seek_refused] after one that did not. *)
Definition queried (s : state) : state :=
  {| fd_off := fd_off s; cur := cur s; out := out s; err := err s;
     calls := (calls s ++ [SysLseekCur 0 (fd_off s)])%list |}.

Definition slot_read (n : nat) (chunk : list byte) (s : state) : state :=
  {| fd_off := fd_off s + Z.of_nat (List.length chunk);
     cur := store 0 chunk (cur s); out := out s; err := err s;
     calls := (calls s ++ [SysRead n (Z.of_nat (List.length chunk))])%list |}.

Definition read_failed (n : nat) (s : state) : state :=
  {| fd_off := fd_off s; cur := cur s; out := out s; err := err s;
     calls := (calls s ++ [SysRead n (-1)])%list |}.

Definition sought (offset : Z) (s : state) : state :=
  {| fd_off := fd_off s + offset; cur := cur s; out := out s; err := err s;
     calls := (calls s ++ [SysLseekCur offset (fd_off s + offset)])%list |}.

Definition seek_refused (offset : Z) (s : state) : state :=
  {| fd_off := fd_off s; cur := cur s; out := out s; err := err s;
     calls := (calls s ++ [SysLseekCur offset (-1)])%list |}.

(** ** Sample states and files *)

(** A slot whose header carries version 3: no known version. *)
Definition slot_v3 (size : Z) : list byte :=
  put off_size sz_short size (put off_version sz_short 3 (zeros 56)).

Definition state_v3 : state :=
  {| fd_off := 56; cur := slot_v3 56; out := ""; err := []; calls := [] |}.

(** A file that holds one complete version 1 record and nothing else. *)
Definition one_v1_file : list byte :=
  mk_v1 linux_amd64 3 0 1000 77 {| tv_sec := 5000; tv_nsec := 0 |} 1234.

(** A file that holds one slot of version 3 with declared size 40, followed
    by one empty slot. *)
Definition v3_then_more : list byte := (slot_v3 40 ++ zeros 56)%list.

(** A file that ends after the first 16 bytes of a slot of version 3 with
    declared size 0. *)
Definition short_v3_file : list byte := firstn 16 (slot_v3 0).

(** A process whose slot holds [m], read from the start of a file. *)
Definition state_of (m : list byte) : state :=
  {| fd_off := Z.of_nat (List.length m); cur := m; out := ""; err := [];
     calls := [] |}.

(** The slot after a short read of a version 1 record: the record, then 16
    bytes the read did not touch. *)
Definition state_v1 : state := state_of (store 0 one_v1_file (zeros 56)).

(** A version 2 record with both time stamps set, for a terminal. *)
Definition sample_v2 (A : abi) : list byte :=
  mk_v2 A 2 0 1000 77 {| tv_sec := 100; tv_nsec := 5 |}
    {| tv_sec := 200; tv_nsec := 7 |} 34816.

(** One hour between the two clocks. *)
Definition one_hour : timespec := {| tv_sec := 3600; tv_nsec := 0 |}.

(** The same record in the layout of OpenBSD, in the slot. *)
Definition state_v2_bsd : state := state_of (sample_v2 openbsd_amd64).

(** A run over a file that holds one version 2 record of type GLOBAL whose
    flags are the ANYUID bit alone. *)
Definition anyuid_env : env :=
  sample_env (mk_v2 linux_amd64 1 2 1000 77 timespec_zero
                {| tv_sec := 200; tv_nsec := 7 |} 0).

(** A file that ends 16 bytes into a version 1 record. *)
Definition truncated_v1_file : list byte := firstn 16 one_v1_file.

(** ** Files made of complete records *)

(** [r] holds the bytes of one record, no more and no less: its version is
    1 or 2 and both its declared size and its length are those of the
    layout of that version. *)
Definition complete_record (A : abi) (r : list byte) : bool :=
  ((get_u off_version sz_short r =? 1)
   && (get_u off_size sz_short r =? Z.of_nat (sizeof_v1 A))
   && (List.length r =? sizeof_v1 A)%nat)
  || ((get_u off_version sz_short r =? 2)
      && (get_u off_size sz_short r =? Z.of_nat (sizeof_v2 A))
      && (List.length r =? sizeof_v2 A)%nat).

(** From the start of every record of [rs] the file holds a slot's worth of
    bytes: the record is a slot long itself, or enough records follow. *)
Fixpoint followed (A : abi) (rs : list (list byte)) : bool :=
  match rs with
  | [] => true
  | r :: rest =>
      (sizeof_cur A <=? List.length (r ++ List.concat rest))%nat && followed A rest
  end.

(** The blocks of the records of [rs], laid end to end, when the first of
    them starts at offset [pos]. *)
Fixpoint blocks (A : abi) (E : env) (td : timespec) (pos : Z)
    (rs : list (list byte)) : string :=
  match rs with
  | [] => ""
  | r :: rest =>
      String.concat "" (render A E pos (converted A td r))
      ++ blocks A E td (pos + Z.of_nat (List.length r)) rest
  end.

(** A file of three records: version 2, version 1, version 2. *)
Definition three_records : list (list byte) :=
  [sample_v2 linux_amd64; one_v1_file;
   mk_v2 linux_amd64 1 1 0 5 timespec_zero timespec_zero 0].

(** ** main: the command line and the name of the file *)

(** What [main] gets from its start-up calls and from the command line. *)
Record cmdline := {
  progname : string;                 (* getprogname() *)
  conf_read_fails : bool;            (* sudo_conf_read returns -1 *)
  options : list (ascii * string);   (* what the calls of getopt return
                                        before -1: the option character
                                        and optarg; what getopt itself
                                        prints about an option it does
                                        not know is not recorded *)
  euid : Z;                          (* geteuid() *)
  euid_name : option string;         (* pw_name of getpwuid(geteuid()),
                                        None for NULL *)
  timedir : string;                  (* _PATH_SUDO_TIMEDIR *)
  asprintf_fails : bool              (* asprintf returns -1 *)
}.

(** The machine: what [open] finds under each path, and the rest of what
    [env] describes. *)
Record world := {
  w_open : string -> option (list byte);  (* None when open(2) returns -1 *)
  w_read_error : string -> Z -> bool;
  w_real : option timespec;
  w_mono : option timespec;
  w_stack : list byte;
  w_ctime : Z -> string;
  w_ttyname : Z -> option string
}.

(** The run over the file found under [path]. *)
Definition env_at (W : world) (path : string) : env :=
  {| fname := path;
     open_fails := match w_open W path with Some _ => false | None => true end;
     file := match w_open W path with Some f => f | None => [] end;
     read_error := w_read_error W path;
     gettime_real := w_real W;
     gettime_mono := w_mono W;
     stack := w_stack W;
     ctime := w_ctime W;
     sudo_ttyname_dev := w_ttyname W |}.

(** Modelled from the spec: [sudo_fatalx], a function of sudo's utility
    library, not under src/; like [sudo_fatal] it writes its message to the
    error channel and exits with a non-zero failure status. *)
Definition sudo_fatalx {T} (msg : string) : M T := sudo_fatal msg.

(** Lines 307-313: [usage]. *)
Definition usage {T} (C : cmdline) : M T :=
  fun s => Exit 1 (complain s ("usage: " ++ progname C
                               ++ " [-f timestamp_file] | [-u username]"
                               ++ nl)).

(** Lines 89-100: the [getopt] loop, over what [getopt] returns. *)
Fixpoint getopt_loop (C : cmdline) (opts : list (ascii * string))
    (fname user : option string) : M (option string * option string) :=
  match opts with
  | [] => ret (fname, user)
  | (ch, optarg) :: rest =>
      if Ascii.eqb ch "f" then getopt_loop C rest (Some optarg) user
      else if Ascii.eqb ch "u" then getopt_loop C rest fname (Some optarg)
      else usage C
  end.

(** Lines 116-126: the path of the time stamp file. *)
Definition timestamp_path (C : cmdline) (fname user : option string)
  : M string :=
  match fname with
  | Some f => ret f
  | None =>
      user <- match user with
              | Some u => ret u
              | None =>
                  match euid_name C with
                  | None => sudo_fatalx ("unknown uid: " ++ dec (to_int (euid C)))
                  | Some name => ret name
                  end
              end;;
      if asprintf_fails C then sudo_fatalx "main: unable to allocate memory"
      else ret (timedir C ++ "/" ++ user)%string
  end.

(** Lines 79-156: [main] from its first line on. *)
Definition tsdump (A : abi) (C : cmdline) (W : world) (fuel : nat)
  : option (Z * state) :=
  let s0 := {| fd_off := 0; cur := w_stack W; out := ""; err := [];
               calls := [] |} in
  if conf_read_fails C then Some (EXIT_FAILURE, s0)
  else
    match getopt_loop C (options C) None None s0 with
    | Exit st s => Some (st, s)
    | Ok (Some _, Some _) s =>
        Some (exit_of
                ((sudo_warnx "the -f and -u flags are mutually exclusive";;;
                  usage C) s))
    | Ok (fname, user) s =>
        match w_real W with
        | None => Some (exit_of (sudo_fatal "unable to get current time" s))
        | Some now =>
            match w_mono W with
            | None => Some (exit_of (sudo_fatal "unable to read the clock" s))
            | Some mono =>
                let timediff := sudo_timespecsub now mono in
                match timestamp_path C fname user s with
                | Exit st s' => Some (st, s')
                | Ok path s' =>
                    match w_open W path with
                    | None =>
                        Some (exit_of
                                (sudo_fatal ("unable to open " ++ path) s'))
                    | Some _ =>
                        option_map exit_of
                          (scan A (env_at W path) fuel timediff s')
                    end
                end
            end
        end
    end.

(** The argument of the last option [ch] among [opts], if there is one. *)
Fixpoint last_option (ch : ascii) (opts : list (ascii * string))
    (found : option string) : option string :=
  match opts with
  | [] => found
  | (c, arg) :: rest =>
      last_option ch rest (if Ascii.eqb c ch then Some arg else found)
  end.

(** The option is one of the two [main] knows. *)
Definition known_option (o : ascii * string) : bool :=
  Ascii.eqb (fst o) "f" || Ascii.eqb (fst o) "u".

(** A command line, a machine with one time stamp file and a user. *)
Definition sample_cmdline (opts : list (ascii * string)) : cmdline :=
  {| progname := "tsdump"; conf_read_fails := false; options := opts;
     euid := 1000; euid_name := Some "millert"%string;
     timedir := "/run/sudo/ts"; asprintf_fails := false |}.

Definition sample_world : world :=
  {| w_open := fun path =>
                 if String.eqb path "/run/sudo/ts/millert"
                 then Some (sample_v2 linux_amd64) else None;
     w_read_error := fun _ _ => false;
     w_real := Some {| tv_sec := 1540000000; tv_nsec := 500 |};
     w_mono := Some {| tv_sec := 1000; tv_nsec := 0 |};
     w_stack := zeros 56;
     w_ctime := fun sec => ("<" ++ dec sec ++ ">" ++ nl)%string;
     w_ttyname := fun _ => None |}.

(** The path of the file [main] goes for: the argument of the last [-f];
    failing that, the time stamp directory and the argument of the last
    [-u]; failing that too, that directory and the name the password
    database has for the effective uid, if it has one. *)
Definition chosen_path (C : cmdline) : option string :=
  match last_option "f" (options C) None with
  | Some path => Some path
  | None =>
      match last_option "u" (options C) None with
      | Some name => Some (timedir C ++ "/" ++ name)%string
      | None =>
          match euid_name C with
          | Some name => Some (timedir C ++ "/" ++ name)%string
          | None => None
          end
      end
  end.

(** * bsdauth.c: authentication through BSD auth *)

(** Modelled from the spec: the verdicts of an authentication method,
    constants of sudo_auth.h, not under src/; the spec (1) has pass, fail
    and interrupted, the code a fourth, fatal. *)
Inductive auth_status := AUTH_SUCCESS | AUTH_FAILURE | AUTH_INTR | AUTH_FATAL.

(** The fields of [struct passwd] the file reads; [None] is a NULL
    [pw_class]. *)
Record passwd := {
  pw_name : string;
  pw_uid : Z;
  pw_class : option string
}.

(** The items of a session that [bsdauth_init] sets. *)
Inductive auth_item := AUTHV_STYLE | AUTHV_NAME | AUTHV_CLASS.

(** A [sigaction_t]: the handler ([None] for [SIG_DFL]) and whether
    [SA_RESTART] is among the flags. *)
Record sigaction_t := {
  sa_handler : option nat;
  sa_restart : bool
}.

(** What the BSD authentication library, the login capability database
    and sudo around this file answer; none of them is under src/.  Handles
    ([login_cap_t *], [auth_session_t *]) are numbers, [None] is NULL. *)
Record bsd_lib := {
  LOGIN_DEFCLASS : string;
  LOGIN_DEFROOTCLASS : string;
  login_class : option string;          (* sudo's login_class *)
  def_passwd_timeout : Z;
  login_getclass : string -> option nat;
  auth_open : option nat;
  login_getstyle : nat -> option string -> string -> option string;
  auth_setitem : nat -> auth_item -> option string -> Z;
  auth_challenge : nat -> option string;
  auth_getpass : string -> Z -> bool -> option string;
                                        (* prompt, timeout, echo on *)
  auth_userresponse : nat -> string -> Z;
  auth_getvalue : nat -> string -> option string
}.

(** The process as this file sees it. *)
Record bsd_proc := {
  open_classes : list nat;      (* from login_getclass, not yet closed *)
  open_sessions : list nat;     (* from auth_open, not yet closed *)
  bad_closes : nat;             (* closes of what was not open *)
  login_style : option string;  (* the global of sudoers.c *)
  state_as : option nat;        (* the static [state] of bsdauth_init *)
  state_lc : option nat;
  auth_data : bool;             (* auth->data: NULL or &state *)
  warnings : list (bool * string);
                                (* log_warning: USE_ERRNO given, message *)
  items : list (nat * auth_item * option string);
                                (* the calls of auth_setitem *)
  sigchld : sigaction_t;        (* the disposition of SIGCHLD *)
  prompts : list (string * Z * bool);
                                (* the calls of auth_getpass *)
  pass_buffers : list string;   (* the buffers auth_getpass returned, with
                                   what they hold now *)
  responses : list (nat * string)
                                (* the calls of auth_userresponse *)
}.

Definition set_classes (l : list nat) (s : bsd_proc) : bsd_proc :=
  {| open_classes := l; open_sessions := open_sessions s;
     bad_closes := bad_closes s; login_style := login_style s;
     state_as := state_as s; state_lc := state_lc s;
     auth_data := auth_data s; warnings := warnings s; items := items s;
     sigchld := sigchld s; prompts := prompts s;
     pass_buffers := pass_buffers s; responses := responses s |}.

Definition set_sessions (l : list nat) (s : bsd_proc) : bsd_proc :=
  {| open_classes := open_classes s; open_sessions := l;
     bad_closes := bad_closes s; login_style := login_style s;
     state_as := state_as s; state_lc := state_lc s;
     auth_data := auth_data s; warnings := warnings s; items := items s;
     sigchld := sigchld s; prompts := prompts s;
     pass_buffers := pass_buffers s; responses := responses s |}.

Definition bad_close (s : bsd_proc) : bsd_proc :=
  {| open_classes := open_classes s; open_sessions := open_sessions s;
     bad_closes := S (bad_closes s); login_style := login_style s;
     state_as := state_as s; state_lc := state_lc s;
     auth_data := auth_data s; warnings := warnings s; items := items s;
     sigchld := sigchld s; prompts := prompts s;
     pass_buffers := pass_buffers s; responses := responses s |}.

Definition set_login_style (v : option string) (s : bsd_proc) : bsd_proc :=
  {| open_classes := open_classes s; open_sessions := open_sessions s;
     bad_closes := bad_closes s; login_style := v;
     state_as := state_as s; state_lc := state_lc s;
     auth_data := auth_data s; warnings := warnings s; items := items s;
     sigchld := sigchld s; prompts := prompts s;
     pass_buffers := pass_buffers s; responses := responses s |}.

Definition set_state_as (v : option nat) (s : bsd_proc) : bsd_proc :=
  {| open_classes := open_classes s; open_sessions := open_sessions s;
     bad_closes := bad_closes s; login_style := login_style s;
     state_as := v; state_lc := state_lc s;
     auth_data := auth_data s; warnings := warnings s; items := items s;
     sigchld := sigchld s; prompts := prompts s;
     pass_buffers := pass_buffers s; responses := responses s |}.

Definition set_state_lc (v : option nat) (s : bsd_proc) : bsd_proc :=
  {| open_classes := open_classes s; open_sessions := open_sessions s;
     bad_closes := bad_closes s; login_style := login_style s;
     state_as := state_as s; state_lc := v;
     auth_data := auth_data s; warnings := warnings s; items := items s;
     sigchld := sigchld s; prompts := prompts s;
     pass_buffers := pass_buffers s; responses := responses s |}.

Definition set_auth_data (v : bool) (s : bsd_proc) : bsd_proc :=
  {| open_classes := open_classes s; open_sessions := open_sessions s;
     bad_closes := bad_closes s; login_style := login_style s;
     state_as := state_as s; state_lc := state_lc s;
     auth_data := v; warnings := warnings s; items := items s;
     sigchld := sigchld s; prompts := prompts s;
     pass_buffers := pass_buffers s; responses := responses s |}.

(** Modelled from the spec: [log_warning], a function of sudo's logging,
    not under src/; the message is recorded with whether [USE_ERRNO] was
    among the flags. *)
Definition log_warning (use_errno : bool) (msg : string) (s : bsd_proc)
  : bsd_proc :=
  {| open_classes := open_classes s; open_sessions := open_sessions s;
     bad_closes := bad_closes s; login_style := login_style s;
     state_as := state_as s; state_lc := state_lc s;
     auth_data := auth_data s;
     warnings := (warnings s ++ [(use_errno, msg)])%list; items := items s;
     sigchld := sigchld s; prompts := prompts s;
     pass_buffers := pass_buffers s; responses := responses s |}.

Definition add_item (i : nat * auth_item * option string) (s : bsd_proc)
  : bsd_proc :=
  {| open_classes := open_classes s; open_sessions := open_sessions s;
     bad_closes := bad_closes s; login_style := login_style s;
     state_as := state_as s; state_lc := state_lc s;
     auth_data := auth_data s; warnings := warnings s;
     items := (items s ++ [i])%list;
     sigchld := sigchld s; prompts := prompts s;
     pass_buffers := pass_buffers s; responses := responses s |}.

Definition set_sigchld (v : sigaction_t) (s : bsd_proc) : bsd_proc :=
  {| open_classes := open_classes s; open_sessions := open_sessions s;
     bad_closes := bad_closes s; login_style := login_style s;
     state_as := state_as s; state_lc := state_lc s;
     auth_data := auth_data s; warnings := warnings s; items := items s;
     sigchld := v; prompts := prompts s;
     pass_buffers := pass_buffers s; responses := responses s |}.

Definition set_tty (p : list (string * Z * bool)) (b : list string)
    (r : list (nat * string)) (s : bsd_proc) : bsd_proc :=
  {| open_classes := open_classes s; open_sessions := open_sessions s;
     bad_closes := bad_closes s; login_style := login_style s;
     state_as := state_as s; state_lc := state_lc s;
     auth_data := auth_data s; warnings := warnings s; items := items s;
     sigchld := sigchld s; prompts := p; pass_buffers := b;
     responses := r |}.

(** [l] without the first occurrence of [h], if there is one. *)
Fixpoint remove_first (h : nat) (l : list nat) : option (list nat) :=
  match l with
  | [] => None
  | x :: rest =>
      if Nat.eqb x h then Some rest
      else option_map (cons x) (remove_first h rest)
  end.

(** [login_close] and [auth_close]: the handle is open no more; a NULL
    handle or one that is not open counts as a bad close. *)
Definition login_close (lc : option nat) (s : bsd_proc) : bsd_proc :=
  match lc with
  | None => bad_close s
  | Some h =>
      match remove_first h (open_classes s) with
      | Some l => set_classes l s
      | None => bad_close s
      end
  end.

Definition auth_close (a : option nat) (s : bsd_proc) : bsd_proc :=
  match a with
  | None => bad_close s
  | Some h =>
      match remove_first h (open_sessions s) with
      | Some l => set_sessions l s
      | None => bad_close s
      end
  end.

(** Lines 64-108: [bsdauth_init]. *)
Definition bsdauth_init (L : bsd_lib) (pw : passwd) (s : bsd_proc)
  : auth_status * bsd_proc :=
  let class :=
    match pw_class pw with
    | Some (String c rest) => String c rest
    | _ => if negb (pw_uid pw =? 0) then LOGIN_DEFCLASS L
           else LOGIN_DEFROOTCLASS L
    end in
  let lc := login_getclass L class in
  let s := set_state_lc lc s in
  match lc with
  | None =>
      (AUTH_FATAL,
       log_warning true ("unable to get login class for user " ++ pw_name pw) s)
  | Some lch =>
      let s := set_classes (lch :: open_classes s) s in
      let a := auth_open L in
      let s := set_state_as a s in
      match a with
      | None =>
          let s := log_warning true "unable to begin bsd authentication" s in
          (AUTH_FATAL, login_close (state_lc s) s)
      | Some ah =>
          let s := set_sessions (ah :: open_sessions s) s in
          let style := login_getstyle L lch (login_style s) "auth-sudo" in
          let s := set_login_style style s in
          match style with
          | None =>
              let s := log_warning false "invalid authentication type" s in
              let s := auth_close (state_as s) s in
              (AUTH_FATAL, login_close (state_lc s) s)
          | Some _ =>
              let s := add_item (ah, AUTHV_STYLE, login_style s) s in
              let failed :=
                if auth_setitem L ah AUTHV_STYLE (login_style s) <? 0
                then (true, s)
                else
                  let s := add_item (ah, AUTHV_NAME, Some (pw_name pw)) s in
                  if auth_setitem L ah AUTHV_NAME (Some (pw_name pw)) <? 0
                  then (true, s)
                  else
                    let s := add_item (ah, AUTHV_CLASS, login_class L) s in
                    (auth_setitem L ah AUTHV_CLASS (login_class L) <? 0, s) in
              let s := snd failed in
              if fst failed then
                let s :=
                  log_warning false "unable to initialize BSD authentication" s in
                let s := auth_close (state_as s) s in
                (AUTH_FATAL, login_close (state_lc s) s)
              else (AUTH_SUCCESS, set_auth_data true s)
          end
      end
  end.

(** Lines 176-188: [bsdauth_cleanup]. *)
Definition bsdauth_cleanup (s : bsd_proc) : auth_status * bsd_proc :=
  if auth_data s then
    let s := auth_close (state_as s) s in
    (AUTH_SUCCESS, login_close (state_lc s) s)
  else (AUTH_SUCCESS, s).

(** [isspace] in the C locale: the space and the characters 9 to 13. *)
Definition isspace (c : ascii) : bool :=
  let n := nat_of_ascii c in
  Nat.eqb n 32 || (Nat.leb 9 n && Nat.leb n 13).

(** [strrchr]: the part of [s] from the last [c] on, if [c] occurs. *)
Fixpoint strrchr (s : string) (c : ascii) : option string :=
  match s with
  | EmptyString => None
  | String x rest =>
      match strrchr rest c with
      | Some t => Some t
      | None => if Ascii.eqb x c then Some s else None
      end
  end.

(** Lines 138-141: the prompt taken from a challenge, what follows its
    last newline, or all of it. *)
Definition last_line (s : string) : string :=
  match strrchr s "010"%char with
  | Some (String _ t) => t
  | Some EmptyString => EmptyString
  | None => s
  end.

(** Lines 148-149: the loop [while (isspace(prompt[len]) || prompt[len] ==
    ':') prompt[len--] = '\0';].  Writing the terminator at [len] cuts the
    string there.  [None] when [prompt[len]] is outside the string, which
    is where [len--] at 0 leads. *)
Fixpoint strip_loop (prompt : string) (len : nat) : option string :=
  match String.get len prompt with
  | None => None
  | Some c =>
      if isspace c || Ascii.eqb c ":" then
        match len with
        | O => None
        | S len' => strip_loop (String.substring 0 len prompt) len'
        end
      else Some prompt
  end.

(** Lines 147-149: [len = strlen(prompt) - 1] and the loop; [size_t]
    wraps around for the empty string, far outside it. *)
Definition strip_prompt (prompt : string) : option string :=
  match String.length prompt with
  | O => None
  | S len => strip_loop prompt len
  end.

(** Modelled from the spec: [memset_s(p, smax, 0, n)] of sudo's library,
    not under src/, on the string in [p]: [n] bytes become zero, at most
    [smax] of them. *)
Definition memset_s (p : string) (smax n : nat) : string :=
  (string_of_list_ascii (List.repeat zero (Nat.min n smax)) ++
   String.substring (Nat.min n smax) (String.length p - Nat.min n smax) p)%string.

(** Modelled from the spec: [SUDO_CONV_REPL_MAX] of sudo_plugin.h, not
    under src/. *)
Definition SUDO_CONV_REPL_MAX : nat := 255.

(** One call of [auth_getpass] with the time limit of lines 134, 136 and
    151: the call is recorded, and a reply is a buffer of its own. *)
Definition getpass (L : bsd_lib) (prompt : string) (echo_on : bool)
    (s : bsd_proc) : option string * bsd_proc :=
  let r := auth_getpass L prompt (def_passwd_timeout L * 60) echo_on in
  (r,
   set_tty (prompts s ++ [(prompt, def_passwd_timeout L * 60, echo_on)])%list
           (match r with
            | Some p => (pass_buffers s ++ [p])%list
            | None => pass_buffers s
            end)
           (responses s) s).

(** Lines 157-160: the response is checked, then the buffer [pass] points
    to, the last one handed out, is cleared. *)
Definition respond (L : bsd_lib) (a : nat) (p : string) (s : bsd_proc)
  : Z * bsd_proc :=
  (auth_userresponse L a p,
   set_tty (prompts s)
           (List.removelast (pass_buffers s) ++
            [memset_s (List.last (pass_buffers s) EmptyString)
                      SUDO_CONV_REPL_MAX (String.length p)])%list
           (responses s ++ [(a, p)])%list s).

(** Lines 110-174: [bsdauth_verify].  [None] where the code reads through
    a NULL [auth->data] or session, or outside the challenge. *)
Definition bsdauth_verify (L : bsd_lib) (prompt : string) (s : bsd_proc)
  : option (auth_status * bsd_proc) :=
  match (if auth_data s then state_as s else None) with
  | None => None
  | Some a =>
      let osa := sigchld s in
      let s := set_sigchld {| sa_handler := None; sa_restart := true |} s in
      let chal := auth_challenge L a in
      let first := getpass L prompt false s in
      let second :=
        match chal, fst first with
        | Some c, Some EmptyString =>
            match strip_prompt (last_line c) with
            | None => None
            | Some prompt =>
                let e := (prompt ++ " [echo on]: ")%string in
                Some (getpass L prompt true (snd first))
            end
        | _, _ => Some first
        end in
      match second with
      | None => None
      | Some (pass, s) =>
          let checked :=
            match pass with
            | Some p => respond L a p s
            | None => (0, s)
            end in
          let authok := fst checked in
          let s := set_sigchld osa (snd checked) in
          if negb (authok =? 0) then Some (AUTH_SUCCESS, s)
          else
            match pass with
            | None => Some (AUTH_INTR, s)
            | Some _ =>
                match auth_getvalue L a "errormsg" with
                | Some m => Some (AUTH_FAILURE, log_warning false m s)
                | None => Some (AUTH_FAILURE, s)
                end
            end
      end
  end.

(** A character the loop of lines 148-149 removes. *)
Definition stripped (c : ascii) : bool := isspace c || Ascii.eqb c ":".

(** Whether every character of a string is one the loop removes. *)
Fixpoint all_stripped (s : string) : bool :=
  match s with
  | EmptyString => true
  | String c rest => stripped c && all_stripped rest
  end.

(** Whether every byte of a buffer is zero. *)
Fixpoint all_zero (s : string) : bool :=
  match s with
  | EmptyString => true
  | String c rest => Ascii.eqb c zero && all_zero rest
  end.

(** A library for the examples: an S/Key style challenge, a user who
    first presses return and then types the response, which is wrong. *)
Definition sample_lib : bsd_lib :=
  {| LOGIN_DEFCLASS := "default";
     LOGIN_DEFROOTCLASS := "daemon";
     login_class := Some "staff"%string;
     def_passwd_timeout := 5;
     login_getclass := fun _ => Some 7%nat;
     auth_open := Some 3%nat;
     login_getstyle := fun _ _ _ => Some "skey"%string;
     auth_setitem := fun _ _ _ => 0;
     auth_challenge :=
       fun _ => Some ("otp-md5 95 ab1234" ++ String "010"%char "S/Key Password: ")%string;
     auth_getpass := fun _ _ echo_on => if echo_on then Some "WORD"%string else Some ""%string;
     auth_userresponse := fun _ _ => 0;
     auth_getvalue := fun _ _ => Some "bad response"%string |}.

Definition sample_passwd : passwd :=
  {| pw_name := "millert"; pw_uid := 1000; pw_class := Some "staff"%string |}.

Definition fresh_proc : bsd_proc :=
  {| open_classes := []; open_sessions := []; bad_closes := 0;
     login_style := None; state_as := None; state_lc := None;
     auth_data := false; warnings := []; items := [];
     sigchld := {| sa_handler := Some 1%nat; sa_restart := false |};
     prompts := []; pass_buffers := []; responses := [] |}.

Definition ready_proc : bsd_proc :=
  snd (bsdauth_init sample_lib sample_passwd fresh_proc).

Definition verified_proc : bsd_proc :=
  match bsdauth_verify sample_lib "Password: " ready_proc with
  | Some (_, s') => s'
  | None => ready_proc
  end.

(** * Properties *)

(** ** Loads and stores *)

Lemma nth_error_load off n m i :
  nth_error (load off n m) i =
  if (i <? n)%nat then nth_error m (off + i) else None.
Proof.
  unfold load. rewrite nth_error_firstn, nth_error_skipn. reflexivity.
Qed.

Lemma nth_error_store off bs m i :
  (off <= List.length m)%nat ->
  nth_error (store off bs m) i =
  if (i <? off)%nat then nth_error m i
  else if (i <? off + List.length bs)%nat then nth_error bs (i - off)
  else nth_error m i.
Proof.
  intros Hoff. unfold store.
  rewrite nth_error_app, length_firstn, Nat.min_l by exact Hoff.
  destruct (Nat.ltb_spec i off) as [Hi | Hi].
  - rewrite nth_error_firstn.
    destruct (Nat.ltb_spec i off); [reflexivity | lia].
  - rewrite nth_error_app.
    destruct (Nat.ltb_spec (i - off) (List.length bs)) as [Hb | Hb];
      destruct (Nat.ltb_spec i (off + List.length bs)); try lia.
    + reflexivity.
    + rewrite nth_error_skipn. f_equal. lia.
Qed.

Lemma length_store off bs m :
  (off + List.length bs <= List.length m)%nat ->
  List.length (store off bs m) = List.length m.
Proof.
  intros H. unfold store.
  rewrite !length_app, length_firstn, length_skipn. lia.
Qed.

Lemma length_load off n m :
  (off + n <= List.length m)%nat -> List.length (load off n m) = n.
Proof.
  intros H. unfold load. rewrite length_firstn, length_skipn. lia.
Qed.

Lemma length_zeros n : List.length (zeros n) = n.
Proof. apply repeat_length. Qed.

(** A store leaves every range it does not touch as it was. *)
Lemma load_store_other off bs m o n :
  (off <= List.length m)%nat ->
  (o + n <= off \/ off + List.length bs <= o)%nat ->
  load o n (store off bs m) = load o n m.
Proof.
  intros Hoff Hdis. apply nth_error_ext. intros i.
  rewrite !nth_error_load.
  destruct (Nat.ltb_spec i n) as [Hi | Hi]; [ | reflexivity].
  rewrite nth_error_store by exact Hoff.
  destruct (Nat.ltb_spec (o + i) off); [reflexivity | ].
  destruct (Nat.ltb_spec (o + i) (off + List.length bs)); [lia | reflexivity].
Qed.

(** A load of the range just stored, or of its beginning, sees the bytes
    stored. *)
Lemma load_store_prefix off bs m n :
  (off <= List.length m)%nat -> (n <= List.length bs)%nat ->
  load off n (store off bs m) = firstn n bs.
Proof.
  intros Hoff Hn. apply nth_error_ext. intros i.
  rewrite nth_error_load, nth_error_firstn.
  destruct (Nat.ltb_spec i n) as [Hi | Hi]; [ | reflexivity].
  rewrite nth_error_store by exact Hoff.
  destruct (Nat.ltb_spec (off + i) off); [lia | ].
  destruct (Nat.ltb_spec (off + i) (off + List.length bs)); [ | lia].
  f_equal. lia.
Qed.

Lemma load_store_same off bs m :
  (off <= List.length m)%nat ->
  load off (List.length bs) (store off bs m) = bs.
Proof.
  intros Hoff. rewrite load_store_prefix by (exact Hoff || lia).
  apply firstn_all.
Qed.

(** Loading [k] bytes of a loaded range. *)
Lemma firstn_load off n k m :
  (k <= n)%nat -> firstn k (load off n m) = load off k m.
Proof.
  intros H. unfold load. rewrite firstn_firstn. f_equal. lia.
Qed.

Lemma load_all m : load 0 (List.length m) m = m.
Proof. unfold load. simpl. apply firstn_all. Qed.

Lemma get_u_store_other off bs m o n :
  (off <= List.length m)%nat ->
  (o + n <= off \/ off + List.length bs <= o)%nat ->
  get_u o n (store off bs m) = get_u o n m.
Proof. intros. unfold get_u. rewrite load_store_other; auto. Qed.

Lemma get_s_store_other off bs m o n :
  (off <= List.length m)%nat ->
  (o + n <= off \/ off + List.length bs <= o)%nat ->
  get_s o n (store off bs m) = get_s o n m.
Proof. intros. unfold get_s. rewrite get_u_store_other; auto. Qed.

Lemma length_put off n z m :
  (off + n <= List.length m)%nat -> List.length (put off n z m) = List.length m.
Proof.
  intros H. unfold put. apply length_store. rewrite length_le_split. exact H.
Qed.

Lemma get_u_put_same off n z m :
  (off <= List.length m)%nat ->
  get_u off n (put off n z m) = z mod 2 ^ (Z.of_nat n * 8).
Proof.
  intros H. unfold get_u, put.
  rewrite <- (length_le_split n z) at 1.
  rewrite load_store_same by exact H.
  apply le_combine_split.
Qed.

Lemma get_s_put_same off n z m :
  (off <= List.length m)%nat ->
  get_s off n (put off n z m) = wrap_signed n z.
Proof.
  intros H. unfold get_s, wrap_signed. rewrite get_u_put_same by exact H.
  reflexivity.
Qed.

Lemma load_put_other off k z m o n :
  (off <= List.length m)%nat ->
  (o + n <= off \/ off + k <= o)%nat ->
  load o n (put off k z m) = load o n m.
Proof.
  intros H1 H2. unfold put. apply load_store_other; [exact H1 | ].
  rewrite length_le_split. exact H2.
Qed.

Lemma get_u_zeros off n k :
  (off + n <= k)%nat -> get_u off n (zeros k) = 0.
Proof.
  intros H. unfold get_u.
  replace (load off n (zeros k)) with (zeros n).
  - apply le_combine_0.
  - apply nth_error_ext. intros i. rewrite nth_error_load. unfold zeros.
    destruct (Nat.ltb_spec i n) as [Hi | Hi].
    + rewrite !nth_error_repeat by lia. reflexivity.
    + apply nth_error_None. rewrite repeat_length. exact Hi.
Qed.

(** ** The layout parameter *)

Lemma abi_ok_layout A :
  abi_ok A = true ->
  (1 <= sz_uid A /\ 1 <= sz_pid A /\ 1 <= sz_dev A /\ 1 <= sz_time A
   /\ 1 <= sz_long A /\ sz_time A <= off_nsec A
   /\ off_nsec A + sz_long A <= sz_timespec A
   /\ sz_dev A <= sz_u A /\ sz_pid A <= sz_u A
   /\ 8 <= v1_auth_uid A /\ v1_auth_uid A + sz_uid A <= v1_sid A
   /\ v1_sid A + sz_pid A <= v1_ts A /\ v1_ts A + sz_timespec A <= v1_u A
   /\ v1_u A + sz_u A <= sizeof_v1 A
   /\ 8 <= v2_auth_uid A /\ v2_auth_uid A + sz_uid A <= v2_sid A
   /\ v2_sid A + sz_pid A <= v2_start_time A
   /\ v2_start_time A + sz_timespec A <= v2_ts A
   /\ v2_ts A + sz_timespec A <= v2_u A /\ v2_u A + sz_u A <= sizeof_v2 A
   /\ sizeof_v1 A < sizeof_v2 A /\ sizeof_cur A = sizeof_v2 A)%nat
  /\ Z.of_nat (sizeof_v2 A) < 65536.
Proof.
  unfold abi_ok, sizeof_cur, sizeof_common. intros H.
  repeat (apply andb_prop in H; destruct H as [H ?]).
  repeat match goal with
         | X : (_ <=? _)%nat = true |- _ => apply Nat.leb_le in X
         | X : (_ <? _)%nat = true |- _ => apply Nat.ltb_lt in X
         | X : (_ <? _) = true |- _ => apply Z.ltb_lt in X
         end.
  repeat split; lia.
Qed.

Lemma abi_ok_consts A :
  abi_ok A = true ->
  TS_GLOBAL A <> TS_TTY A /\ TS_GLOBAL A <> TS_PPID A
  /\ TS_GLOBAL A <> TS_LOCKEXCL A /\ TS_TTY A <> TS_PPID A
  /\ TS_TTY A <> TS_LOCKEXCL A /\ TS_PPID A <> TS_LOCKEXCL A
  /\ 0 < TS_DISABLED A /\ 0 < TS_ANYUID A
  /\ Z.land (TS_DISABLED A) (TS_ANYUID A) = 0.
Proof.
  unfold abi_ok. intros H.
  repeat (apply andb_prop in H; destruct H as [H ?]).
  repeat match goal with
         | X : negb _ = true |- _ => apply negb_true_iff in X
         | X : (_ =? _) = false |- _ => apply Z.eqb_neq in X
         | X : (_ =? _) = true |- _ => apply Z.eqb_eq in X
         | X : (_ <? _) = true |- _ => apply Z.ltb_lt in X
         end.
  repeat split; assumption.
Qed.

(** ** Strings and state updates *)

Lemma append_nil_r (a : string) : (a ++ "")%string = a.
Proof. induction a as [ | c a IH]; simpl; [ | rewrite IH]; reflexivity. Qed.

Lemma append_assoc (a b c : string) :
  ((a ++ b) ++ c)%string = (a ++ b ++ c)%string.
Proof. induction a as [ | x a IH]; simpl; [ | rewrite IH]; reflexivity. Qed.

Lemma emit_nil (s : state) : emit s "" = s.
Proof. destruct s. unfold emit. simpl. rewrite append_nil_r. reflexivity. Qed.

Lemma emit_emit (s : state) (a b : string) :
  emit (emit s a) b = emit s (a ++ b).
Proof. unfold emit. simpl. rewrite append_assoc. reflexivity. Qed.

(** ** valid_entry *)

(** C5.  The Validator answers Valid exactly when the version is 1 and the
    declared size is that of the v1 layout, or the version is 2 and the
    declared size is that of the v2 layout.  In every other case it answers
    Invalid and prints one diagnostic: the raw version and the stream offset
    for an unknown version; the offset, the size found and the size expected
    for a size mismatch.  The record, the descriptor and the error channel
    are left as they were. *)
Theorem valid_entry_verdict (A : abi) (pos : Z) (s : state) :
  let version := get_u off_version sz_short (cur s) in
  let size := get_u off_size sz_short (cur s) in
  exists (valid : bool) (diag : string),
    valid_entry A pos s = Ok valid (emit s diag)
    /\ cur (emit s diag) = cur s
    /\ (valid = true <->
        (version = 1 /\ size = Z.of_nat (sizeof_v1 A))
        \/ (version = 2 /\ size = Z.of_nat (sizeof_v2 A)))
    /\ (valid = true -> diag = ""%string)
    /\ (version <> 1 -> version <> 2 ->
        diag = ("unknown time stamp entry version " ++ dec version
                ++ " @ " ++ dec pos ++ nl)%string)
    /\ (version = 1 -> size <> Z.of_nat (sizeof_v1 A) ->
        diag = ("wrong sized v1 record @ " ++ dec pos ++ ", got " ++ dec size
                ++ ", expected " ++ dec (Z.of_nat (sizeof_v1 A)) ++ nl)%string)
    /\ (version = 2 -> size <> Z.of_nat (sizeof_v2 A) ->
        diag = ("wrong sized v2 record @ " ++ dec pos ++ ", got " ++ dec size
                ++ ", expected " ++ dec (Z.of_nat (sizeof_v2 A)) ++ nl)%string).
Proof.
  intros version size. subst version size.
  cbv [valid_entry bind rd ret printf]. fold (emit s).
  destruct (Z.eqb_spec (get_u off_version sz_short (cur s)) 1) as [V1 | V1].
  - destruct (Z.eqb_spec (get_u off_size sz_short (cur s))
                (Z.of_nat (sizeof_v1 A))) as [S1 | S1]; cbv [negb].
    + exists true, ""%string. rewrite emit_nil.
      repeat split; auto; try lia; try congruence.
    + eexists false, _. split; [reflexivity | ].
      repeat split; try discriminate; try lia; try congruence.
  - destruct (Z.eqb_spec (get_u off_version sz_short (cur s)) 2) as [V2 | V2].
    + destruct (Z.eqb_spec (get_u off_size sz_short (cur s))
                  (Z.of_nat (sizeof_v2 A))) as [S2 | S2]; cbv [negb].
      * exists true, ""%string. rewrite emit_nil.
        repeat split; auto; try lia; try congruence.
      * eexists false, _. split; [reflexivity | ].
        repeat split; try discriminate; try lia; try congruence.
    + eexists false, _. split; [reflexivity | ].
      repeat split; try discriminate; try lia; try congruence.
Qed.

(** C6, as stated, fails: the diagnostic of a rejected record (here a slot
    of version 3 found at offset 0) is printed on standard output, and the
    error channel receives nothing. *)
Lemma validator_diagnostic_on_stdout :
  exists s' : state,
    valid_entry linux_amd64 0 state_v3 = Ok false s'
    /\ out s' = (out state_v3 ++ "unknown time stamp entry version 3 @ 0" ++ nl)%string
    /\ out s' <> out state_v3
    /\ err s' = err state_v3.
Proof.
  eexists. split; [vm_compute; reflexivity | ].
  split; [reflexivity | ]. split; [ | reflexivity].
  vm_compute. discriminate.
Qed.

(** C6, amended.  For every record the Validator rejects, the diagnostic is
    appended to standard output (the Validator prints it with printf) and
    the Validator writes nothing to the error channel: standard output
    carries the diagnostics of rejected records as well as the blocks of
    valid ones. *)
Theorem validator_diagnostic_channel (A : abi) (pos : Z) (s s' : state) :
  valid_entry A pos s = Ok false s' ->
  err s' = err s
  /\ exists diag : string,
       diag <> ""%string /\ out s' = (out s ++ diag)%string.
Proof.
  cbv [valid_entry bind rd ret printf]. fold (emit s).
  repeat match goal with
         | |- context [if ?b then _ else _] => destruct b
         end;
    intros H; inversion H; subst; clear H;
    (split; [reflexivity | ]); eexists; (split; [ | reflexivity]);
    discriminate.
Qed.

Lemma validator_diagnostic_channel_witness :
  err (emit state_v3 ("unknown time stamp entry version 3 @ 0" ++ nl))
  = err state_v3
  /\ exists diag : string,
       diag <> ""%string
       /\ out (emit state_v3 ("unknown time stamp entry version 3 @ 0" ++ nl))
          = (out state_v3 ++ diag)%string.
Proof.
  apply (validator_diagnostic_channel linux_amd64 0 state_v3).
  vm_compute. reflexivity.
Defined.

(** ** System calls *)

Lemma lseek_cur_ok (offset : Z) (s : state) :
  0 <= fd_off s + offset ->
  lseek_cur offset s = Ok (fd_off s + offset) (sought offset s).
Proof.
  intros H. unfold lseek_cur.
  destruct (Z.ltb_spec (fd_off s + offset) 0); [lia | reflexivity].
Qed.

Lemma lseek_cur_refused (offset : Z) (s : state) :
  fd_off s + offset < 0 ->
  lseek_cur offset s = Ok (-1) (seek_refused offset s).
Proof.
  intros H. unfold lseek_cur.
  destruct (Z.ltb_spec (fd_off s + offset) 0); [reflexivity | lia].
Qed.

Lemma lseek_cur_query (s : state) :
  0 <= fd_off s -> lseek_cur 0 s = Ok (fd_off s) (queried s).
Proof.
  intros H. rewrite lseek_cur_ok by lia. unfold sought, queried.
  rewrite Z.add_0_r. reflexivity.
Qed.

Lemma read_ok (E : env) (n : nat) (s : state) :
  read_error E (fd_off s) = false ->
  read E n s
  = Ok (Z.of_nat (List.length (avail E n s))) (slot_read n (avail E n s) s).
Proof. intros H. unfold read. rewrite H. reflexivity. Qed.

Lemma read_fails (E : env) (n : nat) (s : state) :
  read_error E (fd_off s) = true -> read E n s = Ok (-1) (read_failed n s).
Proof. intros H. unfold read. rewrite H. reflexivity. Qed.

(** ** One turn of the loop, by what the read returned *)

Lemma iteration_read_error A E td s :
  0 <= fd_off s -> read_error E (fd_off s) = true ->
  iteration A E td s
  = Exit EXIT_FAILURE (complain (read_failed (sizeof_cur A) (queried s))
                         ("unable to read " ++ fname E)).
Proof.
  intros Hpos Herr. unfold iteration, bind at 1.
  rewrite lseek_cur_query by exact Hpos.
  unfold bind at 1. rewrite read_fails by exact Herr.
  reflexivity.
Qed.

Lemma iteration_eof A E td s :
  0 <= fd_off s -> read_error E (fd_off s) = false ->
  avail E (sizeof_cur A) s = [] ->
  iteration A E td s = Ok Break (slot_read (sizeof_cur A) [] (queried s)).
Proof.
  intros Hpos Herr Hnil. unfold iteration, bind at 1.
  rewrite lseek_cur_query by exact Hpos.
  unfold bind at 1. rewrite read_ok by exact Herr.
  change (avail E (sizeof_cur A) (queried s)) with (avail E (sizeof_cur A) s).
  rewrite Hnil. reflexivity.
Qed.

Lemma iteration_record A E td s :
  0 <= fd_off s -> read_error E (fd_off s) = false ->
  avail E (sizeof_cur A) s <> [] ->
  iteration A E td s
  = (valid <- valid_entry A (fd_off s);;
     resync A;;;
     show_entry A E valid (fd_off s) td)
      (slot_read (sizeof_cur A) (avail E (sizeof_cur A) s) (queried s)).
Proof.
  intros Hpos Herr Hne. unfold iteration, bind at 1.
  rewrite lseek_cur_query by exact Hpos.
  unfold bind at 1. rewrite read_ok by exact Herr.
  change (avail E (sizeof_cur A) (queried s)) with (avail E (sizeof_cur A) s).
  destruct (avail E (sizeof_cur A) s) as [ | b chunk]; [congruence | ].
  assert (H0 : (Z.of_nat (List.length (b :: chunk)) =? 0) = false)
    by (apply Z.eqb_neq; simpl List.length; lia).
  assert (H1 : (Z.of_nat (List.length (b :: chunk)) =? -1) = false)
    by (apply Z.eqb_neq; lia).
  rewrite H0, H1. reflexivity.
Qed.

(** Why [scan] carries fuel: over a file that ends 16 bytes into a version
    1 record, the read delivers 16 bytes and the relative seek of 40 - 56
    bytes brings the offset back to where the turn began. *)
Example turn_can_come_back :
  exists s' : state,
    iteration linux_amd64 (sample_env truncated_v1_file) one_hour
      (initial (sample_env truncated_v1_file)) = Ok Continue s'
    /\ calls s' = [SysLseekCur 0 0; SysRead 56 16; SysLseekCur (-16) 0]
    /\ fd_off s' = fd_off (initial (sample_env truncated_v1_file)).
Proof.
  eexists. split; [vm_compute; reflexivity | ]. split; reflexivity.
Qed.

(** ** The relative seek *)

Lemma resync_skip A s :
  get_u off_size sz_short (cur s) = 0
  \/ get_u off_size sz_short (cur s) = Z.of_nat (sizeof_cur A) ->
  resync A s = Ok tt s.
Proof.
  intros H. unfold resync, bind, rd.
  destruct (Z.eqb_spec (get_u off_size sz_short (cur s)) 0) as [H0 | H0];
    [reflexivity | ].
  destruct (Z.eqb_spec (get_u off_size sz_short (cur s))
              (Z.of_nat (sizeof_cur A))) as [H1 | H1]; [reflexivity | ].
  destruct H; contradiction.
Qed.

Lemma resync_seek A s :
  let size := get_u off_size sz_short (cur s) in
  let offset := size - Z.of_nat (sizeof_cur A) in
  size <> 0 -> size <> Z.of_nat (sizeof_cur A) ->
  0 <= fd_off s + offset ->
  resync A s = Ok tt (sought offset s).
Proof.
  intros size offset H0 H1 Hp. subst size offset.
  unfold resync, bind at 1, rd.
  apply Z.eqb_neq in H0, H1. rewrite H0, H1. cbv [negb andb].
  unfold bind. rewrite lseek_cur_ok by exact Hp.
  destruct (Z.eqb_spec
              (fd_off s + (get_u off_size sz_short (cur s)
                           - Z.of_nat (sizeof_cur A))) (-1));
    [lia | reflexivity].
Qed.

Lemma resync_fatal A s :
  let size := get_u off_size sz_short (cur s) in
  let offset := size - Z.of_nat (sizeof_cur A) in
  size <> 0 -> size <> Z.of_nat (sizeof_cur A) ->
  fd_off s + offset < 0 ->
  resync A s
  = Exit EXIT_FAILURE
      (complain (seek_refused offset s)
         ("unable to seek " ++ dec (to_int offset) ++ " bytes")).
Proof.
  intros size offset H0 H1 Hp. subst size offset.
  unfold resync, bind at 1, rd.
  apply Z.eqb_neq in H0, H1. rewrite H0, H1. cbv [negb andb].
  unfold bind. rewrite lseek_cur_refused by exact Hp.
  reflexivity.
Qed.

(** The Validator changes nothing but standard output. *)
Lemma valid_entry_frame A pos s v s' :
  valid_entry A pos s = Ok v s' -> exists diag : string, s' = emit s diag.
Proof.
  cbv [valid_entry bind rd ret printf]. fold (emit s).
  repeat match goal with
         | |- context [if ?b then _ else _] => destruct b
         end;
    intros H; inversion H; subst; clear H;
    try (eexists; reflexivity);
    exists ""%string; symmetry; apply emit_nil.
Qed.

Lemma resync_cases A s :
  let size := get_u off_size sz_short (cur s) in
  let offset := size - Z.of_nat (sizeof_cur A) in
  resync A s
  = if (size =? 0) || (size =? Z.of_nat (sizeof_cur A)) then Ok tt s
    else if 0 <=? fd_off s + offset then Ok tt (sought offset s)
    else Exit EXIT_FAILURE
           (complain (seek_refused offset s)
              ("unable to seek " ++ dec (to_int offset) ++ " bytes")).
Proof.
  intros size offset. subst size offset.
  destruct (Z.eqb_spec (get_u off_size sz_short (cur s)) 0) as [H0 | H0].
  { apply resync_skip. left. exact H0. }
  destruct (Z.eqb_spec (get_u off_size sz_short (cur s))
              (Z.of_nat (sizeof_cur A))) as [H1 | H1].
  { apply resync_skip. right. exact H1. }
  cbv [orb].
  destruct (Z.leb_spec 0 (fd_off s + (get_u off_size sz_short (cur s)
                                      - Z.of_nat (sizeof_cur A)))) as [Hp | Hp].
  - apply resync_seek; assumption.
  - apply resync_fatal; assumption.
Qed.

(** ** The scan loop and the read *)

(** C2, as stated, fails: over a file that holds one complete version 1
    record (40 bytes on Linux x86-64, where the slot is 56 bytes) the first
    read delivers 40 of the 56 bytes asked for and the second delivers 16;
    neither is treated as an error.  The record is rendered and the run
    ends with exit status 0 and an empty error channel. *)
Lemma short_read_is_not_fatal :
  exists s : state,
    main linux_amd64 (sample_env one_v1_file) 3 = Some (0, s)
    /\ calls s = [SysLseekCur 0 0; SysRead 56 40; SysLseekCur (-16) 24;
                  SysLseekCur 0 24; SysRead 56 16;
                  SysLseekCur 0 40; SysRead 56 0]
    /\ err s = []
    /\ out s = String.concat nl
                 ["position: 0"; "version: 1"; "size: 40"; "type: TS_PPID";
                  "flags: "; "auth uid: 1000"; "session ID: 77";
                  "time stamp: <1540004000>"; "parent pid: 1234"; "";
                  "unknown time stamp entry version 0 @ 24"; ""]%string.
Proof.
  eexists. split; [vm_compute; reflexivity | ].
  repeat split; vm_compute; reflexivity.
Qed.

(** C2, amended.  In every turn of the scan loop: a read that fails (-1) is
    fatal, with a message on the error channel and a non-zero exit status;
    a read that yields zero bytes ends the scan with exit status 0; a read
    that yields any positive number of bytes, a full slot or not, is neither:
    the turn goes on to validate what is now in the slot, to seek and to
    show the record. *)
Theorem slot_read_outcomes (A : abi) (E : env) (td : timespec) (s : state) :
  0 <= fd_off s ->
  let slot := sizeof_cur A in
  let chunk := avail E slot s in
  (read_error E (fd_off s) = true ->
   let s' := complain (read_failed slot (queried s))
               ("unable to read " ++ fname E) in
   iteration A E td s = Exit EXIT_FAILURE s'
   /\ EXIT_FAILURE <> 0
   /\ forall fuel, option_map exit_of (scan A E (S fuel) td s)
                   = Some (EXIT_FAILURE, s'))
  /\ (read_error E (fd_off s) = false -> chunk = [] ->
      let s' := slot_read slot [] (queried s) in
      iteration A E td s = Ok Break s'
      /\ out s' = out s /\ err s' = err s
      /\ forall fuel, option_map exit_of (scan A E (S fuel) td s)
                      = Some (0, s'))
  /\ (read_error E (fd_off s) = false -> chunk <> [] ->
      iteration A E td s
      = (valid <- valid_entry A (fd_off s);;
         resync A;;;
         show_entry A E valid (fd_off s) td)
          (slot_read slot chunk (queried s))).
Proof.
  intros Hpos slot chunk. subst slot chunk. split; [ | split].
  - intros Herr s'. subst s'.
    pose proof (iteration_read_error A E td s Hpos Herr) as Hit.
    split; [exact Hit | ]. split; [discriminate | ].
    intros fuel. cbn [scan]. rewrite Hit. reflexivity.
  - intros Herr Hnil s'. subst s'.
    pose proof (iteration_eof A E td s Hpos Herr Hnil) as Hit.
    split; [exact Hit | ]. split; [reflexivity | ]. split; [reflexivity | ].
    intros fuel. cbn [scan]. rewrite Hit. reflexivity.
  - intros Herr Hne. apply iteration_record; assumption.
Qed.

Lemma slot_read_outcomes_witness :
  0 <= fd_off (initial (sample_env []))
  /\ iteration linux_amd64 (sample_env []) timespec_zero
       (initial (sample_env []))
     = Ok Break (slot_read 56 [] (queried (initial (sample_env [])))).
Proof.
  assert (H : 0 <= fd_off (initial (sample_env []))) by (vm_compute; discriminate).
  split; [exact H | ].
  apply (slot_read_outcomes linux_amd64 (sample_env []) timespec_zero
           (initial (sample_env [])) H); reflexivity.
Defined.

(** C1, as stated, fails: the slot at offset 0 carries version 3, which the
    Validator rejects, and declares 40 bytes; the loop seeks 40 - 56 bytes
    all the same and leaves the offset at 40, not one slot (56 bytes) past
    the start of the record. *)
Lemma invalid_record_is_resynchronized :
  exists s1 s' : state,
    valid_entry linux_amd64 0
      (slot_read 56 (avail (sample_env v3_then_more) 56
                       (initial (sample_env v3_then_more)))
         (queried (initial (sample_env v3_then_more)))) = Ok false s1
    /\ iteration linux_amd64 (sample_env v3_then_more) timespec_zero
         (initial (sample_env v3_then_more)) = Ok Continue s'
    /\ calls s' = [SysLseekCur 0 0; SysRead 56 56; SysLseekCur (40 - 56) 40]
    /\ fd_off s' = 40
    /\ fd_off s' <> 0 + 56.
Proof.
  eexists. eexists. split; [vm_compute; reflexivity | ].
  split; [vm_compute; reflexivity | ].
  repeat split. vm_compute. discriminate.
Qed.

(** C1, amended.  For every record that the Validator flags Invalid the
    Scan Driver does what it does for a Valid one: no seek when the declared
    size is zero or the slot size, so that the offset stays where the read
    left it; otherwise a relative seek by the declared size minus the slot
    size, fatal when it is refused. *)
Theorem invalid_record_resync (A : abi) (E : env) (td : timespec)
    (s s2 : state) :
  let slot := sizeof_cur A in
  let chunk := avail E slot s in
  let s1 := slot_read slot chunk (queried s) in
  let size := get_u off_size sz_short (cur s1) in
  let offset := size - Z.of_nat slot in
  0 <= fd_off s -> read_error E (fd_off s) = false -> chunk <> [] ->
  valid_entry A (fd_off s) s1 = Ok false s2 ->
  fd_off s2 = fd_off s + Z.of_nat (List.length chunk)
  /\ iteration A E td s
     = if (size =? 0) || (size =? Z.of_nat slot) then Ok Continue s2
       else if 0 <=? fd_off s2 + offset then Ok Continue (sought offset s2)
       else Exit EXIT_FAILURE
              (complain (seek_refused offset s2)
                 ("unable to seek " ++ dec (to_int offset) ++ " bytes")).
Proof.
  intros slot chunk s1 size offset Hpos Herr Hne Hval.
  destruct (valid_entry_frame _ _ _ _ _ Hval) as [diag Hs2].
  split; [rewrite Hs2; reflexivity | ].
  rewrite iteration_record by assumption.
  fold slot. fold chunk. fold s1.
  unfold bind at 1. rewrite Hval.
  unfold bind. rewrite resync_cases.
  replace (get_u off_size sz_short (cur s2)) with size
    by (rewrite Hs2; reflexivity).
  fold slot. fold offset.
  destruct ((size =? 0) || (size =? Z.of_nat slot)); [reflexivity | ].
  destruct (0 <=? fd_off s2 + offset); reflexivity.
Qed.

Lemma invalid_record_resync_witness :
  iteration linux_amd64 (sample_env v3_then_more) timespec_zero
    (initial (sample_env v3_then_more))
  = Ok Continue
      (sought (40 - 56)
         (emit
            (slot_read 56 (avail (sample_env v3_then_more) 56
                             (initial (sample_env v3_then_more)))
               (queried (initial (sample_env v3_then_more))))
            ("unknown time stamp entry version 3 @ 0" ++ nl))).
Proof.
  assert (H0 : 0 <= fd_off (initial (sample_env v3_then_more)))
    by (vm_compute; discriminate).
  apply (fun Hne Hv =>
           proj2 (invalid_record_resync linux_amd64 (sample_env v3_then_more)
                    timespec_zero (initial (sample_env v3_then_more))
                    (emit
                       (slot_read 56
                          (avail (sample_env v3_then_more) 56
                             (initial (sample_env v3_then_more)))
                          (queried (initial (sample_env v3_then_more))))
                       ("unknown time stamp entry version 3 @ 0" ++ nl))
                    H0 eq_refl Hne Hv)).
  - vm_compute. discriminate.
  - vm_compute. reflexivity.
Defined.

Lemma valid_entry_accepted A pos s s' :
  valid_entry A pos s = Ok true s' ->
  s' = s
  /\ ((get_u off_version sz_short (cur s) = 1
       /\ get_u off_size sz_short (cur s) = Z.of_nat (sizeof_v1 A))
      \/ (get_u off_version sz_short (cur s) = 2
          /\ get_u off_size sz_short (cur s) = Z.of_nat (sizeof_v2 A))).
Proof.
  cbv [valid_entry bind rd ret printf].
  destruct (Z.eqb_spec (get_u off_version sz_short (cur s)) 1) as [V1 | V1].
  - destruct (Z.eqb_spec (get_u off_size sz_short (cur s))
                (Z.of_nat (sizeof_v1 A))) as [S1 | S1]; cbv [negb];
      intros H; inversion H; subst. auto.
  - destruct (Z.eqb_spec (get_u off_version sz_short (cur s)) 2) as [V2 | V2].
    + destruct (Z.eqb_spec (get_u off_size sz_short (cur s))
                  (Z.of_nat (sizeof_v2 A))) as [S2 | S2]; cbv [negb];
        intros H; inversion H; subst. auto.
    + intros H; inversion H.
Qed.

Lemma valid_entry_total A pos s :
  exists (v : bool) (diag : string), valid_entry A pos s = Ok v (emit s diag).
Proof.
  cbv [valid_entry bind rd ret printf]. fold (emit s).
  repeat match goal with
         | |- context [if ?b then _ else _] => destruct b
         end;
    try (eexists; eexists; reflexivity);
    exists true, ""%string; rewrite emit_nil; reflexivity.
Qed.

(** C9, as stated, fails: over a file that ends 16 bytes into a slot whose
    declared size is zero, no seek is made, and the offset is left 16 bytes
    past the start of the record, where the read stopped, not one full slot
    (56 bytes) past it. *)
Lemma zero_size_after_short_read :
  exists s' : state,
    iteration linux_amd64 (sample_env short_v3_file) timespec_zero
      (initial (sample_env short_v3_file)) = Ok Continue s'
    /\ get_u off_size sz_short (cur s') = 0
    /\ calls s' = [SysLseekCur 0 0; SysRead 56 16]
    /\ fd_off s' = 16
    /\ fd_off s' <> 0 + 56.
Proof.
  eexists. split; [vm_compute; reflexivity | ].
  repeat split. vm_compute. discriminate.
Qed.

(** C9, amended.  In every turn of the scan loop the relative seek is
    attempted only when the declared size is neither zero nor the slot
    size.  In particular a record whose declared size is zero triggers no
    seek at all: the offset stays where the read left it, which is one full
    slot past the start of the record when the read delivered a full slot,
    and it is never moved backwards by the slot size. *)
Theorem resync_guard (A : abi) :
  (forall s : state,
     let size := get_u off_size sz_short (cur s) in
     let offset := size - Z.of_nat (sizeof_cur A) in
     resync A s
     = if (size =? 0) || (size =? Z.of_nat (sizeof_cur A)) then Ok tt s
       else if 0 <=? fd_off s + offset then Ok tt (sought offset s)
       else Exit EXIT_FAILURE
              (complain (seek_refused offset s)
                 ("unable to seek " ++ dec (to_int offset) ++ " bytes")))
  /\ (abi_ok A = true ->
      forall (E : env) (td : timespec) (s : state),
        let slot := sizeof_cur A in
        let chunk := avail E slot s in
        0 <= fd_off s -> read_error E (fd_off s) = false -> chunk <> [] ->
        get_u off_size sz_short (store 0 chunk (cur s)) = 0 ->
        exists s' : state,
          iteration A E td s = Ok Continue s'
          /\ calls s' = (calls s ++ [SysLseekCur 0 (fd_off s);
                                     SysRead slot (Z.of_nat (List.length chunk))])%list
          /\ fd_off s' = fd_off s + Z.of_nat (List.length chunk)
          /\ (List.length chunk = slot ->
              fd_off s' = fd_off s + Z.of_nat slot)).
Proof.
  split; [exact (resync_cases A) | ].
  intros Hok E td s slot chunk Hpos Herr Hne Hsize.
  destruct (abi_ok_layout A Hok) as [L _].
  set (s1 := slot_read slot chunk (queried s)).
  destruct (valid_entry_total A (fd_off s) s1) as [v [diag Hval]].
  assert (Hv : v = false).
  { destruct v; [ | reflexivity].
    apply valid_entry_accepted in Hval.
    destruct Hval as [_ [[_ Hs] | [_ Hs]]];
      change (cur s1) with (store 0 chunk (cur s)) in Hs; lia. }
  subst v.
  exists (emit s1 diag).
  rewrite iteration_record by assumption.
  fold slot. fold chunk. fold s1.
  unfold bind at 1. rewrite Hval.
  unfold bind. rewrite resync_skip by (left; exact Hsize).
  split; [reflexivity | ].
  split; [simpl; rewrite <- app_assoc; reflexivity | ].
  split; [reflexivity | ].
  intros Hfull. simpl. rewrite Hfull. reflexivity.
Qed.

Lemma resync_guard_witness :
  exists s' : state,
    iteration linux_amd64 (sample_env (slot_v3 0)) timespec_zero
      (initial (sample_env (slot_v3 0))) = Ok Continue s'
    /\ calls s' = [SysLseekCur 0 0; SysRead 56 56]
    /\ fd_off s' = 0 + 56
    /\ (56%nat = 56%nat -> fd_off s' = 0 + 56).
Proof.
  apply (proj2 (resync_guard linux_amd64) eq_refl (sample_env (slot_v3 0))
           timespec_zero (initial (sample_env (slot_v3 0)))).
  - vm_compute. discriminate.
  - reflexivity.
  - vm_compute. discriminate.
  - vm_compute. reflexivity.
Defined.

(** ** struct timespec in storage *)

Lemma length_put_timespec A off t m :
  (sz_time A <= off_nsec A)%nat ->
  (off + off_nsec A + sz_long A <= List.length m)%nat ->
  List.length (put_timespec A off t m) = List.length m.
Proof.
  intros H1 H2. unfold put_timespec.
  rewrite !length_put; rewrite ?length_put; lia.
Qed.

Lemma load_put_timespec_other A off t m o n :
  (sz_time A <= off_nsec A)%nat ->
  (off + off_nsec A + sz_long A <= List.length m)%nat ->
  (o + n <= off \/ off + off_nsec A + sz_long A <= o)%nat ->
  load o n (put_timespec A off t m) = load o n m.
Proof.
  intros H1 H2 H3. unfold put_timespec.
  rewrite load_put_other by (rewrite ?length_put; lia).
  apply load_put_other; lia.
Qed.

Lemma get_put_timespec A off t m :
  (sz_time A <= off_nsec A)%nat ->
  (off + off_nsec A + sz_long A <= List.length m)%nat ->
  get_timespec A off (put_timespec A off t m) = wrap_timespec A t.
Proof.
  intros H1 H2. unfold get_timespec, put_timespec, wrap_timespec. f_equal.
  - unfold get_s at 1, get_u. rewrite load_put_other by (rewrite ?length_put; lia).
    fold (get_u off (sz_time A) (put off (sz_time A) (tv_sec t) m)).
    rewrite get_u_put_same by lia. reflexivity.
  - apply get_s_put_same. rewrite length_put; lia.
Qed.

Lemma wrap_signed_0 n : (1 <= n)%nat -> wrap_signed n 0 = 0.
Proof.
  intros H. unfold wrap_signed, signed. rewrite Z.mod_0_l.
  - destruct (Z.ltb_spec 0 (2 ^ (8 * Z.of_nat n - 1))) as [ | Hle];
      [reflexivity | ].
    assert (0 < 2 ^ (8 * Z.of_nat n - 1)) by (apply Z.pow_pos_nonneg; lia).
    lia.
  - apply Z.pow_nonzero; lia.
Qed.

Lemma wrap_timespec_zero A :
  (1 <= sz_time A)%nat -> (1 <= sz_long A)%nat ->
  wrap_timespec A timespec_zero = timespec_zero.
Proof.
  intros H1 H2. unfold wrap_timespec, timespec_zero. simpl.
  rewrite !wrap_signed_0 by assumption. reflexivity.
Qed.

Lemma get_timespec_ext A off off' m m' :
  load off (sz_timespec A) m = load off' (sz_timespec A) m' ->
  (off_nsec A + sz_long A <= sz_timespec A)%nat ->
  (sz_time A <= off_nsec A)%nat ->
  get_timespec A off m = get_timespec A off' m'.
Proof.
  intros H H1 H2.
  assert (Hs : load off (sz_time A) m = load off' (sz_time A) m').
  { rewrite <- (firstn_load off (sz_timespec A)) by lia.
    rewrite <- (firstn_load off' (sz_timespec A)) by lia.
    rewrite H. reflexivity. }
  assert (Hn : load (off + off_nsec A) (sz_long A) m
               = load (off' + off_nsec A) (sz_long A) m').
  { apply nth_error_ext. intros i. rewrite !nth_error_load.
    destruct (Nat.ltb_spec i (sz_long A)) as [Hi | Hi]; [ | reflexivity].
    apply (f_equal (fun l => nth_error l (off_nsec A + i))) in H.
    rewrite !nth_error_load in H.
    destruct (Nat.ltb_spec (off_nsec A + i) (sz_timespec A)); [ | lia].
    rewrite <- !Nat.add_assoc. exact H. }
  unfold get_timespec, get_s, get_u. rewrite Hs, Hn. reflexivity.
Qed.

(** ** convert_entry: the in-place upgrade *)

Section Upgrade.

Context (A : abi) (Hok : abi_ok A = true).

Lemma convert_entry_upgrade_decoded (s : state) :
  List.length (cur s) = sizeof_cur A ->
  exists r' : list byte,
    convert_entry_upgrade A s = Ok tt (with_cur s r')
    /\ List.length r' = sizeof_cur A
    /\ decode_v2 A r' = migrate A (decode_v1 A (cur s)).
Proof.
  intros Hlen.
  destruct (abi_ok_layout A Hok) as [L _].
  decompose [and] L. clear L.
  set (orig := cur s) in *.
  assert (Horig : load 0 (sizeof_cur A) orig = orig)
    by (rewrite <- Hlen; apply load_all).
  set (r1 := store (v2_auth_uid A) (load (v1_auth_uid A) (sz_uid A) orig) orig).
  set (r2 := store (v2_sid A) (load (v1_sid A) (sz_pid A) orig) r1).
  set (r3 := put_timespec A (v2_start_time A) timespec_zero r2).
  set (r4 := store (v2_ts A) (load (v1_ts A) (sz_timespec A) orig) r3).
  set (type := get_u off_type sz_short r4).
  set (r5 := if type =? TS_TTY A then
               store (v2_u A) (load (v1_u A) (sz_dev A) orig) r4
             else if type =? TS_PPID A then
               store (v2_u A) (load (v1_u A) (sz_pid A) orig) r4
             else store (v2_u A) (zeros (sz_u A)) r4).
  exists r5.
  assert (L1 : List.length r1 = List.length orig)
    by (apply length_store; rewrite length_load; lia).
  assert (L2 : List.length r2 = List.length orig)
    by (unfold r2; rewrite length_store; rewrite ?length_load; lia).
  assert (L3 : List.length r3 = List.length orig)
    by (unfold r3; rewrite length_put_timespec; lia).
  assert (L4 : List.length r4 = List.length orig)
    by (unfold r4; rewrite length_store; rewrite ?length_load; lia).
  assert (Heq : convert_entry_upgrade A s = Ok tt (with_cur s r5)).
  { unfold r5, type, r4, r3, r2, r1.
    cbv [convert_entry_upgrade bind rd wr ret with_cur].
    cbn [cur fd_off out err calls]. fold orig. rewrite Horig.
    destruct (_ =? TS_TTY A); [reflexivity | ].
    destruct (_ =? TS_PPID A); reflexivity. }
  assert (F4 : forall o n, (o + n <= v2_auth_uid A)%nat ->
                           load o n r4 = load o n orig).
  { intros o n Hon. unfold r4.
    rewrite load_store_other by (rewrite ?length_load; lia).
    unfold r3. rewrite load_put_timespec_other by lia.
    unfold r2. rewrite load_store_other by (rewrite ?length_load; lia).
    unfold r1. apply load_store_other; rewrite ?length_load; lia. }
  assert (Fuid : load (v2_auth_uid A) (sz_uid A) r4
                 = load (v1_auth_uid A) (sz_uid A) orig).
  { unfold r4.
    rewrite load_store_other by (rewrite ?length_load; lia).
    unfold r3. rewrite load_put_timespec_other by lia.
    unfold r2. rewrite load_store_other by (rewrite ?length_load; lia).
    unfold r1. rewrite load_store_prefix by (rewrite ?length_load; lia).
    rewrite firstn_load by lia. reflexivity. }
  assert (Fsid : load (v2_sid A) (sz_pid A) r4
                 = load (v1_sid A) (sz_pid A) orig).
  { unfold r4.
    rewrite load_store_other by (rewrite ?length_load; lia).
    unfold r3. rewrite load_put_timespec_other by lia.
    unfold r2. rewrite load_store_prefix by (rewrite ?length_load; lia).
    rewrite firstn_load by lia. reflexivity. }
  assert (Fst : get_timespec A (v2_start_time A) r4 = timespec_zero).
  { rewrite <- (wrap_timespec_zero A) by assumption.
    rewrite <- (get_put_timespec A (v2_start_time A) timespec_zero r2) by lia.
    fold r3. apply get_timespec_ext; try assumption.
    unfold r4. apply load_store_other; rewrite ?length_load; lia. }
  assert (Fts : load (v2_ts A) (sz_timespec A) r4
                = load (v1_ts A) (sz_timespec A) orig).
  { unfold r4. rewrite load_store_prefix by (rewrite ?length_load; lia).
    rewrite firstn_load by lia. reflexivity. }
  assert (Hty : type = get_u off_type sz_short orig).
  { unfold type, get_u. rewrite F4; [reflexivity | ].
    unfold off_type, sz_short. lia. }
  assert (L5 : List.length r5 = List.length orig).
  { unfold r5. destruct (type =? TS_TTY A); [ | destruct (type =? TS_PPID A)];
      rewrite length_store; rewrite ?length_load, ?length_zeros; lia. }
  assert (F5 : forall o n, (o + n <= v2_u A)%nat -> load o n r5 = load o n r4).
  { intros o n Hon. unfold r5.
    destruct (type =? TS_TTY A); [ | destruct (type =? TS_PPID A)];
      apply load_store_other; lia. }
  split; [exact Heq | ]. split; [lia | ].
  unfold decode_v2, decode_v1, migrate.
  cbn [o_version o_size o_type o_flags o_auth_uid o_sid o_ts o_scope].
  unfold get_s, get_u.
  rewrite !F5 by (unfold off_version, off_size, off_type, off_flags, sz_short; lia).
  rewrite !F4 by (unfold off_version, off_size, off_type, off_flags, sz_short; lia).
  rewrite Fuid, Fsid.
  assert (Gst : get_timespec A (v2_start_time A) r5 = timespec_zero).
  { rewrite <- Fst. apply get_timespec_ext; try assumption. apply F5. lia. }
  assert (Gts : get_timespec A (v2_ts A) r5 = get_timespec A (v1_ts A) orig).
  { apply get_timespec_ext; try assumption. rewrite F5 by lia. exact Fts. }
  rewrite Gst, Gts.
  f_equal.
  fold (get_u off_type sz_short orig). rewrite <- Hty.
  unfold scope_at, r5.
  destruct (type =? TS_TTY A).
  { unfold get_u. rewrite load_store_prefix by (rewrite ?length_load; lia).
    rewrite firstn_load by lia. reflexivity. }
  destruct (type =? TS_PPID A).
  { unfold get_s, get_u. rewrite load_store_prefix by (rewrite ?length_load; lia).
    rewrite firstn_load by lia. reflexivity. }
  rewrite load_store_prefix by (rewrite ?length_zeros; lia).
  rewrite <- (length_zeros (sz_u A)) at 1. rewrite firstn_all. reflexivity.
Qed.

Lemma with_cur_same (s : state) : with_cur s (cur s) = s.
Proof. destruct s. reflexivity. Qed.

Lemma with_cur_twice (s : state) (m m' : list byte) :
  with_cur (with_cur s m) m' = with_cur s m'.
Proof. reflexivity. Qed.

(** ** convert_entry: the time stamps *)

Lemma convert_entry_adjust_decoded (off : timespec) (s : state) :
  List.length (cur s) = sizeof_cur A ->
  exists r' : list byte,
    convert_entry_adjust A off s = Ok true (with_cur s r')
    /\ List.length r' = sizeof_cur A
    /\ decode_v2 A r' = normalize A off (decode_v2 A (cur s)).
Proof.
  intros Hlen.
  destruct (abi_ok_layout A Hok) as [L _].
  decompose [and] L. clear L.
  set (m := cur s) in *.
  set (st := get_timespec A (v2_start_time A) m).
  set (r1 := if linux A then
               if sudo_timespecisset st then
                 put_timespec A (v2_start_time A) (sudo_timespecadd st off) m
               else m
             else m).
  set (ts := get_timespec A (v2_ts A) r1).
  set (r2 := if sudo_timespecisset ts then
               put_timespec A (v2_ts A) (sudo_timespecadd ts off) r1
             else r1).
  exists r2.
  assert (Heq : convert_entry_adjust A off s = Ok true (with_cur s r2)).
  { unfold r2, ts, r1, st, m. clear.
    cbv [convert_entry_adjust bind rd wr ret with_cur].
    destruct (linux A);
      [destruct (sudo_timespecisset (get_timespec A (v2_start_time A) (cur s)))
      | ];
      cbn [cur fd_off out err calls];
      destruct (sudo_timespecisset _); try reflexivity;
      destruct s; reflexivity. }
  assert (L1 : List.length r1 = List.length m).
  { unfold r1. destruct (linux A); [ | reflexivity].
    destruct (sudo_timespecisset st); [ | reflexivity].
    apply length_put_timespec; lia. }
  assert (F1 : forall o n,
             (o + n <= v2_start_time A \/ v2_start_time A + sz_timespec A <= o)%nat ->
             load o n r1 = load o n m).
  { intros o n Hon. unfold r1. destruct (linux A); [ | reflexivity].
    destruct (sudo_timespecisset st); [ | reflexivity].
    apply load_put_timespec_other; lia. }
  assert (L2 : List.length r2 = List.length m).
  { unfold r2. destruct (sudo_timespecisset ts); [ | exact L1].
    rewrite length_put_timespec; lia. }
  assert (F2 : forall o n,
             (o + n <= v2_ts A \/ v2_ts A + sz_timespec A <= o)%nat ->
             load o n r2 = load o n r1).
  { intros o n Hon. unfold r2. destruct (sudo_timespecisset ts); [ | reflexivity].
    apply load_put_timespec_other; lia. }
  assert (Hts : ts = get_timespec A (v2_ts A) m).
  { unfold ts. apply get_timespec_ext; try assumption. apply F1. lia. }
  assert (Gst : get_timespec A (v2_start_time A) r2
                = if linux A then normalize_time A off st else st).
  { transitivity (get_timespec A (v2_start_time A) r1).
    - apply get_timespec_ext; try assumption. apply F2. lia.
    - unfold r1, normalize_time. destruct (linux A); [ | reflexivity].
      destruct (sudo_timespecisset st); [ | reflexivity].
      apply get_put_timespec; lia. }
  assert (Gts : get_timespec A (v2_ts A) r2 = normalize_time A off ts).
  { unfold r2, normalize_time. destruct (sudo_timespecisset ts); [ | reflexivity].
    apply get_put_timespec; lia. }
  split; [exact Heq | ]. split; [lia | ].
  unfold decode_v2, normalize.
  cbn [e_version e_size e_type e_flags e_auth_uid e_sid e_start_time e_ts e_scope].
  rewrite Gst, Gts, Hts.
  unfold scope_at, get_s, get_u.
  rewrite !F2 by (unfold off_version, off_size, off_type, off_flags, sz_short; lia).
  rewrite !F1 by (unfold off_version, off_size, off_type, off_flags, sz_short; lia).
  reflexivity.
Qed.

(** ** convert_entry as a whole *)

Lemma convert_entry_skip (off : timespec) (s : state) :
  get_u off_version sz_short (cur s) <> TS_VERSION ->
  get_u off_version sz_short (cur s) <> 1 ->
  convert_entry A off s
  = Ok false (complain s ("unexpected record version "
                          ++ dec (get_u off_version sz_short (cur s)))).
Proof.
  intros H2 H1. unfold convert_entry, bind at 1, rd.
  apply Z.eqb_neq in H1, H2. rewrite H1, H2. reflexivity.
Qed.

Lemma convert_entry_current (off : timespec) (s : state) :
  get_u off_version sz_short (cur s) = TS_VERSION ->
  convert_entry A off s = convert_entry_adjust A off s.
Proof.
  intros H. unfold convert_entry, bind at 1, rd.
  rewrite H. reflexivity.
Qed.

Lemma convert_entry_older (off : timespec) (s : state) :
  get_u off_version sz_short (cur s) = 1 ->
  convert_entry A off s
  = (convert_entry_upgrade A;;; convert_entry_adjust A off) s.
Proof.
  intros H. unfold convert_entry, bind at 1, rd.
  rewrite H. reflexivity.
Qed.

Lemma convert_entry_decoded (off : timespec) (s : state) :
  List.length (cur s) = sizeof_cur A ->
  get_u off_version sz_short (cur s) = 1
  \/ get_u off_version sz_short (cur s) = TS_VERSION ->
  exists r' : list byte,
    convert_entry A off s = Ok true (with_cur s r')
    /\ List.length r' = sizeof_cur A
    /\ decode_v2 A r' = converted A off (cur s).
Proof.
  intros Hlen [V | V]; unfold converted; rewrite V.
  - rewrite convert_entry_older by exact V.
    destruct (convert_entry_upgrade_decoded s Hlen) as [r1 [E1 [L1 D1]]].
    unfold bind. rewrite E1.
    destruct (convert_entry_adjust_decoded off (with_cur s r1) L1)
      as [r2 [E2 [L2 D2]]].
    exists r2. rewrite E2. change (cur (with_cur s r1)) with r1 in D2.
    rewrite D2, D1.
    split; [reflexivity | ]. split; [exact L2 | reflexivity].
  - rewrite convert_entry_current by exact V.
    destruct (convert_entry_adjust_decoded off s Hlen) as [r2 [E2 [L2 D2]]].
    exists r2. rewrite E2, D2.
    split; [reflexivity | ]. split; [exact L2 | reflexivity].
Qed.

End Upgrade.

(** ** Migration of a version 1 record *)

(** The two layouts do overlap: on Linux x86-64 the v2 [start_time] lies
    where the v1 time stamp does, so that clearing it in place wipes a time
    stamp that has not been copied yet. *)
Example layouts_overlap :
  get_timespec linux_amd64 (v1_ts linux_amd64) (cur state_v1)
  = {| tv_sec := 5000; tv_nsec := 0 |}
  /\ get_timespec linux_amd64 (v1_ts linux_amd64)
       (put_timespec linux_amd64 (v2_start_time linux_amd64) timespec_zero
          (cur state_v1))
     = timespec_zero.
Proof. split; vm_compute; reflexivity. Qed.

(** C10.  Migration of a version 1 record snapshots the whole storage
    first, reads every source field from the snapshot and writes through the
    destination layout only; although the two layouts share the storage, the
    record left in place is the pure function [migrate] of the record that
    was there before, and nothing but the storage changes. *)
Theorem upgrade_in_place_is_migrate (A : abi) (off : timespec) (s : state) :
  abi_ok A = true ->
  List.length (cur s) = sizeof_cur A ->
  get_u off_version sz_short (cur s) = 1 ->
  load 0 (sizeof_cur A) (cur s) = cur s
  /\ convert_entry A off s
     = (convert_entry_upgrade A;;; convert_entry_adjust A off) s
  /\ exists r' : list byte,
       convert_entry_upgrade A s = Ok tt (with_cur s r')
       /\ decode_v2 A r' = migrate A (decode_v1 A (cur s)).
Proof.
  intros Hok Hlen V.
  split; [rewrite <- Hlen; apply load_all | ].
  split; [apply convert_entry_older; exact V | ].
  destruct (convert_entry_upgrade_decoded A Hok s Hlen) as [r' [E1 [_ D1]]].
  exists r'. split; assumption.
Qed.

Lemma upgrade_in_place_is_migrate_witness :
  exists r' : list byte,
    convert_entry_upgrade linux_amd64 state_v1 = Ok tt (with_cur state_v1 r')
    /\ decode_v2 linux_amd64 r'
       = migrate linux_amd64 (decode_v1 linux_amd64 (cur state_v1)).
Proof.
  apply (upgrade_in_place_is_migrate linux_amd64 one_hour state_v1);
    vm_compute; reflexivity.
Defined.

(** C3.  For every version 1 record, migration keeps [auth_uid], the
    session id and the time stamp as they were, leaves [start_time] all
    zero, copies the scope value when the type is TTY or PPID and zeroes it
    for every other type.  For every record whose version is neither 1 nor
    the current one, [convert_entry] answers false, and the Scan Driver then
    drops the record: nothing is rendered. *)
Theorem migration_of_v1 (A : abi) (E : env) (td : timespec) (pos : Z)
    (s : state) :
  abi_ok A = true ->
  List.length (cur s) = sizeof_cur A ->
  let version := get_u off_version sz_short (cur s) in
  let type := get_u off_type sz_short (cur s) in
  (version = 1 ->
   exists r' : list byte,
     convert_entry_upgrade A s = Ok tt (with_cur s r')
     /\ convert_entry A td s = convert_entry_adjust A td (with_cur s r')
     /\ get_u (v2_auth_uid A) (sz_uid A) r'
        = get_u (v1_auth_uid A) (sz_uid A) (cur s)
     /\ get_s (v2_sid A) (sz_pid A) r' = get_s (v1_sid A) (sz_pid A) (cur s)
     /\ get_timespec A (v2_ts A) r' = get_timespec A (v1_ts A) (cur s)
     /\ get_timespec A (v2_start_time A) r' = timespec_zero
     /\ (type = TS_TTY A ->
         get_u (v2_u A) (sz_dev A) r' = get_u (v1_u A) (sz_dev A) (cur s))
     /\ (type <> TS_TTY A -> type = TS_PPID A ->
         get_s (v2_u A) (sz_pid A) r' = get_s (v1_u A) (sz_pid A) (cur s))
     /\ (type <> TS_TTY A -> type <> TS_PPID A ->
         load (v2_u A) (sz_u A) r' = zeros (sz_u A)))
  /\ (version <> 1 -> version <> TS_VERSION ->
      let s' := complain s ("unexpected record version " ++ dec version) in
      convert_entry A td s = Ok false s'
      /\ show_entry A E true pos td s = Ok Continue s'
      /\ out s' = out s).
Proof.
  intros Hok Hlen version type. split.
  - intros V.
    destruct (convert_entry_upgrade_decoded A Hok s Hlen) as [r' [E1 [_ D1]]].
    exists r'. split; [exact E1 | ].
    split.
    { rewrite convert_entry_older by exact V. unfold bind. rewrite E1.
      reflexivity. }
    pose proof (f_equal e_auth_uid D1) as Huid.
    pose proof (f_equal e_sid D1) as Hsid.
    pose proof (f_equal e_ts D1) as Hts.
    pose proof (f_equal e_start_time D1) as Hst.
    pose proof (f_equal e_type D1) as Hty.
    pose proof (f_equal e_scope D1) as Hsc.
    cbn in Huid, Hsid, Hts, Hst, Hty, Hsc.
    rewrite Hty in Hsc. fold type in Hsc. unfold scope_at in Hsc.
    repeat split; try assumption.
    + intros T. apply Z.eqb_eq in T. rewrite T in Hsc. congruence.
    + intros T P. apply Z.eqb_neq in T. apply Z.eqb_eq in P.
      rewrite T, P in Hsc. congruence.
    + intros T P. apply Z.eqb_neq in T, P. rewrite T, P in Hsc. congruence.
  - intros V1 V2 s'. subst s'.
    assert (Hc : convert_entry A td s
                 = Ok false (complain s ("unexpected record version "
                                         ++ dec version)))
      by (apply convert_entry_skip; assumption).
    split; [exact Hc | ]. split; [ | reflexivity].
    unfold show_entry, bind. rewrite Hc. reflexivity.
Qed.

Lemma migration_of_v1_witness :
  exists r' : list byte,
    convert_entry_upgrade linux_amd64 state_v1 = Ok tt (with_cur state_v1 r')
    /\ convert_entry linux_amd64 one_hour state_v1
       = convert_entry_adjust linux_amd64 one_hour (with_cur state_v1 r')
    /\ get_u 8 4 r' = get_u 8 4 (cur state_v1)
    /\ get_s 12 4 r' = get_s 12 4 (cur state_v1)
    /\ get_timespec linux_amd64 32 r'
       = get_timespec linux_amd64 16 (cur state_v1)
    /\ get_timespec linux_amd64 16 r' = timespec_zero
    /\ (3 = 2 -> get_u 48 8 r' = get_u 32 8 (cur state_v1))
    /\ (3 <> 2 -> 3 = 3 -> get_s 48 4 r' = get_s 32 4 (cur state_v1))
    /\ (3 <> 2 -> 3 <> 3 -> load 48 8 r' = zeros 8).
Proof.
  apply (proj1 (migration_of_v1 linux_amd64 (sample_env []) one_hour 0
                  state_v1 eq_refl eq_refl)).
  vm_compute. reflexivity.
Defined.

(** ** The pipeline on a current-schema record *)

(** A value that fits an [n]-byte signed object is held as it is. *)
Lemma wrap_signed_small (n : nat) (z : Z) :
  (1 <= n)%nat ->
  - 2 ^ (8 * Z.of_nat n - 1) <= z < 2 ^ (8 * Z.of_nat n - 1) ->
  wrap_signed n z = z.
Proof.
  intros Hn Hz. unfold wrap_signed, signed.
  replace (Z.of_nat n * 8) with (8 * Z.of_nat n) by lia.
  assert (Hp : 2 ^ (8 * Z.of_nat n) = 2 * 2 ^ (8 * Z.of_nat n - 1)).
  { rewrite <- Z.pow_succ_r by lia. f_equal. lia. }
  destruct (Z.le_gt_cases 0 z) as [Hz0 | Hz0].
  - rewrite Z.mod_small by lia.
    destruct (Z.ltb_spec z (2 ^ (8 * Z.of_nat n - 1))); lia.
  - replace (z mod 2 ^ (8 * Z.of_nat n)) with (z + 2 ^ (8 * Z.of_nat n)).
    + destruct (Z.ltb_spec (z + 2 ^ (8 * Z.of_nat n))
                  (2 ^ (8 * Z.of_nat n - 1))); lia.
    + symmetry. rewrite <- (Z.mod_small (z + 2 ^ (8 * Z.of_nat n))
                              (2 ^ (8 * Z.of_nat n))) by lia.
      rewrite <- (Z.mul_1_l (2 ^ (8 * Z.of_nat n))) at 2.
      rewrite Z.mod_add by lia. reflexivity.
Qed.

(** A time that fits the two fields of a [struct timespec] is held as it
    is: the sum of a time stamp and the offset is then stored exactly. *)
Lemma wrap_timespec_small (A : abi) (t : timespec) :
  abi_ok A = true ->
  - 2 ^ (8 * Z.of_nat (sz_time A) - 1) <= tv_sec t
    < 2 ^ (8 * Z.of_nat (sz_time A) - 1) ->
  - 2 ^ (8 * Z.of_nat (sz_long A) - 1) <= tv_nsec t
    < 2 ^ (8 * Z.of_nat (sz_long A) - 1) ->
  wrap_timespec A t = t.
Proof.
  intros Hok Hs Hn. destruct (abi_ok_layout A Hok) as [L _].
  unfold wrap_timespec. rewrite !wrap_signed_small by (assumption || lia).
  destruct t. reflexivity.
Qed.

(** C4, as stated, fails: where [__linux__] is not defined (here OpenBSD
    on x86-64) [convert_entry] leaves a [start_time] that is set as it was,
    while the time stamp next to it moves by the offset. *)
Lemma start_time_not_adjusted_off_linux :
  exists r' : list byte,
    valid_entry openbsd_amd64 0 state_v2_bsd = Ok true state_v2_bsd
    /\ convert_entry openbsd_amd64 one_hour state_v2_bsd
       = Ok true (with_cur state_v2_bsd r')
    /\ sudo_timespecisset
         (get_timespec openbsd_amd64 (v2_start_time openbsd_amd64)
            (cur state_v2_bsd))
       = true
    /\ get_timespec openbsd_amd64 (v2_start_time openbsd_amd64) r'
       = {| tv_sec := 100; tv_nsec := 5 |}
    /\ sudo_timespecadd
         (get_timespec openbsd_amd64 (v2_start_time openbsd_amd64)
            (cur state_v2_bsd))
         one_hour
       = {| tv_sec := 3700; tv_nsec := 5 |}
    /\ get_timespec openbsd_amd64 (v2_ts openbsd_amd64) r'
       = {| tv_sec := 3800; tv_nsec := 7 |}.
Proof.
  eexists. split; [vm_compute; reflexivity | ].
  split; [vm_compute; reflexivity | ].
  repeat split; vm_compute; reflexivity.
Qed.

(** C4, amended.  For every well-formed current-schema record the
    validate, migrate (a no-op), normalize pipeline leaves every field as it
    was except the two time stamps: [timestamp], when set, becomes its value
    plus the offset; [start_time], when set, becomes its value plus the
    offset where [__linux__] is defined and stays as it was elsewhere; a
    time stamp that is the all-zero sentinel stays all zero.  The offset is
    the wall-clock time minus the monotonic time, both read once before the
    loop. *)
Theorem current_record_pipeline (A : abi) (E : env) (off : timespec)
    (pos : Z) (s : state) :
  abi_ok A = true ->
  List.length (cur s) = sizeof_cur A ->
  get_u off_version sz_short (cur s) = TS_VERSION ->
  get_u off_size sz_short (cur s) = Z.of_nat (sizeof_v2 A) ->
  valid_entry A pos s = Ok true s
  /\ (exists r' : list byte,
        convert_entry A off s = Ok true (with_cur s r')
        /\ decode_v2 A r' = normalize A off (decode_v2 A (cur s))
        /\ e_ts (decode_v2 A r')
           = (let ts := e_ts (decode_v2 A (cur s)) in
              if sudo_timespecisset ts
              then wrap_timespec A (sudo_timespecadd ts off) else ts)
        /\ e_start_time (decode_v2 A r')
           = (let st := e_start_time (decode_v2 A (cur s)) in
              if linux A && sudo_timespecisset st
              then wrap_timespec A (sudo_timespecadd st off) else st))
  /\ (forall (fuel : nat) (now mono : timespec),
        gettime_real E = Some now -> gettime_mono E = Some mono ->
        open_fails E = false ->
        main A E fuel
        = option_map exit_of
            (scan A E fuel (sudo_timespecsub now mono) (initial E))).
Proof.
  intros Hok Hlen V S. split; [ | split].
  - cbv [valid_entry bind rd ret]. rewrite V. unfold TS_VERSION.
    cbn [Z.eqb Pos.eqb]. rewrite S, Z.eqb_refl. reflexivity.
  - destruct (convert_entry_adjust_decoded A Hok off s Hlen) as [r' [E2 [_ D2]]].
    exists r'. rewrite convert_entry_current by exact V.
    split; [exact E2 | ]. split; [exact D2 | ].
    rewrite D2. unfold normalize, normalize_time.
    cbn [e_ts e_start_time]. split; [reflexivity | ].
    destruct (linux A); reflexivity.
  - intros fuel now mono Hr Hm Ho. unfold main. rewrite Hr, Hm, Ho.
    reflexivity.
Qed.

Lemma current_record_pipeline_witness :
  exists r' : list byte,
    convert_entry linux_amd64 one_hour (state_of (sample_v2 linux_amd64))
    = Ok true (with_cur (state_of (sample_v2 linux_amd64)) r')
    /\ decode_v2 linux_amd64 r'
       = normalize linux_amd64 one_hour
           (decode_v2 linux_amd64 (sample_v2 linux_amd64))
    /\ e_ts (decode_v2 linux_amd64 r')
       = wrap_timespec linux_amd64 {| tv_sec := 200 + 3600; tv_nsec := 7 |}
    /\ e_start_time (decode_v2 linux_amd64 r')
       = wrap_timespec linux_amd64 {| tv_sec := 100 + 3600; tv_nsec := 5 |}.
Proof.
  apply (proj1 (proj2 (current_record_pipeline linux_amd64 (sample_env [])
                         one_hour 0 (state_of (sample_v2 linux_amd64))
                         eq_refl eq_refl eq_refl eq_refl))).
Defined.

(** ** Steps of a computation *)

Lemma bind_ret {T U} (v : T) (k : T -> M U) (s : state) :
  bind (ret v) k s = k v s.
Proof. reflexivity. Qed.

Lemma bind_bind {T U V} (c : M T) (k : T -> M U) (h : U -> M V) (s : state) :
  bind (bind c k) h s = bind c (fun x => bind (k x) h) s.
Proof. unfold bind. destruct (c s); reflexivity. Qed.

Lemma bind_rd {T U} (f : list byte -> T) (k : T -> M U) (s : state) :
  bind (rd f) k s = k (f (cur s)) s.
Proof. reflexivity. Qed.

Lemma bind_printf {U} (text : string) (k : unit -> M U) (s : state) :
  bind (printf text) k s = k tt (emit s text).
Proof. reflexivity. Qed.

Lemma printf_emit (text : string) (s : state) :
  printf text s = Ok tt (emit s text).
Proof. reflexivity. Qed.

(** ** Flags *)

Lemma land_0_bits (a b : Z) (n : Z) :
  Z.land a b = 0 -> Z.testbit a n && Z.testbit b n = false.
Proof.
  intros H. rewrite <- Z.land_spec, H. apply Z.bits_0.
Qed.

Lemma ldiff_absent (f d : Z) : Z.land f d = 0 -> Z.ldiff f d = f.
Proof.
  intros H. apply Z.bits_inj'. intros n _. rewrite Z.ldiff_spec.
  pose proof (land_0_bits f d n H).
  destruct (Z.testbit f n), (Z.testbit d n); simpl in *; congruence.
Qed.

Lemma land_ldiff_disjoint (f d a : Z) :
  Z.land d a = 0 -> Z.land (Z.ldiff f d) a = Z.land f a.
Proof.
  intros H. apply Z.bits_inj'. intros n _.
  rewrite !Z.land_spec, Z.ldiff_spec.
  pose proof (land_0_bits d a n H).
  destruct (Z.testbit f n), (Z.testbit d n), (Z.testbit a n);
    simpl in *; congruence.
Qed.

Lemma ldiff_ldiff (f d a : Z) :
  Z.ldiff (Z.ldiff f d) a = Z.ldiff f (Z.lor d a).
Proof.
  apply Z.bits_inj'. intros n _.
  rewrite !Z.ldiff_spec, Z.lor_spec.
  destruct (Z.testbit f n), (Z.testbit d n), (Z.testbit a n); reflexivity.
Qed.

Section Render.

Context (A : abi) (E : env) (Hok : abi_ok A = true).

(** What [print_flags] has cleared when it reaches its last test. *)
Lemma cleared_flags (flags : Z) :
  (let f1 := if ISSET flags (TS_DISABLED A) then CLR flags (TS_DISABLED A)
             else flags in
   if ISSET f1 (TS_ANYUID A) then CLR f1 (TS_ANYUID A) else f1)
  = residual A flags.
Proof.
  unfold ISSET, CLR, residual. cbv zeta. rewrite <- ldiff_ldiff.
  destruct (Z.eqb_spec (Z.land flags (TS_DISABLED A)) 0) as [D | D];
    cbv [negb].
  - rewrite (ldiff_absent flags (TS_DISABLED A)) by exact D.
    destruct (Z.eqb_spec (Z.land flags (TS_ANYUID A)) 0) as [N | N];
      cbv [negb]; [ | reflexivity].
    rewrite ldiff_absent by exact N. reflexivity.
  - destruct (Z.eqb_spec (Z.land (Z.ldiff flags (TS_DISABLED A)) (TS_ANYUID A)) 0)
      as [N | N]; cbv [negb]; [ | reflexivity].
    rewrite (ldiff_absent (Z.ldiff flags (TS_DISABLED A)) (TS_ANYUID A))
      by exact N.
    reflexivity.
Qed.

Lemma ISSET_after_CLR (flags : Z) :
  ISSET (CLR flags (TS_DISABLED A)) (TS_ANYUID A) = ISSET flags (TS_ANYUID A).
Proof.
  destruct (abi_ok_consts A Hok) as [_ [_ [_ [_ [_ [_ [_ [_ Hdis]]]]]]]].
  unfold ISSET, CLR. rewrite land_ldiff_disjoint by exact Hdis. reflexivity.
Qed.

Lemma print_flags_line (flags : Z) (s : state) :
  print_flags A flags s = Ok tt (emit s (flags_line A flags)).
Proof.
  pose proof (cleared_flags flags) as Hres. cbv zeta in Hres.
  unfold flags_line, flag_names. rewrite <- Hres. clear Hres.
  unfold print_flags. rewrite bind_printf.
  destruct (ISSET flags (TS_DISABLED A)) eqn:D.
  - rewrite bind_bind, bind_printf, bind_ret. cbv iota beta.
    rewrite ISSET_after_CLR.
    destruct (ISSET flags (TS_ANYUID A)) eqn:N.
    + rewrite bind_bind, bind_printf, bind_ret. cbv iota beta.
      destruct (Z.eqb_spec (CLR (CLR flags (TS_DISABLED A)) (TS_ANYUID A)) 0);
        cbv [negb]; rewrite ?bind_printf, ?bind_ret, printf_emit, !emit_emit;
        reflexivity.
    + rewrite bind_ret. cbv iota beta.
      destruct (Z.eqb_spec (CLR flags (TS_DISABLED A)) 0);
        cbv [negb]; rewrite ?bind_printf, ?bind_ret, printf_emit, !emit_emit;
        reflexivity.
  - rewrite bind_ret. cbv iota beta.
    destruct (ISSET flags (TS_ANYUID A)) eqn:N.
    + rewrite bind_bind, bind_printf, bind_ret. cbv iota beta.
      destruct (Z.eqb_spec (CLR flags (TS_ANYUID A)) 0);
        cbv [negb]; rewrite ?bind_printf, ?bind_ret, printf_emit, !emit_emit;
        reflexivity.
    + rewrite bind_ret. cbv iota beta.
      destruct (Z.eqb_spec flags 0);
        cbv [negb]; rewrite ?bind_printf, ?bind_ret, printf_emit, !emit_emit;
        reflexivity.
Qed.

Lemma type2string_name (type : Z) : type2string A type = type_name A type.
Proof.
  destruct (abi_ok_consts A Hok) as [G1 [G2 [G3 [G4 [G5 [G6 _]]]]]].
  unfold type2string, type_name.
  destruct (Z.eqb_spec type (TS_LOCKEXCL A)), (Z.eqb_spec type (TS_GLOBAL A)),
    (Z.eqb_spec type (TS_TTY A)), (Z.eqb_spec type (TS_PPID A));
    try reflexivity; congruence.
Qed.

Lemma bind_print_flags {U} (flags : Z) (k : unit -> M U) (s : state) :
  bind (print_flags A flags) k s = k tt (emit s (flags_line A flags)).
Proof. unfold bind. rewrite print_flags_line. reflexivity. Qed.

Lemma bind_printf_when {U} (b : bool) (text : string) (k : unit -> M U)
    (s : state) :
  bind (if b then printf text else ret tt) k s
  = k tt (emit s (if b then text else "")).
Proof. destruct b; [reflexivity | rewrite emit_nil; reflexivity]. Qed.

Lemma cur_emit (s : state) (text : string) : cur (emit s text) = cur s.
Proof. reflexivity. Qed.

Lemma concat_empty_app (l1 l2 : list string) :
  String.concat "" (l1 ++ l2)
  = (String.concat "" l1 ++ String.concat "" l2)%string.
Proof.
  induction l1 as [ | x l1 IH]; [reflexivity | ].
  destruct l1 as [ | y l1].
  - destruct l2 as [ | z l2]; simpl; [rewrite append_nil_r | ]; reflexivity.
  - change (String.concat "" ((x :: y :: l1) ++ l2))
      with (x ++ String.concat "" ((y :: l1) ++ l2))%string.
    rewrite IH.
    change (String.concat "" (x :: y :: l1))
      with (x ++ String.concat "" (y :: l1))%string.
    rewrite append_assoc. reflexivity.
Qed.

Lemma concat_empty_cons (x : string) (l : list string) :
  String.concat "" (x :: l) = (x ++ String.concat "" l)%string.
Proof. apply (concat_empty_app [x] l). Qed.

Lemma bind_trailer {U} (type : Z) (k : unit -> M U) (s : state) :
  bind (if type =? TS_TTY A then
          ttydev <- rd (get_u (v2_u A) (sz_dev A));;
          match sudo_ttyname_dev E ttydev with
          | None => printf ("terminal: " ++ dec (to_int ttydev) ++ nl)
          | Some tty => printf ("terminal: " ++ tty ++ nl)
          end
        else if type =? TS_PPID A then
          ppid <- rd (get_s (v2_u A) (sz_pid A));;
          printf ("parent pid: " ++ dec (to_int ppid) ++ nl)
        else ret tt) k s
  = k tt (emit s (String.concat ""
                    (trailer E (scope_at A type (v2_u A) (cur s))))).
Proof.
  unfold scope_at, trailer.
  destruct (type =? TS_TTY A).
  - rewrite bind_bind, bind_rd.
    destruct (sudo_ttyname_dev E (get_u (v2_u A) (sz_dev A) (cur s)));
      reflexivity.
  - destruct (type =? TS_PPID A).
    + rewrite bind_bind, bind_rd. reflexivity.
    + rewrite bind_ret, emit_nil. reflexivity.
Qed.

(** [dump_entry] prints the block of the record in the storage. *)
Lemma dump_entry_emits (pos : Z) (s : state) :
  dump_entry A E pos s
  = Ok tt (emit s (String.concat "" (render A E pos (decode_v2 A (cur s))))).
Proof.
  unfold dump_entry.
  repeat (rewrite ?bind_printf, ?bind_rd, ?bind_print_flags,
           ?bind_printf_when, ?cur_emit).
  rewrite bind_trailer, printf_emit, !cur_emit, !emit_emit.
  do 2 f_equal.
  unfold render, decode_v2.
  cbn [e_version e_size e_type e_flags e_auth_uid e_sid e_start_time e_ts
       e_scope].
  rewrite type2string_name.
  rewrite !concat_empty_app, !concat_empty_cons.
  destruct (sudo_timespecisset (get_timespec A (v2_start_time A) (cur s)));
    destruct (sudo_timespecisset (get_timespec A (v2_ts A) (cur s)));
    rewrite ?concat_empty_cons;
    change (String.concat "" []) with ""%string;
    rewrite ?append_nil_r, ?append_assoc; reflexivity.
Qed.

(** The flags line is one of the pieces of the block. *)
Lemma render_has_flags_line (pos : Z) (e : entry) :
  exists before after : string,
    String.concat "" (render A E pos e)
    = (before ++ flags_line A (e_flags e) ++ after)%string.
Proof.
  exists (String.concat ""
            [("position: " ++ dec pos ++ nl)%string;
             ("version: " ++ dec (e_version e) ++ nl)%string;
             ("size: " ++ dec (e_size e) ++ nl)%string;
             ("type: " ++ type_name A (e_type e) ++ nl)%string]).
  exists (String.concat ""
            ([("auth uid: " ++ dec (to_int (e_auth_uid e)) ++ nl)%string;
              ("session ID: " ++ dec (to_int (e_sid e)) ++ nl)%string]
             ++ (if sudo_timespecisset (e_start_time e)
                 then [("start time: " ++ ctime E (tv_sec (e_start_time e)))%string]
                 else [])
             ++ (if sudo_timespecisset (e_ts e)
                 then [("time stamp: " ++ ctime E (tv_sec (e_ts e)))%string]
                 else [])
             ++ trailer E (e_scope e)
             ++ [nl])%list).
  rewrite <- (concat_empty_cons (flags_line A (e_flags e))).
  rewrite <- concat_empty_app.
  reflexivity.
Qed.

(** A string occurs in what is joined from a list it belongs to. *)
Lemma occurs_concat (sep x : string) (l : list string) :
  In x l -> occurs x (String.concat sep l).
Proof.
  induction l as [ | y l IH]; [intros [] | ].
  intros [Hx | Hx].
  - subst y. destruct l as [ | z l].
    + exists ""%string, ""%string. simpl. rewrite append_nil_r. reflexivity.
    + exists ""%string, (sep ++ String.concat sep (z :: l))%string. reflexivity.
  - destruct l as [ | z l]; [destruct Hx | ].
    destruct (IH Hx) as [b [a Hba]].
    exists (y ++ sep ++ b)%string, a.
    change (String.concat sep (y :: z :: l))
      with (y ++ sep ++ String.concat sep (z :: l))%string.
    rewrite Hba, !append_assoc. reflexivity.
Qed.

Lemma occurs_within (x a m b : string) :
  occurs x m -> occurs x (a ++ m ++ b).
Proof.
  intros [p [q Hm]]. exists (a ++ p)%string, (q ++ b)%string.
  rewrite Hm, !append_assoc. reflexivity.
Qed.

(** The flags line of a record with the ANYUID bit names that flag. *)
Lemma flags_line_names_anyuid (flags : Z) :
  ISSET flags (TS_ANYUID A) = true -> occurs "TS_ANYUID" (flags_line A flags).
Proof.
  intros H. unfold flags_line. apply occurs_within. apply occurs_concat.
  unfold flag_names. rewrite H. apply in_or_app. right. left. reflexivity.
Qed.

End Render.

(** ** The Renderer *)

(** C7.  For every record handed to the Renderer, what is emitted is
    exactly the pieces of [render], in order: the stream offset, the version,
    the declared size, the name of the type (a hexadecimal tag for an
    unrecognized one), the flags line (the names of the recognized flags
    present, then the residual bits in hexadecimal if any, or nothing), the
    authentication uid, the session id, the start time if set, the time
    stamp if set, the trailer of the type and an empty line; nothing else
    of the process changes. *)
Theorem dump_entry_block (A : abi) (E : env) (pos : Z) (s : state) :
  abi_ok A = true ->
  let e := decode_v2 A (cur s) in
  dump_entry A E pos s = Ok tt (emit s (String.concat "" (render A E pos e)))
  /\ render A E pos e
     = ([("position: " ++ dec pos ++ nl)%string;
         ("version: " ++ dec (e_version e) ++ nl)%string;
         ("size: " ++ dec (e_size e) ++ nl)%string;
         ("type: " ++ type_name A (e_type e) ++ nl)%string;
         ("flags: " ++ String.concat ", " (flag_names A (e_flags e)) ++ nl)%string;
         ("auth uid: " ++ dec (to_int (e_auth_uid e)) ++ nl)%string;
         ("session ID: " ++ dec (to_int (e_sid e)) ++ nl)%string]
        ++ (if sudo_timespecisset (e_start_time e)
            then [("start time: " ++ ctime E (tv_sec (e_start_time e)))%string]
            else [])
        ++ (if sudo_timespecisset (e_ts e)
            then [("time stamp: " ++ ctime E (tv_sec (e_ts e)))%string]
            else [])
        ++ match e_scope e with
           | ScopeTty d =>
               [match sudo_ttyname_dev E d with
                | Some tty => ("terminal: " ++ tty ++ nl)%string
                | None => ("terminal: " ++ dec (to_int d) ++ nl)%string
                end]
           | ScopePpid p => [("parent pid: " ++ dec (to_int p) ++ nl)%string]
           | ScopeOther _ => []
           end
        ++ [nl])%list.
Proof.
  intros Hok e. split.
  - apply dump_entry_emits. exact Hok.
  - unfold render, flags_line, trailer.
    destruct (e_scope e) as [d | p | raw]; try reflexivity.
    destruct (sudo_ttyname_dev E d); reflexivity.
Qed.

Lemma dump_entry_block_witness :
  dump_entry linux_amd64 (sample_env []) 0 (state_of (sample_v2 linux_amd64))
  = Ok tt (emit (state_of (sample_v2 linux_amd64))
             (String.concat nl
                ["position: 0"; "version: 2"; "size: 56"; "type: TS_TTY";
                 "flags: "; "auth uid: 1000"; "session ID: 77";
                 "start time: <100>"; "time stamp: <200>";
                 "terminal: 34816"; ""; ""]%string)).
Proof.
  refine (eq_trans
            (proj1 (dump_entry_block linux_amd64 (sample_env []) 0
                      (state_of (sample_v2 linux_amd64)) eq_refl)) _).
  vm_compute. reflexivity.
Defined.

(** ** A record with the ANYUID bit *)

Lemma valid_entry_accepts A pos s :
  (get_u off_version sz_short (cur s) = 1
   /\ get_u off_size sz_short (cur s) = Z.of_nat (sizeof_v1 A))
  \/ (get_u off_version sz_short (cur s) = 2
      /\ get_u off_size sz_short (cur s) = Z.of_nat (sizeof_v2 A)) ->
  valid_entry A pos s = Ok true s.
Proof.
  intros [[V S] | [V S]]; cbv [valid_entry bind rd ret]; rewrite V;
    cbn [Z.eqb Pos.eqb]; rewrite S, Z.eqb_refl; reflexivity.
Qed.

Lemma length_avail E n s : (List.length (avail E n s) <= n)%nat.
Proof. unfold avail, load. apply firstn_le_length. Qed.

Lemma converted_flags A off m :
  e_flags (converted A off m) = get_u off_flags sz_short m.
Proof.
  unfold converted, normalize. cbn [e_flags].
  destruct (get_u off_version sz_short m =? 1); reflexivity.
Qed.

(** C8.  A record that is valid by its version and size and has the ANYUID
    bit set is accepted by the Validator and rendered; its flags line names
    the flag; the turn ends with the loop going on, and nothing is written
    to the error channel.  (For a version 1 record the relative seek must
    not be refused, that is, must not lead to a negative offset; a refused
    seek is fatal whatever the flags are.) *)
Theorem anyuid_record_is_rendered (A : abi) (E : env) (td : timespec)
    (s : state) :
  abi_ok A = true ->
  List.length (cur s) = sizeof_cur A ->
  0 <= fd_off s ->
  read_error E (fd_off s) = false ->
  let slot := sizeof_cur A in
  let chunk := avail E slot s in
  let s1 := slot_read slot chunk (queried s) in
  let version := get_u off_version sz_short (cur s1) in
  let size := get_u off_size sz_short (cur s1) in
  let flags := get_u off_flags sz_short (cur s1) in
  chunk <> [] ->
  (version = 1 /\ size = Z.of_nat (sizeof_v1 A))
  \/ (version = 2 /\ size = Z.of_nat (sizeof_v2 A)) ->
  ISSET flags (TS_ANYUID A) = true ->
  0 <= fd_off s1 + (size - Z.of_nat slot) ->
  valid_entry A (fd_off s) s1 = Ok true s1
  /\ occurs "TS_ANYUID" (flags_line A flags)
  /\ exists (s' : state) (before after : string),
       iteration A E td s = Ok Continue s'
       /\ out s' = (out s ++ String.concat ""
                               (render A E (fd_off s) (decode_v2 A (cur s'))))%string
       /\ e_flags (decode_v2 A (cur s')) = flags
       /\ out s' = (out s ++ before ++ flags_line A flags ++ after)%string
       /\ err s' = err s.
Proof.
  intros Hok Hlen Hpos Herr slot chunk s1 version size flags Hne Hvalid Hany
    Hseek.
  destruct (abi_ok_layout A Hok) as [[_ [_ [_ [_ [_ [_ [_ [_ [_ [_ [_ [_ [_
    [_ [_ [_ [_ [_ [_ [_ [Hlt Hcur]]]]]]]]]]]]]]]]]]]]] _].
  assert (Hval : valid_entry A (fd_off s) s1 = Ok true s1)
    by (apply valid_entry_accepts; exact Hvalid).
  split; [exact Hval | ].
  split; [apply flags_line_names_anyuid; assumption | ].
  assert (Hlen1 : List.length (cur s1) = sizeof_cur A).
  { unfold s1. cbn [cur slot_read queried]. rewrite length_store; [exact Hlen | ].
    pose proof (length_avail E slot s). fold chunk in H. unfold slot in H. lia. }
  assert (Hres : exists s2, resync A s1 = Ok tt s2 /\ cur s2 = cur s1
                            /\ out s2 = out s /\ err s2 = err s).
  { rewrite resync_cases. fold size. fold slot.
    destruct ((size =? 0) || (size =? Z.of_nat slot)).
    - exists s1. repeat split; reflexivity.
    - destruct (Z.leb_spec 0 (fd_off s1 + (size - Z.of_nat slot))); [ | lia].
      eexists. repeat split; reflexivity. }
  destruct Hres as [s2 [Hres [Hc2 [Ho2 He2]]]].
  assert (Hknown : get_u off_version sz_short (cur s2) = 1
                   \/ get_u off_version sz_short (cur s2) = TS_VERSION).
  { rewrite Hc2. fold version. unfold TS_VERSION. tauto. }
  assert (Hlen2 : List.length (cur s2) = sizeof_cur A)
    by (rewrite Hc2; exact Hlen1).
  destruct (convert_entry_decoded A Hok td s2 Hlen2 Hknown) as [r' [Hc [_ Hd]]].
  destruct (render_has_flags_line A E (fd_off s) (decode_v2 A r'))
    as [before [after Hfl]].
  exists (emit (with_cur s2 r')
            (String.concat "" (render A E (fd_off s) (decode_v2 A r')))).
  exists before, after.
  assert (Hflags : e_flags (decode_v2 A r') = flags).
  { rewrite Hd, converted_flags, Hc2. reflexivity. }
  split.
  { rewrite iteration_record by assumption.
    fold slot. fold chunk. fold s1.
    unfold bind at 1. rewrite Hval.
    unfold bind at 1. rewrite Hres.
    unfold show_entry, bind at 1. rewrite Hc. cbv [negb].
    unfold bind. rewrite dump_entry_emits by exact Hok. reflexivity. }
  cbn [out err cur emit with_cur]. rewrite Ho2, He2.
  split; [reflexivity | ]. split; [exact Hflags | ].
  split; [ | reflexivity].
  rewrite Hfl, Hflags. reflexivity.
Qed.

Lemma anyuid_record_is_rendered_witness :
  exists (s' : state) (before after : string),
    iteration linux_amd64 anyuid_env one_hour (initial anyuid_env)
    = Ok Continue s'
    /\ out s' = (out (initial anyuid_env)
                 ++ String.concat ""
                      (render linux_amd64 anyuid_env 0
                         (decode_v2 linux_amd64 (cur s'))))%string
    /\ e_flags (decode_v2 linux_amd64 (cur s')) = 2
    /\ out s' = (out (initial anyuid_env) ++ before
                 ++ flags_line linux_amd64 2 ++ after)%string
    /\ err s' = err (initial anyuid_env).
Proof.
  assert (H0 : 0 <= fd_off (initial anyuid_env)) by (vm_compute; discriminate).
  assert (Hseek : 0 <= 56 + (56 - 56)) by lia.
  apply (fun Hne Hv =>
           proj2 (proj2 (anyuid_record_is_rendered linux_amd64 anyuid_env
                           one_hour (initial anyuid_env) eq_refl eq_refl H0
                           eq_refl Hne Hv eq_refl Hseek))).
  - vm_compute. discriminate.
  - right. split; vm_compute; reflexivity.
Defined.

(** * Further properties of the scan loop *)

(** What [show_entry] leaves behind: the descriptor and the system calls
    are untouched, the storage keeps its size, and the two channels have
    only been appended to. *)
Lemma show_entry_frame A E (valid : bool) (pos : Z) (td : timespec) (s : state) :
  abi_ok A = true ->
  List.length (cur s) = sizeof_cur A ->
  exists (r' : list byte) (text : string) (msgs : list string),
    show_entry A E valid pos td s
    = Ok Continue {| fd_off := fd_off s; cur := r';
                     out := (out s ++ text)%string;
                     err := (err s ++ msgs)%list; calls := calls s |}
    /\ List.length r' = sizeof_cur A.
Proof.
  intros Hok Hlen. unfold show_entry. destruct valid.
  - destruct (Z.eqb_spec (get_u off_version sz_short (cur s)) 1) as [V1 | V1];
      [ | destruct (Z.eqb_spec (get_u off_version sz_short (cur s)) TS_VERSION)
            as [V2 | V2]].
    + destruct (convert_entry_decoded A Hok td s Hlen (or_introl V1))
        as [r' [Hc [Hl _]]].
      exists r', (String.concat "" (render A E pos (decode_v2 A r'))), [].
      unfold bind at 1. rewrite Hc. cbv [negb].
      unfold bind. rewrite dump_entry_emits by exact Hok.
      unfold emit, with_cur, ret. cbn [fd_off cur out err calls].
      rewrite app_nil_r. split; [reflexivity | exact Hl].
    + destruct (convert_entry_decoded A Hok td s Hlen (or_intror V2))
        as [r' [Hc [Hl _]]].
      exists r', (String.concat "" (render A E pos (decode_v2 A r'))), [].
      unfold bind at 1. rewrite Hc. cbv [negb].
      unfold bind. rewrite dump_entry_emits by exact Hok.
      unfold emit, with_cur, ret. cbn [fd_off cur out err calls].
      rewrite app_nil_r. split; [reflexivity | exact Hl].
    + exists (cur s), ""%string,
        [("unexpected record version "
          ++ dec (get_u off_version sz_short (cur s)))%string].
      unfold bind. rewrite convert_entry_skip by assumption.
      cbv [negb]. unfold complain, ret. rewrite append_nil_r.
      split; [reflexivity | exact Hlen].
  - exists (cur s), ""%string, []. unfold ret.
    rewrite append_nil_r, app_nil_r. destruct s. split; [reflexivity | exact Hlen].
Qed.

Lemma length_slot_read A E (s : state) :
  List.length (cur s) = sizeof_cur A ->
  List.length (cur (slot_read (sizeof_cur A) (avail E (sizeof_cur A) s)
                      (queried s))) = sizeof_cur A.
Proof.
  intros Hlen. cbn [cur slot_read queried].
  rewrite length_store; [exact Hlen | ].
  pose proof (length_avail E (sizeof_cur A) s). lia.
Qed.

(** One turn of the loop, whatever the file holds: it asks for the offset
    once, reads once, seeks at most once, and ends by leaving the loop, by
    going on or by a fatal exit with [EXIT_FAILURE]; the offset is never
    negative afterwards, the storage keeps its size, and both channels have
    only been appended to. *)
Theorem turn_discipline (A : abi) (E : env) (td : timespec) (s : state) :
  abi_ok A = true ->
  0 <= fd_off s ->
  List.length (cur s) = sizeof_cur A ->
  exists (s' : state) (text : string) (msgs : list string)
         (nread : Z) (seeks : list call),
    (iteration A E td s = Ok Break s'
     \/ iteration A E td s = Ok Continue s'
     \/ iteration A E td s = Exit EXIT_FAILURE s')
    /\ 0 <= fd_off s'
    /\ List.length (cur s') = sizeof_cur A
    /\ out s' = (out s ++ text)%string
    /\ err s' = (err s ++ msgs)%list
    /\ calls s' = (calls s ++ SysLseekCur 0 (fd_off s)
                     :: SysRead (sizeof_cur A) nread :: seeks)%list
    /\ (seeks = [] \/ exists offset r, seeks = [SysLseekCur offset r]).
Proof.
  intros Hok Hpos Hlen.
  destruct (read_error E (fd_off s)) eqn:Herr.
  { eexists _, ""%string, [_], (-1), [].
    split; [right; right; apply iteration_read_error; assumption | ].
    cbn [fd_off cur out err calls complain read_failed queried].
    rewrite append_nil_r, <- app_assoc.
    repeat split; auto. }
  destruct (avail E (sizeof_cur A) s) as [ | b chunk'] eqn:Hchunk.
  { eexists _, ""%string, [], 0, [].
    split; [left; apply iteration_eof; assumption | ].
    cbn [fd_off cur out err calls slot_read queried List.length store].
    rewrite append_nil_r, app_nil_r, <- app_assoc.
    repeat split; auto; try lia. }
  assert (Hne : avail E (sizeof_cur A) s <> []) by (rewrite Hchunk; discriminate).
  pose proof (iteration_record A E td s Hpos Herr Hne) as Hit.
  pose proof (length_slot_read A E s Hlen) as Hlen1.
  set (s1 := slot_read (sizeof_cur A) (avail E (sizeof_cur A) s) (queried s)) in *.
  destruct (valid_entry_total A (fd_off s) s1) as [v [diag Hval]].
  unfold bind at 1 in Hit. rewrite Hval in Hit.
  unfold bind at 1 in Hit. rewrite resync_cases in Hit.
  set (offset := get_u off_size sz_short (cur (emit s1 diag))
                 - Z.of_nat (sizeof_cur A)) in *.
  assert (Hc1 : calls s1 = (calls s ++ [SysLseekCur 0 (fd_off s);
                                        SysRead (sizeof_cur A)
                                          (Z.of_nat (List.length
                                             (avail E (sizeof_cur A) s)))])%list).
  { unfold s1. cbn [calls slot_read queried]. rewrite <- app_assoc. reflexivity. }
  assert (Hf1 : 0 <= fd_off s1)
    by (unfold s1; cbn [fd_off slot_read queried]; lia).
  destruct ((get_u off_size sz_short (cur (emit s1 diag)) =? 0)
            || (get_u off_size sz_short (cur (emit s1 diag))
                =? Z.of_nat (sizeof_cur A))).
  - destruct (show_entry_frame A E v (fd_off s) td (emit s1 diag) Hok Hlen1)
      as [r' [text [msgs [Hshow Hl]]]].
    rewrite Hshow in Hit.
    eexists _, (diag ++ text)%string, msgs, _, [].
    split; [right; left; exact Hit | ].
    cbn [fd_off cur out err calls emit]. rewrite Hc1, append_assoc.
    repeat split; auto.
  - destruct (Z.leb_spec 0 (fd_off (emit s1 diag) + offset)) as [Hs | Hs].
    + destruct (show_entry_frame A E v (fd_off s) td
                  (sought offset (emit s1 diag)) Hok Hlen1)
        as [r' [text [msgs [Hshow Hl]]]].
      rewrite Hshow in Hit.
      eexists _, (diag ++ text)%string, msgs, _, [_].
      split; [right; left; exact Hit | ].
      cbn [fd_off cur out err calls emit sought]. rewrite Hc1, append_assoc.
      rewrite <- app_assoc.
      repeat split; eauto.
    + eexists _, diag, [_], _, [_].
      split; [right; right; exact Hit | ].
      cbn [fd_off cur out err calls emit complain seek_refused].
      rewrite Hc1, <- app_assoc.
      repeat split; eauto.
Qed.

Lemma turn_discipline_witness :
  exists (s' : state) (text : string) (msgs : list string)
         (nread : Z) (seeks : list call),
    (iteration linux_amd64 (sample_env one_v1_file) one_hour
       (initial (sample_env one_v1_file)) = Ok Break s'
     \/ iteration linux_amd64 (sample_env one_v1_file) one_hour
          (initial (sample_env one_v1_file)) = Ok Continue s'
     \/ iteration linux_amd64 (sample_env one_v1_file) one_hour
          (initial (sample_env one_v1_file)) = Exit EXIT_FAILURE s')
    /\ 0 <= fd_off s'
    /\ List.length (cur s') = 56%nat
    /\ out s' = (out (initial (sample_env one_v1_file)) ++ text)%string
    /\ err s' = (err (initial (sample_env one_v1_file)) ++ msgs)%list
    /\ calls s' = (calls (initial (sample_env one_v1_file))
                   ++ SysLseekCur 0 0 :: SysRead 56 nread :: seeks)%list
    /\ (seeks = [] \/ exists offset r, seeks = [SysLseekCur offset r]).
Proof.
  apply (turn_discipline linux_amd64 (sample_env one_v1_file) one_hour
           (initial (sample_env one_v1_file)) eq_refl).
  - vm_compute. discriminate.
  - reflexivity.
Defined.

Lemma store_whole (bs m : list byte) :
  List.length bs = List.length m -> store 0 bs m = bs.
Proof.
  intros H. unfold store. cbn [firstn Nat.add app].
  rewrite skipn_all2 by lia. apply app_nil_r.
Qed.

Lemma get_u_nonneg (off n : nat) (m : list byte) : 0 <= get_u off n m.
Proof. unfold get_u. apply le_combine_bound. Qed.

(** After a read that delivered a full slot, a turn cannot fail and always
    moves the offset forward: by the declared size when that is neither
    zero nor the slot size, by one slot otherwise.  The Validator's verdict
    plays no part. *)
Theorem full_read_makes_progress (A : abi) (E : env) (td : timespec)
    (s : state) :
  abi_ok A = true ->
  0 <= fd_off s ->
  List.length (cur s) = sizeof_cur A ->
  read_error E (fd_off s) = false ->
  List.length (avail E (sizeof_cur A) s) = sizeof_cur A ->
  let size := get_u off_size sz_short (avail E (sizeof_cur A) s) in
  exists s' : state,
    iteration A E td s = Ok Continue s'
    /\ fd_off s'
       = fd_off s + (if (size =? 0) || (size =? Z.of_nat (sizeof_cur A))
                     then Z.of_nat (sizeof_cur A) else size)
    /\ fd_off s < fd_off s'.
Proof.
  intros Hok Hpos Hlen Herr Hfull size.
  destruct (abi_ok_layout A Hok) as [L _].
  assert (Hslot : (8 <= sizeof_cur A)%nat) by lia.
  assert (Hne : avail E (sizeof_cur A) s <> []).
  { intros Hnil. rewrite Hnil in Hfull. simpl in Hfull. lia. }
  pose proof (iteration_record A E td s Hpos Herr Hne) as Hit.
  pose proof (length_slot_read A E s Hlen) as Hlen1.
  set (s1 := slot_read (sizeof_cur A) (avail E (sizeof_cur A) s) (queried s)) in *.
  assert (Hcur1 : cur s1 = avail E (sizeof_cur A) s).
  { unfold s1. cbn [cur slot_read queried]. apply store_whole. lia. }
  assert (Hf1 : fd_off s1 = fd_off s + Z.of_nat (sizeof_cur A)).
  { unfold s1. cbn [fd_off slot_read queried]. rewrite Hfull. reflexivity. }
  destruct (valid_entry_total A (fd_off s) s1) as [v [diag Hval]].
  unfold bind at 1 in Hit. rewrite Hval in Hit.
  unfold bind at 1 in Hit. rewrite resync_cases in Hit.
  change (cur (emit s1 diag)) with (cur s1) in Hit.
  change (fd_off (emit s1 diag)) with (fd_off s1) in Hit.
  rewrite Hcur1 in Hit. fold size in Hit.
  pose proof (get_u_nonneg off_size sz_short (avail E (sizeof_cur A) s)) as Hs0.
  fold size in Hs0.
  destruct ((size =? 0) || (size =? Z.of_nat (sizeof_cur A))) eqn:Hguard.
  - destruct (show_entry_frame A E v (fd_off s) td (emit s1 diag) Hok Hlen1)
      as [r' [text [msgs [Hshow Hl]]]].
    rewrite Hshow in Hit. eexists. split; [exact Hit | ].
    cbn [fd_off emit]. rewrite Hf1. split; lia.
  - apply orb_false_iff in Hguard. destruct Hguard as [G0 G1].
    apply Z.eqb_neq in G0, G1.
    destruct (Z.leb_spec 0 (fd_off s1 + (size - Z.of_nat (sizeof_cur A))))
      as [Hs | Hs]; [ | lia].
    destruct (show_entry_frame A E v (fd_off s) td
                (sought (size - Z.of_nat (sizeof_cur A)) (emit s1 diag))
                Hok Hlen1) as [r' [text [msgs [Hshow Hl]]]].
    rewrite Hshow in Hit. eexists. split; [exact Hit | ].
    cbn [fd_off emit sought]. rewrite Hf1. split; lia.
Qed.

Lemma full_read_makes_progress_witness :
  exists s' : state,
    iteration linux_amd64 (sample_env v3_then_more) one_hour
      (initial (sample_env v3_then_more)) = Ok Continue s'
    /\ fd_off s' = 0 + 40
    /\ 0 < fd_off s'.
Proof.
  apply (full_read_makes_progress linux_amd64 (sample_env v3_then_more)
           one_hour (initial (sample_env v3_then_more)) eq_refl).
  - vm_compute. discriminate.
  - reflexivity.
  - reflexivity.
  - vm_compute. reflexivity.
Defined.

Lemma load_store_inside off bs m o n :
  (off <= List.length m)%nat -> (off <= o)%nat ->
  (o + n <= off + List.length bs)%nat ->
  load o n (store off bs m) = load (o - off) n bs.
Proof.
  intros Hoff Ho Hin. apply nth_error_ext. intros i.
  rewrite !nth_error_load.
  destruct (Nat.ltb_spec i n) as [Hi | Hi]; [ | reflexivity].
  rewrite nth_error_store by exact Hoff.
  destruct (Nat.ltb_spec (o + i) off); [lia | ].
  destruct (Nat.ltb_spec (o + i) (off + List.length bs)); [ | lia].
  f_equal. lia.
Qed.

(** The loop does not always end.  When the file stops inside a record
    whose header was read, and the bytes read and the declared size add up
    to one slot, the relative seek brings the offset back to the start of
    that record: every turn ends where it began, and the scan goes on for
    ever, whatever number of turns it is given. *)
Theorem truncated_record_loops (A : abi) (E : env) (td : timespec)
    (s : state) :
  abi_ok A = true ->
  0 <= fd_off s ->
  List.length (cur s) = sizeof_cur A ->
  read_error E (fd_off s) = false ->
  let chunk := avail E (sizeof_cur A) s in
  let size := get_u off_size sz_short chunk in
  (4 <= List.length chunk)%nat ->
  size <> 0 ->
  Z.of_nat (List.length chunk) + size = Z.of_nat (sizeof_cur A) ->
  forall fuel : nat, scan A E fuel td s = None.
Proof.
  intros Hok Hpos Hlen Herr chunk size H4 Hsz Hsum fuel.
  assert (Hgen : forall s' : state,
             fd_off s' = fd_off s -> List.length (cur s') = sizeof_cur A ->
             scan A E fuel td s' = None);
    [ | apply Hgen; [reflexivity | exact Hlen]].
  induction fuel as [ | fuel IH]; intros s' Hfd Hlen'; [reflexivity | ].
  assert (Hav : avail E (sizeof_cur A) s' = chunk)
    by (unfold chunk, avail; rewrite Hfd; reflexivity).
  assert (Hne : avail E (sizeof_cur A) s' <> []).
  { rewrite Hav. intros Hnil. rewrite Hnil in H4. simpl in H4. lia. }
  assert (Hpos' : 0 <= fd_off s') by lia.
  assert (Herr' : read_error E (fd_off s') = false) by (rewrite Hfd; exact Herr).
  pose proof (iteration_record A E td s' Hpos' Herr' Hne) as Hit.
  pose proof (length_slot_read A E s' Hlen') as Hlen1.
  rewrite Hav in Hit, Hlen1.
  set (s1 := slot_read (sizeof_cur A) chunk (queried s')) in *.
  destruct (valid_entry_total A (fd_off s') s1) as [v [diag Hval]].
  unfold bind at 1 in Hit. rewrite Hval in Hit.
  unfold bind at 1 in Hit. rewrite resync_cases in Hit.
  change (cur (emit s1 diag)) with (store 0 chunk (cur s')) in Hit.
  change (fd_off (emit s1 diag))
    with (fd_off s' + Z.of_nat (List.length chunk)) in Hit.
  assert (Hsize : get_u off_size sz_short (store 0 chunk (cur s')) = size).
  { unfold size, get_u, off_size, sz_short.
    rewrite load_store_inside by (simpl; lia). reflexivity. }
  rewrite Hsize in Hit.
  assert (G0 : (size =? 0) = false) by (apply Z.eqb_neq; exact Hsz).
  assert (G1 : (size =? Z.of_nat (sizeof_cur A)) = false)
    by (apply Z.eqb_neq; lia).
  rewrite G0, G1 in Hit. cbv [orb] in Hit.
  destruct (Z.leb_spec 0 (fd_off s' + Z.of_nat (List.length chunk)
                          + (size - Z.of_nat (sizeof_cur A)))) as [Hs | Hs];
    [ | lia].
  destruct (show_entry_frame A E v (fd_off s') td
              (sought (size - Z.of_nat (sizeof_cur A)) (emit s1 diag))
              Hok Hlen1) as [r' [text [msgs [Hshow Hl]]]].
  rewrite Hshow in Hit.
  cbn [scan]. rewrite Hit. apply IH.
  - cbn [fd_off sought emit s1 slot_read queried]. lia.
  - exact Hl.
Qed.

Lemma truncated_record_loops_witness :
  scan linux_amd64 (sample_env truncated_v1_file) 1000 one_hour
    (initial (sample_env truncated_v1_file)) = None.
Proof.
  apply (truncated_record_loops linux_amd64 (sample_env truncated_v1_file)
           one_hour (initial (sample_env truncated_v1_file)) eq_refl).
  - vm_compute. discriminate.
  - reflexivity.
  - reflexivity.
  - vm_compute. lia.
  - vm_compute. discriminate.
  - vm_compute. reflexivity.
Defined.

(** ** A file of complete records *)

Lemma load_app_l (o n : nat) (a b : list byte) :
  (o + n <= List.length a)%nat -> load o n (a ++ b) = load o n a.
Proof.
  intros H. apply nth_error_ext. intros i. rewrite !nth_error_load.
  destruct (Nat.ltb_spec i n) as [Hi | Hi]; [ | reflexivity].
  apply nth_error_app1. lia.
Qed.

Lemma avail_after (E : env) (n : nat) (s : state) (pre rest : list byte) :
  file E = (pre ++ rest)%list ->
  fd_off s = Z.of_nat (List.length pre) ->
  avail E n s = firstn n rest.
Proof.
  intros Hfile Hfd. unfold avail, load. rewrite Hfile, Hfd, Nat2Z.id.
  rewrite skipn_app, skipn_all, Nat.sub_diag. reflexivity.
Qed.

Section Records.

Context (A : abi) (E : env) (Hok : abi_ok A = true).

Lemma complete_record_cases (r : list byte) :
  complete_record A r = true ->
  (get_u off_version sz_short r = 1
   /\ get_u off_size sz_short r = Z.of_nat (sizeof_v1 A)
   /\ List.length r = sizeof_v1 A)
  \/ (get_u off_version sz_short r = 2
      /\ get_u off_size sz_short r = Z.of_nat (sizeof_v2 A)
      /\ List.length r = sizeof_v2 A).
Proof.
  unfold complete_record. intros H. apply orb_prop in H.
  destruct H as [H | H]; [left | right];
    apply andb_prop in H; destruct H as [H H3];
    apply andb_prop in H; destruct H as [H1 H2];
    apply Z.eqb_eq in H1, H2; apply Nat.eqb_eq in H3; auto.
Qed.

Lemma get_timespec_app_l (off : nat) (a b : list byte) :
  (off + sz_timespec A <= List.length a)%nat ->
  get_timespec A off (a ++ b) = get_timespec A off a.
Proof.
  intros H. destruct (abi_ok_layout A Hok) as [L _].
  unfold get_timespec, get_s, get_u. rewrite !load_app_l by lia. reflexivity.
Qed.

Lemma get_u_app_l (o n : nat) (a b : list byte) :
  (o + n <= List.length a)%nat -> get_u o n (a ++ b) = get_u o n a.
Proof. intros H. unfold get_u. rewrite load_app_l by exact H. reflexivity. Qed.

(** What a complete record decodes to does not depend on the bytes that
    follow it in the slot. *)
Lemma converted_app_l (td : timespec) (r x : list byte) :
  complete_record A r = true ->
  converted A td (r ++ x) = converted A td r.
Proof.
  intros Hc. destruct (abi_ok_layout A Hok) as [L _].
  apply complete_record_cases in Hc.
  unfold converted.
  destruct Hc as [[Hv [_ Hl]] | [Hv [_ Hl]]];
    rewrite (get_u_app_l off_version sz_short)
      by (unfold off_version, sz_short; lia);
    rewrite Hv; cbn [Z.eqb Pos.eqb]; f_equal.
  - unfold decode_v1, scope_at, get_s, get_u.
    rewrite ?get_timespec_app_l by lia.
    rewrite !load_app_l
      by (unfold off_version, off_size, off_type, off_flags, sz_short; lia).
    reflexivity.
  - unfold decode_v2, scope_at, get_s, get_u.
    rewrite ?get_timespec_app_l by lia.
    rewrite !load_app_l
      by (unfold off_version, off_size, off_type, off_flags, sz_short; lia).
    reflexivity.
Qed.

(** The scan of what is left of a file of complete records. *)
Lemma scan_complete_records (td : timespec) (rs : list (list byte)) :
  (forall p, read_error E p = false) ->
  forallb (complete_record A) rs = true ->
  followed A rs = true ->
  forall (pre : list byte) (s : state),
    file E = (pre ++ List.concat rs)%list ->
    fd_off s = Z.of_nat (List.length pre) ->
    List.length (cur s) = sizeof_cur A ->
    exists s' : state,
      scan A E (S (List.length rs)) td s = Some (Ok tt s')
      /\ out s' = (out s ++ blocks A E td (fd_off s) rs)%string
      /\ err s' = err s
      /\ fd_off s' = Z.of_nat (List.length (file E)).
Proof.
  intros Hnoerr. destruct (abi_ok_layout A Hok) as [L _].
  induction rs as [ | r rest IH]; intros Hall Hfol pre s Hfile Hfd Hlen.
  - assert (Hav : avail E (sizeof_cur A) s = []).
    { rewrite (avail_after E _ s pre []) by assumption. apply firstn_nil. }
    exists (slot_read (sizeof_cur A) [] (queried s)).
    cbn [scan List.length].
    rewrite iteration_eof by (auto; lia).
    cbn [out err fd_off slot_read queried blocks List.length].
    rewrite append_nil_r, Hfile, Hfd. cbn [List.concat]. rewrite app_nil_r.
    repeat split; auto. lia.
  - cbn [forallb] in Hall. apply andb_prop in Hall. destruct Hall as [Hc Hall].
    cbn [followed] in Hfol. apply andb_prop in Hfol. destruct Hfol as [Hf Hfol].
    apply Nat.leb_le in Hf.
    pose proof (complete_record_cases r Hc) as Hcases.
    assert (Hrlen : (8 <= List.length r <= sizeof_cur A)%nat)
      by (destruct Hcases as [[_ [_ Hl]] | [_ [_ Hl]]]; lia).
    set (x := firstn (sizeof_cur A - List.length r) (List.concat rest)).
    assert (Hav : avail E (sizeof_cur A) s = (r ++ x)%list).
    { rewrite (avail_after E _ s pre (List.concat (r :: rest))) by assumption.
      cbn [List.concat]. rewrite firstn_app.
      rewrite firstn_all2 by lia. reflexivity. }
    assert (Hfull : List.length (r ++ x) = sizeof_cur A).
    { rewrite <- Hav. unfold avail, load. rewrite length_firstn.
      rewrite Hfile, Hfd, Nat2Z.id, skipn_app, skipn_all, Nat.sub_diag.
      cbn [skipn app List.concat]. lia. }
    assert (Hpos : 0 <= fd_off s) by lia.
    assert (Hne : avail E (sizeof_cur A) s <> []).
    { rewrite Hav. intros Hnil. rewrite Hnil in Hfull. simpl in Hfull. lia. }
    pose proof (iteration_record A E td s Hpos (Hnoerr _) Hne) as Hit.
    rewrite Hav in Hit.
    set (s1 := slot_read (sizeof_cur A) (r ++ x) (queried s)) in *.
    assert (Hcur1 : cur s1 = (r ++ x)%list).
    { unfold s1. cbn [cur slot_read queried]. apply store_whole. lia. }
    assert (Hf1 : fd_off s1 = fd_off s + Z.of_nat (sizeof_cur A)).
    { unfold s1. cbn [fd_off slot_read queried]. rewrite Hfull. reflexivity. }
    assert (Hhdr : get_u off_version sz_short (cur s1)
                   = get_u off_version sz_short r
                   /\ get_u off_size sz_short (cur s1)
                      = get_u off_size sz_short r).
    { rewrite Hcur1.
      split; apply get_u_app_l; unfold off_version, off_size, sz_short; lia. }
    destruct Hhdr as [Hver Hsize].
    assert (Hval : valid_entry A (fd_off s) s1 = Ok true s1).
    { apply valid_entry_accepts. rewrite Hver, Hsize.
      destruct Hcases as [[Hv [Hs _]] | [Hv [Hs _]]]; auto. }
    unfold bind at 1 in Hit. rewrite Hval in Hit.
    assert (Hres : resync A s1
                   = Ok tt {| fd_off := fd_off s + Z.of_nat (List.length r);
                              cur := cur s1; out := out s1; err := err s1;
                              calls := calls
                                         (if List.length r =? sizeof_cur A
                                          then s1
                                          else sought
                                                 (Z.of_nat (List.length r)
                                                  - Z.of_nat (sizeof_cur A))
                                                 s1)%nat |}).
    { rewrite resync_cases, Hsize.
      destruct Hcases as [[_ [Hs Hl]] | [_ [Hs Hl]]]; rewrite Hs, <- Hl.
      - assert (G0 : (Z.of_nat (List.length r) =? 0) = false)
          by (apply Z.eqb_neq; lia).
        assert (G1 : (Z.of_nat (List.length r) =? Z.of_nat (sizeof_cur A))
                     = false) by (apply Z.eqb_neq; lia).
        assert (G2 : (List.length r =? sizeof_cur A)%nat = false)
          by (apply Nat.eqb_neq; lia).
        rewrite G0, G1, G2. cbv [orb].
        destruct (Z.leb_spec 0 (fd_off s1 + (Z.of_nat (List.length r)
                                             - Z.of_nat (sizeof_cur A))));
          [ | lia].
        unfold sought. cbn [calls]. do 2 f_equal. lia.
      - assert (G1 : (Z.of_nat (List.length r) =? Z.of_nat (sizeof_cur A))
                     = true) by (apply Z.eqb_eq; lia).
        assert (G2 : (List.length r =? sizeof_cur A)%nat = true)
          by (apply Nat.eqb_eq; lia).
        rewrite G1, G2, orb_true_r. destruct s1 as [f c o e k].
        cbn [fd_off cur out err calls] in *. do 2 f_equal. lia. }
    unfold bind at 1 in Hit. rewrite Hres in Hit.
    match type of Hres with _ = Ok tt ?st => set (s2 := st) in * end.
    assert (Hlen2 : List.length (cur s2) = sizeof_cur A)
      by (unfold s2; cbn [cur]; rewrite Hcur1; exact Hfull).
    assert (Hknown : get_u off_version sz_short (cur s2) = 1
                     \/ get_u off_version sz_short (cur s2) = TS_VERSION).
    { unfold s2. cbn [cur]. rewrite Hver. unfold TS_VERSION.
      destruct Hcases as [[Hv _] | [Hv _]]; auto. }
    destruct (convert_entry_decoded A Hok td s2 Hlen2 Hknown)
      as [r' [Hconv [Hl' Hd]]].
    unfold show_entry, bind at 1 in Hit. rewrite Hconv in Hit. cbv [negb] in Hit.
    unfold bind in Hit. rewrite dump_entry_emits in Hit by exact Hok.
    cbn [ret] in Hit.
    change (cur (with_cur s2 r')) with r' in Hit.
    rewrite Hd in Hit. unfold s2 in Hit at 2. cbn [cur] in Hit.
    rewrite Hcur1, converted_app_l in Hit by exact Hc.
    unfold ret in Hit.
    match type of Hit with _ = Ok Continue ?st => set (s3 := st) in * end.
    destruct (IH Hall Hfol (pre ++ r)%list s3) as [s' [Hscan [Hout [Herr Hend]]]].
    + rewrite Hfile. cbn [List.concat]. apply app_assoc.
    + unfold s3, s2. cbn [fd_off emit with_cur]. rewrite length_app. lia.
    + unfold s3. cbn [cur emit with_cur]. exact Hl'.
    + exists s'. cbn [scan List.length]. rewrite Hit.
      split; [exact Hscan | ].
      split; [ | split; [ | exact Hend]].
      * rewrite Hout. unfold s3, s2, s1.
        cbn [out fd_off emit with_cur slot_read queried blocks].
        rewrite append_assoc. reflexivity.
      * rewrite Herr. reflexivity.
Qed.

End Records.

(** A file that is a sequence of complete records of either version, each
    followed by enough bytes for the read at its start to fill the slot, is
    dumped record by record: the run ends after one turn per record and one
    more, with exit status 0, the blocks of the records in file order on
    standard output (a version 1 record migrated, every time stamp
    normalized), nothing on the error channel and the offset at the end of
    the file. *)
Theorem complete_records_are_dumped (A : abi) (E : env) (now mono : timespec)
    (rs : list (list byte)) :
  abi_ok A = true ->
  List.length (stack E) = sizeof_cur A ->
  gettime_real E = Some now ->
  gettime_mono E = Some mono ->
  open_fails E = false ->
  (forall p : Z, read_error E p = false) ->
  file E = List.concat rs ->
  forallb (complete_record A) rs = true ->
  followed A rs = true ->
  exists s' : state,
    main A E (S (List.length rs)) = Some (0, s')
    /\ out s' = blocks A E (sudo_timespecsub now mono) 0 rs
    /\ err s' = []
    /\ fd_off s' = Z.of_nat (List.length (file E)).
Proof.
  intros Hok Hstack Hreal Hmono Hopen Hnoerr Hfile Hall Hfol.
  destruct (scan_complete_records A E Hok (sudo_timespecsub now mono) rs
              Hnoerr Hall Hfol [] (initial E))
    as [s' [Hscan [Hout [Herr Hend]]]]; try reflexivity; try assumption.
  exists s'. unfold main. rewrite Hreal, Hmono, Hopen, Hscan.
  repeat split; assumption.
Qed.

Lemma complete_records_are_dumped_witness :
  exists s' : state,
    main linux_amd64 (sample_env (List.concat three_records)) 4 = Some (0, s')
    /\ out s' = blocks linux_amd64 (sample_env (List.concat three_records))
                  (sudo_timespecsub {| tv_sec := 1540000000; tv_nsec := 500 |}
                     {| tv_sec := 1000; tv_nsec := 0 |}) 0 three_records
    /\ err s' = []
    /\ fd_off s' = 152.
Proof.
  apply (complete_records_are_dumped linux_amd64
           (sample_env (List.concat three_records))
           {| tv_sec := 1540000000; tv_nsec := 500 |}
           {| tv_sec := 1000; tv_nsec := 0 |} three_records);
    try reflexivity.
Defined.

(** * Further properties of the Validator, the Migrator and the Renderer *)

(** The Validator reads the version and the size and nothing else: two
    slots that agree on these two fields get the same verdict and the same
    diagnostic, whatever their type, flags and payload are. *)
Theorem validator_reads_header_only (A : abi) (pos : Z) (s1 s2 : state) :
  get_u off_version sz_short (cur s1) = get_u off_version sz_short (cur s2) ->
  get_u off_size sz_short (cur s1) = get_u off_size sz_short (cur s2) ->
  exists (v : bool) (diag : string),
    valid_entry A pos s1 = Ok v (emit s1 diag)
    /\ valid_entry A pos s2 = Ok v (emit s2 diag).
Proof.
  intros Hv Hs.
  cbv [valid_entry bind rd ret printf]. fold (emit s1). fold (emit s2).
  rewrite Hv.
  destruct (get_u off_version sz_short (cur s2) =? 1);
    [ | destruct (get_u off_version sz_short (cur s2) =? 2)];
    rewrite ?Hs;
    repeat match goal with
           | |- context [if ?b then _ else _] => destruct b
           end;
    try (eexists; eexists; split; reflexivity);
    exists true, ""%string; rewrite !emit_nil; split; reflexivity.
Qed.

Lemma validator_reads_header_only_witness :
  exists (v : bool) (diag : string),
    valid_entry linux_amd64 0 (state_of (sample_v2 linux_amd64))
    = Ok v (emit (state_of (sample_v2 linux_amd64)) diag)
    /\ valid_entry linux_amd64 0
         (state_of (mk_v2 linux_amd64 9 7 0 0 timespec_zero timespec_zero 1))
       = Ok v (emit (state_of (mk_v2 linux_amd64 9 7 0 0 timespec_zero
                                 timespec_zero 1)) diag).
Proof.
  apply (validator_reads_header_only linux_amd64 0); vm_compute; reflexivity.
Defined.

(** Migration leaves the header alone, so a version 1 record is still shown
    as one: after [convert_entry] the block printed for a valid version 1
    record starts with its offset, "version: 1" and the size of the v1
    layout. *)
Theorem migrated_record_shows_v1 (A : abi) (E : env) (td : timespec)
    (pos : Z) (s : state) :
  abi_ok A = true ->
  List.length (cur s) = sizeof_cur A ->
  get_u off_version sz_short (cur s) = 1 ->
  get_u off_size sz_short (cur s) = Z.of_nat (sizeof_v1 A) ->
  exists (s' : state) (rest : string),
    show_entry A E true pos td s = Ok Continue s'
    /\ get_u off_version sz_short (cur s') = 1
    /\ get_u off_size sz_short (cur s') = Z.of_nat (sizeof_v1 A)
    /\ out s' = (out s ++ "position: " ++ dec pos ++ nl
                 ++ "version: " ++ dec 1 ++ nl
                 ++ "size: " ++ dec (Z.of_nat (sizeof_v1 A)) ++ nl
                 ++ rest)%string.
Proof.
  intros Hok Hlen Hv Hs.
  destruct (convert_entry_decoded A Hok td s Hlen (or_introl Hv))
    as [r' [Hc [Hl Hd]]].
  assert (Hver : e_version (decode_v2 A r') = 1).
  { rewrite Hd. unfold converted. rewrite Hv. cbn. exact Hv. }
  assert (Hsize : e_size (decode_v2 A r') = Z.of_nat (sizeof_v1 A)).
  { rewrite Hd. unfold converted. rewrite Hv. cbn. exact Hs. }
  eexists (emit (with_cur s r') _), _.
  split.
  { unfold show_entry, bind at 1. rewrite Hc. cbv [negb].
    unfold bind. rewrite dump_entry_emits by exact Hok. reflexivity. }
  split; [exact Hver | ]. split; [exact Hsize | ].
  cbn [out emit with_cur cur].
  unfold render. rewrite Hver, Hsize.
  rewrite concat_empty_app, !concat_empty_cons, !append_assoc.
  reflexivity.
Qed.

Lemma migrated_record_shows_v1_witness :
  exists (s' : state) (rest : string),
    show_entry linux_amd64 (sample_env []) true 0 one_hour state_v1
    = Ok Continue s'
    /\ get_u off_version sz_short (cur s') = 1
    /\ get_u off_size sz_short (cur s') = 40
    /\ out s' = (out state_v1 ++ "position: " ++ dec 0 ++ nl
                 ++ "version: " ++ dec 1 ++ nl
                 ++ "size: " ++ dec 40 ++ nl ++ rest)%string.
Proof.
  apply (migrated_record_shows_v1 linux_amd64 (sample_env []) one_hour 0
           state_v1 eq_refl eq_refl); vm_compute; reflexivity.
Defined.

(** ** The printed names *)

Lemma hex_inj (a b : Z) : 0 <= a -> 0 <= b -> hex a = hex b -> a = b.
Proof.
  intros Ha Hb H. unfold hex in H.
  assert (Hnn : forall n : N, N.to_hex_uint n <> Hexadecimal.Nil).
  { intros [ | p]; [discriminate | apply HexadecimalPos.Unsigned.to_uint_nonnil]. }
  pose proof (HexadecimalString.NilZero.usu _ (Hnn (Z.to_N a))) as Ua.
  pose proof (HexadecimalString.NilZero.usu _ (Hnn (Z.to_N b))) as Ub.
  rewrite H, Ub in Ua. injection Ua as Ua.
  apply HexadecimalN.Unsigned.to_uint_inj in Ua. lia.
Qed.

Lemma append_inj_l (a b c : string) : (a ++ b)%string = (a ++ c)%string -> b = c.
Proof.
  induction a as [ | x a IH]; simpl; intros H; [exact H | ].
  injection H as H. exact (IH H).
Qed.

Lemma append_inj_r (a b c : string) :
  (a ++ c)%string = (b ++ c)%string -> a = b.
Proof.
  revert b. induction a as [ | x a IH]; intros [ | y b] H; simpl in H.
  - reflexivity.
  - exfalso. apply (f_equal String.length) in H. simpl in H.
    assert (L : forall u v, String.length (u ++ v) = (String.length u + String.length v)%nat).
    { clear. induction u; simpl; intros; [reflexivity | rewrite IHu; reflexivity]. }
    rewrite L in H. lia.
  - exfalso. apply (f_equal String.length) in H. simpl in H.
    assert (L : forall u v, String.length (u ++ v) = (String.length u + String.length v)%nat).
    { clear. induction u; simpl; intros; [reflexivity | rewrite IHu; reflexivity]. }
    rewrite L in H. lia.
  - injection H as Hx H. subst y. f_equal. apply IH. exact H.
Qed.

(** The name printed for a type tells the type: two different type codes
    (as the 16-bit field holds them, that is, not negative) never get the
    same name, recognized or not. *)
Theorem type2string_injective (A : abi) (t1 t2 : Z) :
  0 <= t1 -> 0 <= t2 -> t1 <> t2 ->
  type2string A t1 <> type2string A t2.
Proof.
  intros H1 H2 Hne.
  unfold type2string.
  destruct (Z.eqb_spec t1 (TS_LOCKEXCL A)), (Z.eqb_spec t2 (TS_LOCKEXCL A));
    try congruence; try discriminate;
    destruct (Z.eqb_spec t1 (TS_GLOBAL A)), (Z.eqb_spec t2 (TS_GLOBAL A));
    try congruence; try discriminate;
    destruct (Z.eqb_spec t1 (TS_TTY A)), (Z.eqb_spec t2 (TS_TTY A));
    try congruence; try discriminate;
    destruct (Z.eqb_spec t1 (TS_PPID A)), (Z.eqb_spec t2 (TS_PPID A));
    try congruence; try discriminate.
  intros H. apply (append_inj_l "UNKNOWN (0x") in H.
  apply append_inj_r in H. apply Hne. apply hex_inj; assumption.
Qed.

Lemma type2string_injective_witness :
  type2string linux_amd64 5 <> type2string linux_amd64 21.
Proof.
  apply (type2string_injective linux_amd64 5 21); lia.
Defined.

(** ** The flags line *)

Lemma no_bits_left (f d a : Z) :
  Z.land f d = 0 -> Z.land f a = 0 -> Z.ldiff f (Z.lor d a) = 0 -> f = 0.
Proof.
  intros Hd Ha Hr. apply Z.bits_inj'. intros n _. rewrite Z.bits_0.
  pose proof (land_0_bits f d n Hd) as Bd.
  pose proof (land_0_bits f a n Ha) as Ba.
  apply (f_equal (fun z => Z.testbit z n)) in Hr.
  rewrite Z.ldiff_spec, Z.lor_spec, Z.bits_0 in Hr.
  destruct (Z.testbit f n), (Z.testbit d n), (Z.testbit a n);
    simpl in *; congruence.
Qed.

(** [print_flags] prints the bare label, with nothing after it, exactly
    when no bit of the flags is set. *)
Theorem print_flags_bare_label (A : abi) (flags : Z) (s : state) :
  abi_ok A = true ->
  (print_flags A flags s = Ok tt (emit s ("flags: " ++ nl)) <-> flags = 0).
Proof.
  intros Hok. rewrite print_flags_line by exact Hok. split.
  - intros H. injection H as H. apply append_inj_l in H.
    unfold flags_line in H. apply (append_inj_l "flags: ") in H.
    change nl with ("" ++ nl)%string in H at 2.
    apply append_inj_r in H. unfold flag_names, ISSET in H.
    destruct (Z.eqb_spec (Z.land flags (TS_DISABLED A)) 0) as [D | D];
      cbv [negb] in H;
      [ | destruct (Z.land flags (TS_ANYUID A) =? 0);
          destruct (residual A flags =? 0); cbn in H; discriminate H].
    destruct (Z.eqb_spec (Z.land flags (TS_ANYUID A)) 0) as [N | N];
      cbv [negb] in H;
      [ | destruct (residual A flags =? 0); cbn in H; discriminate H].
    destruct (Z.eqb_spec (residual A flags) 0) as [R | R];
      [ | cbn in H; discriminate H].
    exact (no_bits_left flags _ _ D N R).
  - intros ->. reflexivity.
Qed.

Lemma print_flags_bare_label_witness :
  print_flags linux_amd64 0 state_v3
  = Ok tt (emit state_v3 ("flags: " ++ nl)).
Proof.
  apply (print_flags_bare_label linux_amd64 0 state_v3 eq_refl). reflexivity.
Defined.

(** ** The bytes [convert_entry] writes *)

(** On a record of the current version [convert_entry] writes into the two
    [struct timespec] fields only: every other range of the storage, the
    header, the identity fields, the scope value and any padding, holds
    afterwards the bytes it held before. *)
Theorem convert_entry_writes_times_only (A : abi) (off : timespec)
    (s : state) :
  abi_ok A = true ->
  List.length (cur s) = sizeof_cur A ->
  get_u off_version sz_short (cur s) = TS_VERSION ->
  exists r' : list byte,
    convert_entry A off s = Ok true (with_cur s r')
    /\ List.length r' = List.length (cur s)
    /\ forall o n : nat,
         (o + n <= v2_start_time A
          \/ (v2_start_time A + sz_timespec A <= o /\ o + n <= v2_ts A)
          \/ v2_ts A + sz_timespec A <= o)%nat ->
         load o n r' = load o n (cur s).
Proof.
  intros Hok Hlen V.
  destruct (abi_ok_layout A Hok) as [L _].
  rewrite convert_entry_current by exact V.
  set (m := cur s) in *.
  set (st := get_timespec A (v2_start_time A) m).
  set (r1 := if linux A then
               if sudo_timespecisset st then
                 put_timespec A (v2_start_time A) (sudo_timespecadd st off) m
               else m
             else m).
  set (ts := get_timespec A (v2_ts A) r1).
  set (r2 := if sudo_timespecisset ts then
               put_timespec A (v2_ts A) (sudo_timespecadd ts off) r1
             else r1).
  exists r2.
  assert (Heq : convert_entry_adjust A off s = Ok true (with_cur s r2)).
  { unfold r2, ts, r1, st, m. clear.
    cbv [convert_entry_adjust bind rd wr ret with_cur].
    destruct (linux A);
      [destruct (sudo_timespecisset (get_timespec A (v2_start_time A) (cur s)))
      | ];
      cbn [cur fd_off out err calls];
      destruct (sudo_timespecisset _); try reflexivity;
      destruct s; reflexivity. }
  assert (L1 : List.length r1 = List.length m).
  { unfold r1. destruct (linux A); [ | reflexivity].
    destruct (sudo_timespecisset st); [ | reflexivity].
    apply length_put_timespec; lia. }
  split; [exact Heq | ]. split.
  { unfold r2. destruct (sudo_timespecisset ts); [ | exact L1].
    rewrite length_put_timespec; lia. }
  intros o n Hon.
  transitivity (load o n r1).
  - unfold r2. destruct (sudo_timespecisset ts); [ | reflexivity].
    apply load_put_timespec_other; lia.
  - unfold r1. destruct (linux A); [ | reflexivity].
    destruct (sudo_timespecisset st); [ | reflexivity].
    apply load_put_timespec_other; lia.
Qed.

Lemma convert_entry_writes_times_only_witness :
  exists r' : list byte,
    convert_entry linux_amd64 one_hour (state_of (sample_v2 linux_amd64))
    = Ok true (with_cur (state_of (sample_v2 linux_amd64)) r')
    /\ List.length r' = 56%nat
    /\ forall o n : nat,
         (o + n <= 16 \/ (16 + 16 <= o /\ o + n <= 32) \/ 32 + 16 <= o)%nat ->
         load o n r' = load o n (sample_v2 linux_amd64).
Proof.
  apply (convert_entry_writes_times_only linux_amd64 one_hour
           (state_of (sample_v2 linux_amd64)) eq_refl eq_refl eq_refl).
Defined.

(** * The command line *)

Lemma getopt_loop_known (C : cmdline) (opts : list (ascii * string))
    (fname user : option string) (s : state) :
  forallb known_option opts = true ->
  getopt_loop C opts fname user s
  = Ok (last_option "f" opts fname, last_option "u" opts user) s.
Proof.
  revert fname user. induction opts as [ | [c arg] rest IH];
    intros fname user Hall; [reflexivity | ].
  cbn [forallb] in Hall. apply andb_prop in Hall. destruct Hall as [Hk Hall].
  unfold known_option in Hk. cbn [fst] in Hk.
  cbn [getopt_loop last_option].
  destruct (Ascii.eqb_spec c "f") as [-> | Hf].
  - rewrite IH by exact Hall. reflexivity.
  - destruct (Ascii.eqb_spec c "u") as [-> | Hu]; [ | discriminate Hk].
    rewrite IH by exact Hall. reflexivity.
Qed.

Lemma getopt_loop_unknown (C : cmdline) (pre post : list (ascii * string))
    (c : ascii) (arg : string) (fname user : option string) (s : state) :
  forallb known_option pre = true ->
  known_option (c, arg) = false ->
  getopt_loop C (pre ++ (c, arg) :: post) fname user s = usage C s.
Proof.
  revert fname user. induction pre as [ | [c' arg'] pre IH];
    intros fname user Hall Hbad.
  - unfold known_option in Hbad. cbn [fst] in Hbad.
    apply orb_false_iff in Hbad. destruct Hbad as [Hf Hu].
    cbn [app getopt_loop]. rewrite Hf, Hu. reflexivity.
  - cbn [forallb] in Hall. apply andb_prop in Hall. destruct Hall as [Hk Hall].
    unfold known_option in Hk. cbn [fst] in Hk.
    cbn [app getopt_loop].
    destruct (Ascii.eqb c' "f") eqn:Ef; [apply IH; assumption | ].
    destruct (Ascii.eqb c' "u") eqn:Eu; [apply IH; assumption | ].
    discriminate Hk.
Qed.

Lemma last_option_found (ch : ascii) (opts : list (ascii * string))
    (found : option string) :
  existsb (fun o => Ascii.eqb (fst o) ch) opts = true ->
  exists arg : string, last_option ch opts found = Some arg.
Proof.
  revert found. induction opts as [ | [c arg] rest IH]; intros found Hex;
    [discriminate Hex | ].
  cbn [existsb fst] in Hex. cbn [last_option].
  destruct (existsb (fun o => Ascii.eqb (fst o) ch) rest) eqn:Hrest.
  - apply IH. reflexivity.
  - rewrite orb_false_r in Hex. rewrite Hex. clear IH Hex.
    revert arg. induction rest as [ | [c' arg'] rest IH]; intros arg0.
    + exists arg0. reflexivity.
    + cbn [existsb fst] in Hrest. apply orb_false_iff in Hrest.
      destruct Hrest as [Hc Hrest]. cbn [last_option]. rewrite Hc.
      apply IH. exact Hrest.
Qed.

(** Giving both [-f] and [-u], in any order and any number of times, is a
    usage error: the run ends with exit status 1 after a warning and the
    usage line on the error channel, before a clock is read or a file
    opened. *)
Theorem both_flags_are_refused (A : abi) (C : cmdline) (W : world)
    (fuel : nat) :
  conf_read_fails C = false ->
  forallb known_option (options C) = true ->
  existsb (fun o => Ascii.eqb (fst o) "f") (options C) = true ->
  existsb (fun o => Ascii.eqb (fst o) "u") (options C) = true ->
  tsdump A C W fuel
  = Some (1, {| fd_off := 0; cur := w_stack W; out := "";
                err := ["the -f and -u flags are mutually exclusive"%string;
                        ("usage: " ++ progname C
                         ++ " [-f timestamp_file] | [-u username]"
                         ++ nl)%string];
                calls := [] |}).
Proof.
  intros Hconf Hall Hf Hu. unfold tsdump. rewrite Hconf.
  rewrite getopt_loop_known by exact Hall.
  destruct (last_option_found "f" (options C) None Hf) as [f Ef].
  destruct (last_option_found "u" (options C) None Hu) as [u Eu].
  rewrite Ef, Eu. reflexivity.
Qed.

Lemma both_flags_are_refused_witness :
  tsdump linux_amd64
    (sample_cmdline [("u"%char, "root"%string); ("f"%char, "ts"%string);
                     ("u"%char, "millert"%string)]) sample_world 5
  = Some (1, {| fd_off := 0; cur := zeros 56; out := "";
                err := ["the -f and -u flags are mutually exclusive"%string;
                        ("usage: tsdump [-f timestamp_file] | [-u username]"
                         ++ nl)%string];
                calls := [] |}).
Proof.
  apply (both_flags_are_refused linux_amd64
           (sample_cmdline [("u"%char, "root"%string); ("f"%char, "ts"%string);
                            ("u"%char, "millert"%string)]) sample_world 5);
    reflexivity.
Defined.

(** The first option [getopt] reports that is neither [f] nor [u] ends the
    run at once with exit status 1, whatever options came before it (even
    both [-f] and [-u]: the warning about them is not reached) and whatever
    comes after it.  Of the program's own output there is the usage line
    only. *)
Theorem unknown_option_is_refused (A : abi) (C : cmdline) (W : world)
    (fuel : nat) (pre post : list (ascii * string)) (c : ascii)
    (arg : string) :
  conf_read_fails C = false ->
  options C = (pre ++ (c, arg) :: post)%list ->
  forallb known_option pre = true ->
  c <> "f"%char -> c <> "u"%char ->
  tsdump A C W fuel
  = Some (1, {| fd_off := 0; cur := w_stack W; out := "";
                err := [("usage: " ++ progname C
                         ++ " [-f timestamp_file] | [-u username]"
                         ++ nl)%string];
                calls := [] |}).
Proof.
  intros Hconf Hopts Hall Hf Hu. unfold tsdump. rewrite Hconf, Hopts.
  rewrite getopt_loop_unknown; [reflexivity | exact Hall | ].
  unfold known_option. cbn [fst]. apply orb_false_iff.
  split; apply Ascii.eqb_neq; assumption.
Qed.

Lemma unknown_option_is_refused_witness :
  tsdump linux_amd64
    (sample_cmdline [("u"%char, "root"%string); ("f"%char, "ts"%string);
                     ("?"%char, ""%string); ("f"%char, "other"%string)])
    sample_world 5
  = Some (1, {| fd_off := 0; cur := zeros 56; out := "";
                err := [("usage: tsdump [-f timestamp_file] | [-u username]"
                         ++ nl)%string];
                calls := [] |}).
Proof.
  apply (unknown_option_is_refused linux_amd64
           (sample_cmdline [("u"%char, "root"%string); ("f"%char, "ts"%string);
                            ("?"%char, ""%string); ("f"%char, "other"%string)])
           sample_world 5
           [("u"%char, "root"%string); ("f"%char, "ts"%string)]
           [("f"%char, "other"%string)] "?"%char ""%string);
    try reflexivity; discriminate.
Defined.

(** The file that is dumped.  With a usable command line (known options,
    not both [-f] and [-u]) the run is the run of the scan over the file
    [chosen_path] names: the argument of the last [-f] as it is, without
    the password database or the time stamp directory being looked at;
    otherwise the time stamp directory joined to the argument of the last
    [-u] or, with no option at all, to the name of the effective uid. *)
Theorem tsdump_dumps_chosen_file (A : abi) (C : cmdline) (W : world)
    (fuel : nat) (path : string) :
  conf_read_fails C = false ->
  forallb known_option (options C) = true ->
  last_option "f" (options C) None = None
  \/ last_option "u" (options C) None = None ->
  last_option "f" (options C) None <> None \/ asprintf_fails C = false ->
  chosen_path C = Some path ->
  tsdump A C W fuel = main A (env_at W path) fuel.
Proof.
  intros Hconf Hall Hnot Hmem Hpath. unfold tsdump, chosen_path in *.
  rewrite Hconf. rewrite getopt_loop_known by exact Hall.
  unfold main, env_at. cbn [gettime_real gettime_mono open_fails fname].
  destruct (last_option "f" (options C) None) as [f | ].
  - injection Hpath as ->.
    destruct (last_option "u" (options C) None) as [u | ];
      [destruct Hnot; discriminate | ].
    destruct (w_real W); [ | reflexivity].
    destruct (w_mono W); [ | reflexivity].
    cbv [timestamp_path ret].
    destruct (w_open W path); reflexivity.
  - destruct Hmem as [Hmem | Hmem]; [congruence | ].
    destruct (last_option "u" (options C) None) as [u | ].
    + injection Hpath as Hpath.
      destruct (w_real W); [ | reflexivity].
      destruct (w_mono W); [ | reflexivity].
      unfold timestamp_path, bind, ret. rewrite Hmem.
      change (timedir C ++ "/" ++ u)%string
        with (timedir C ++ String "/" u)%string.
      rewrite Hpath.
      destruct (w_open W path); reflexivity.
    + destruct (euid_name C) as [name | ] eqn:Hname; [ | discriminate].
      injection Hpath as Hpath.
      destruct (w_real W); [ | reflexivity].
      destruct (w_mono W); [ | reflexivity].
      unfold timestamp_path, bind, ret. rewrite Hname, Hmem.
      change (timedir C ++ "/" ++ name)%string
        with (timedir C ++ String "/" name)%string.
      rewrite Hpath.
      destruct (w_open W path); reflexivity.
Qed.

Lemma tsdump_dumps_chosen_file_witness :
  tsdump linux_amd64
    (sample_cmdline [("f"%char, "a"%string); ("f"%char, "b"%string)])
    sample_world 5
  = main linux_amd64 (env_at sample_world "b") 5.
Proof.
  apply (tsdump_dumps_chosen_file linux_amd64
           (sample_cmdline [("f"%char, "a"%string); ("f"%char, "b"%string)])
           sample_world 5 "b"); try reflexivity.
  - right. reflexivity.
  - left. discriminate.
Defined.

(** When there is nothing to name the file with, the run is fatal before
    any file is opened: with neither [-f] nor [-u] and no entry for the
    effective uid in the password database the message is "unknown uid";
    when the path cannot be allocated it is "unable to allocate memory".
    Both come after the clocks have been read. *)
Theorem nameless_run_is_fatal (A : abi) (C : cmdline) (W : world)
    (fuel : nat) (now mono : timespec) :
  conf_read_fails C = false ->
  forallb known_option (options C) = true ->
  last_option "f" (options C) None = None ->
  w_real W = Some now -> w_mono W = Some mono ->
  let s0 := {| fd_off := 0; cur := w_stack W; out := ""; err := [];
               calls := [] |} in
  (last_option "u" (options C) None = None -> euid_name C = None ->
   tsdump A C W fuel
   = Some (EXIT_FAILURE,
           complain s0 ("unknown uid: " ++ dec (to_int (euid C)))))
  /\ (chosen_path C <> None -> asprintf_fails C = true ->
      tsdump A C W fuel
      = Some (EXIT_FAILURE,
              complain s0 "main: unable to allocate memory")).
Proof.
  intros Hconf Hall Hf Hr Hm s0. unfold tsdump, chosen_path.
  rewrite Hconf. rewrite getopt_loop_known by exact Hall.
  rewrite Hf, Hr, Hm. split.
  - intros Hu Hname. rewrite Hu.
    cbv [timestamp_path bind]. rewrite Hname. reflexivity.
  - intros Hsome Hmem.
    destruct (last_option "u" (options C) None) as [u | ].
    + cbv [timestamp_path bind ret]. rewrite Hmem. reflexivity.
    + destruct (euid_name C) as [name | ] eqn:Hname; [ | congruence].
      cbv [timestamp_path bind ret]. rewrite Hname, Hmem. reflexivity.
Qed.

Lemma nameless_run_is_fatal_witness :
  tsdump linux_amd64
    {| progname := "tsdump"; conf_read_fails := false; options := [];
       euid := 4294967295; euid_name := None; timedir := "/run/sudo/ts";
       asprintf_fails := false |} sample_world 5
  = Some (EXIT_FAILURE,
          complain {| fd_off := 0; cur := zeros 56; out := ""; err := [];
                      calls := [] |} "unknown uid: -1").
Proof.
  apply (proj1 (nameless_run_is_fatal linux_amd64
                  {| progname := "tsdump"; conf_read_fails := false;
                     options := []; euid := 4294967295; euid_name := None;
                     timedir := "/run/sudo/ts"; asprintf_fails := false |}
                  sample_world 5 _ _ eq_refl eq_refl eq_refl eq_refl eq_refl));
    reflexivity.
Defined.

(** ** bsdauth.c: set-up and tear-down *)

Lemma remove_first_head (h : nat) (l : list nat) :
  remove_first h (h :: l) = Some l.
Proof. cbn [remove_first]. rewrite Nat.eqb_refl. reflexivity. Qed.

Lemma auth_close_open (h : nat) (l : list nat) (s : bsd_proc) :
  open_sessions s = h :: l -> auth_close (Some h) s = set_sessions l s.
Proof.
  intros E. unfold auth_close. rewrite E. cbn [remove_first].
  now rewrite Nat.eqb_refl.
Qed.

Lemma login_close_open (h : nat) (l : list nat) (s : bsd_proc) :
  open_classes s = h :: l -> login_close (Some h) s = set_classes l s.
Proof.
  intros E. unfold login_close. rewrite E. cbn [remove_first].
  now rewrite Nat.eqb_refl.
Qed.

Ltac fields :=
  cbn [open_classes open_sessions bad_closes login_style state_as state_lc
       auth_data warnings items sigchld prompts pass_buffers responses
       set_classes set_sessions bad_close set_login_style set_state_as
       set_state_lc set_auth_data log_warning add_item set_sigchld set_tty
       fst snd].

Ltac fields_in H :=
  cbn [open_classes open_sessions bad_closes login_style state_as state_lc
       auth_data warnings items sigchld prompts pass_buffers responses
       set_classes set_sessions bad_close set_login_style set_state_as
       set_state_lc set_auth_data log_warning add_item set_sigchld set_tty
       fst snd] in H.

Ltac closes_in H :=
  repeat (first
    [ erewrite auth_close_open in H by (fields; reflexivity)
    | erewrite login_close_open in H by (fields; reflexivity) ];
    fields_in H).

(* The seven ways through [bsdauth_init], in the order of the source:
   no login class, no session, no style, one of the three items refused,
   success. *)
Ltac init_cases L pw s H :=
  unfold bsdauth_init in H; cbv zeta in H;
  destruct (login_getclass L _) as [lc|];
  [destruct (auth_open L) as [a|];
   [fields_in H;
    destruct (login_getstyle L lc (login_style s) "auth-sudo") as [st|];
    [destruct (auth_setitem L a AUTHV_STYLE (Some st) <? 0) eqn:H1;
     [|destruct (auth_setitem L a AUTHV_NAME (Some (pw_name pw)) <? 0)
         eqn:H2;
       [|destruct (auth_setitem L a AUTHV_CLASS (login_class L) <? 0)
           eqn:H3]]|]|]|];
  fields_in H; closes_in H; injection H as <- <-; fields.

(** bsdauth.c, [bsdauth_init]: the function answers AUTH_SUCCESS or
    AUTH_FATAL and never closes what is not open.  When it answers
    AUTH_FATAL, every login class and session it obtained has been closed
    again, [auth->data] is as before and exactly one warning has been
    logged.  When it answers AUTH_SUCCESS, one login class and one session
    more are open, the static state holds both, [auth->data] is set, the
    login style is not NULL and nothing has been logged. *)
Theorem init_releases_what_it_opened (L : bsd_lib) (pw : passwd)
    (s : bsd_proc) :
  bad_closes (snd (bsdauth_init L pw s)) = bad_closes s /\
  match fst (bsdauth_init L pw s) with
  | AUTH_FATAL =>
      open_classes (snd (bsdauth_init L pw s)) = open_classes s /\
      open_sessions (snd (bsdauth_init L pw s)) = open_sessions s /\
      auth_data (snd (bsdauth_init L pw s)) = auth_data s /\
      exists w, warnings (snd (bsdauth_init L pw s)) = (warnings s ++ [w])%list
  | AUTH_SUCCESS =>
      exists lc a,
        open_classes (snd (bsdauth_init L pw s)) = lc :: open_classes s /\
        open_sessions (snd (bsdauth_init L pw s)) = a :: open_sessions s /\
        state_lc (snd (bsdauth_init L pw s)) = Some lc /\
        state_as (snd (bsdauth_init L pw s)) = Some a /\
        auth_data (snd (bsdauth_init L pw s)) = true /\
        login_style (snd (bsdauth_init L pw s)) <> None /\
        warnings (snd (bsdauth_init L pw s)) = warnings s
  | _ => False
  end.
Proof.
  destruct (bsdauth_init L pw s) as [r s'] eqn:H. cbn [fst snd].
  init_cases L pw s H; (split; [reflexivity|]).
  4: exists lc, a; repeat split; discriminate.
  all: repeat split; eexists; reflexivity.
Qed.

(** bsdauth.c, [bsdauth_init] and [bsdauth_cleanup]: started with
    [auth->data] NULL, set-up followed by tear-down leaves open exactly
    what was open before, whether set-up succeeded or not, and closes
    nothing that is not open; tear-down answers AUTH_SUCCESS. *)
Theorem init_then_cleanup_is_balanced (L : bsd_lib) (pw : passwd)
    (s : bsd_proc) :
  auth_data s = false ->
  fst (bsdauth_cleanup (snd (bsdauth_init L pw s))) = AUTH_SUCCESS /\
  open_classes (snd (bsdauth_cleanup (snd (bsdauth_init L pw s)))) =
    open_classes s /\
  open_sessions (snd (bsdauth_cleanup (snd (bsdauth_init L pw s)))) =
    open_sessions s /\
  bad_closes (snd (bsdauth_cleanup (snd (bsdauth_init L pw s)))) =
    bad_closes s.
Proof.
  intros Hd. destruct (bsdauth_init L pw s) as [r s'] eqn:H. cbn [fst snd].
  init_cases L pw s H; unfold bsdauth_cleanup; fields; rewrite ?Hd;
    repeat (first
      [ erewrite auth_close_open by (fields; reflexivity)
      | erewrite login_close_open by (fields; reflexivity) ]; fields);
    auto.
Qed.

Lemma init_then_cleanup_is_balanced_witness :
  fst (bsdauth_cleanup (snd (bsdauth_init sample_lib sample_passwd fresh_proc)))
    = AUTH_SUCCESS /\
  open_classes
    (snd (bsdauth_cleanup (snd (bsdauth_init sample_lib sample_passwd fresh_proc))))
    = open_classes fresh_proc /\
  open_sessions
    (snd (bsdauth_cleanup (snd (bsdauth_init sample_lib sample_passwd fresh_proc))))
    = open_sessions fresh_proc /\
  bad_closes
    (snd (bsdauth_cleanup (snd (bsdauth_init sample_lib sample_passwd fresh_proc))))
    = bad_closes fresh_proc.
Proof.
  apply (init_then_cleanup_is_balanced sample_lib sample_passwd fresh_proc).
  reflexivity.
Defined.


(** ** bsdauth.c: the prompt taken from a challenge *)

Lemma string_snoc (n : nat) : forall p : string,
  String.length p = S n ->
  exists q c, p = (q ++ String c "")%string /\ String.length q = n.
Proof.
  induction n as [|n IH]; intros [|x p] Hl; try discriminate.
  - destruct p; [|discriminate]. exists EmptyString, x. split; reflexivity.
  - cbn in Hl. injection Hl as Hl. destruct (IH p Hl) as (q & c & -> & Hq).
    exists (String x q), c. cbn. rewrite Hq. split; reflexivity.
Qed.

Lemma get_snoc (q t : string) (c : ascii) :
  String.get (String.length q) (q ++ String c t) = Some c.
Proof. induction q as [|x q IH]; cbn; [reflexivity | exact IH]. Qed.

Lemma substring_snoc (q t : string) :
  String.substring 0 (String.length q) (q ++ t) = q.
Proof.
  induction q as [|x q IH]; cbn.
  - destruct t; reflexivity.
  - now rewrite IH.
Qed.

Lemma all_stripped_app (a b : string) :
  all_stripped (a ++ b) = all_stripped a && all_stripped b.
Proof.
  induction a as [|x a IH]; cbn; [reflexivity|].
  rewrite IH. now rewrite andb_assoc.
Qed.

Lemma strip_loop_spec (n : nat) : forall p : string,
  String.length p = S n ->
  match strip_loop p n with
  | Some q =>
      exists q' c tail,
        q = (q' ++ String c "")%string /\ stripped c = false /\
        p = (q ++ tail)%string /\ all_stripped tail = true
  | None => all_stripped p = true
  end.
Proof.
  induction n as [|n IH]; intros p Hl;
    destruct (string_snoc _ _ Hl) as (q0 & c & -> & Hq).
  - destruct q0; [|discriminate]. cbn.
    fold (stripped c). destruct (stripped c) eqn:Hc; [reflexivity|].
    exists EmptyString, c, EmptyString. repeat split. exact Hc.
  - pose proof (get_snoc q0 EmptyString c) as Hg.
    pose proof (substring_snoc q0 (String c EmptyString)) as Hsub.
    rewrite Hq in Hg, Hsub.
    cbn [strip_loop]. rewrite Hg.
    fold (stripped c). destruct (stripped c) eqn:Hc.
    + rewrite Hsub.
      specialize (IH q0 Hq). destruct (strip_loop q0 n) as [q|].
      * destruct IH as (q' & x & tail & -> & Hx & -> & Ht).
        exists q', x, (tail ++ String c "")%string. repeat split; trivial.
        -- now rewrite append_assoc.
        -- rewrite all_stripped_app, Ht. cbn. now rewrite Hc.
      * rewrite all_stripped_app, IH. cbn. now rewrite Hc.
    + exists q0, c, EmptyString. repeat split; trivial.
      now rewrite append_nil_r.
Qed.

Lemma strip_prompt_spec (p : string) :
  match strip_prompt p with
  | Some q =>
      exists q' c tail,
        q = (q' ++ String c "")%string /\ stripped c = false /\
        p = (q ++ tail)%string /\ all_stripped tail = true
  | None => all_stripped p = true
  end.
Proof.
  unfold strip_prompt. destruct (String.length p) as [|n] eqn:Hl.
  - destruct p; [reflexivity | discriminate].
  - now apply strip_loop_spec.
Qed.


Lemma strrchr_spec (c : ascii) : forall s : string,
  match strrchr s c with
  | Some t =>
      exists pre rest,
        s = (pre ++ t)%string /\ t = String c rest /\ strrchr rest c = None
  | None => True
  end.
Proof.
  induction s as [|x s IH]; cbn; [trivial|].
  destruct (strrchr s c) as [t|] eqn:Hs.
  - destruct IH as (pre & rest & -> & -> & Hr).
    exists (String x pre), rest. repeat split. exact Hr.
  - destruct (Ascii.eqb x c) eqn:Hx; [|trivial].
    apply Ascii.eqb_eq in Hx. subst x.
    exists EmptyString, s. repeat split. exact Hs.
Qed.

Lemma last_line_spec (s : string) :
  strrchr (last_line s) "010"%char = None /\
  (s = last_line s \/
   exists pre, s = (pre ++ String "010"%char (last_line s))%string).
Proof.
  unfold last_line. pose proof (strrchr_spec "010"%char s) as H.
  destruct (strrchr s "010"%char) as [t|] eqn:Hs.
  - destruct H as (pre & rest & -> & -> & Hr). split; [exact Hr|].
    right. exists pre. reflexivity.
  - split; [exact Hs | now left].
Qed.

(** bsdauth.c, [bsdauth_verify], lines 138-149: what the second prompt is
    made of.  The loop stays inside the last line of the challenge exactly
    when that line has a character that is neither white space nor a
    colon.  The prompt is then the last line up to and including the last
    such character: it is not empty, has no newline, and what was cut off
    is white space and colons only.  The challenge is that last line
    alone, or ends with a newline and that last line. *)
Theorem reprompt_is_trimmed_last_line (chal : string) :
  match strip_prompt (last_line chal) with
  | Some q =>
      exists q' c tail,
        q = (q' ++ String c "")%string /\ stripped c = false /\
        all_stripped tail = true /\
        strrchr (q ++ tail) "010"%char = None /\
        (chal = (q ++ tail)%string \/
         exists pre, chal = (pre ++ String "010"%char (q ++ tail))%string)
  | None => all_stripped (last_line chal) = true
  end.
Proof.
  pose proof (strip_prompt_spec (last_line chal)) as H.
  destruct (last_line_spec chal) as [Hn Hc].
  destruct (strip_prompt (last_line chal)) as [q|]; [|exact H].
  destruct H as (q' & c & tail & Hq & Hs & Hl & Ht).
  exists q', c, tail. rewrite <- Hl. auto.
Qed.

(** ** bsdauth.c: one verification *)

Lemma substring_nothing (p : string) : forall n : nat,
  String.substring n 0 p = EmptyString.
Proof.
  induction p as [|x p IH]; intros [|n]; cbn; trivial.
Qed.

Lemma all_zero_repeat (n : nat) :
  all_zero (string_of_list_ascii (List.repeat zero n)) = true.
Proof. induction n as [|n IH]; cbn; trivial. Qed.

Lemma memset_s_clears (p : string) :
  (String.length p <= SUDO_CONV_REPL_MAX)%nat ->
  all_zero (memset_s p SUDO_CONV_REPL_MAX (String.length p)) = true.
Proof.
  intros Hl. unfold memset_s. rewrite Nat.min_l by exact Hl.
  rewrite Nat.sub_diag, substring_nothing, append_nil_r.
  apply all_zero_repeat.
Qed.

Ltac verify_cases L prompt s H :=
  unfold bsdauth_verify in H;
  destruct (auth_data s) eqn:Hdata; [|discriminate H];
  destruct (state_as s) as [a|] eqn:Has; [|discriminate H];
  cbv zeta in H; unfold getpass in H; fields_in H;
  destruct (auth_challenge L a) as [chal|] eqn:Hchal;
  destruct (auth_getpass L prompt (def_passwd_timeout L * 60) false)
    as [[|x p1]|] eqn:Hfirst;
  try (destruct (strip_prompt (last_line chal)) as [q|] eqn:Hq;
       [|discriminate H];
       destruct (auth_getpass L q (def_passwd_timeout L * 60) true)
         as [p2|] eqn:Hsecond);
  unfold respond in H; fields_in H;
  repeat match type of H with
         | context [negb (?v =? 0)] => destruct (Z.eqb_spec v 0) as [Hok|Hok]
         end;
  try (match goal with Hn : ?v <> ?v |- _ => exfalso; apply Hn; reflexivity end);
  cbn [negb] in H;
  try (destruct (auth_getvalue L a "errormsg") as [msg|] eqn:Hmsg);
  fields_in H; injection H as <- <-; fields.

(** bsdauth.c, [bsdauth_verify]: the verdict.  A verification that returns
    never answers AUTH_FATAL.  AUTH_INTR means the last prompt gave no
    password: the library was not asked and nothing was logged.
    Otherwise the library was asked once, about the password the last
    prompt gave: AUTH_SUCCESS when its answer was not zero, with nothing
    logged, AUTH_FAILURE when it was zero, and then the session's
    error message is logged if it has one. *)
Theorem verify_verdict (L : bsd_lib) (prompt : string) (s s' : bsd_proc)
    (r : auth_status) :
  bsdauth_verify L prompt s = Some (r, s') ->
  exists a,
    auth_data s = true /\ state_as s = Some a /\
    match r with
    | AUTH_INTR =>
        responses s' = responses s /\ warnings s' = warnings s /\
        exists pr e,
          List.last (prompts s') (EmptyString, 0, false) =
            (pr, def_passwd_timeout L * 60, e) /\
          auth_getpass L pr (def_passwd_timeout L * 60) e = None
    | AUTH_SUCCESS =>
        exists pr e p,
          List.last (prompts s') (EmptyString, 0, false) =
            (pr, def_passwd_timeout L * 60, e) /\
          auth_getpass L pr (def_passwd_timeout L * 60) e = Some p /\
          responses s' = (responses s ++ [(a, p)])%list /\
          auth_userresponse L a p <> 0 /\
          warnings s' = warnings s
    | AUTH_FAILURE =>
        exists pr e p,
          List.last (prompts s') (EmptyString, 0, false) =
            (pr, def_passwd_timeout L * 60, e) /\
          auth_getpass L pr (def_passwd_timeout L * 60) e = Some p /\
          responses s' = (responses s ++ [(a, p)])%list /\
          auth_userresponse L a p = 0 /\
          warnings s' =
            (warnings s ++
             match auth_getvalue L a "errormsg" with
             | Some m => [(false, m)]
             | None => []
             end)%list
    | AUTH_FATAL => False
    end.
Proof.
  intros H. verify_cases L prompt s H; exists a;
    rewrite ?Hmsg, ?app_nil_r, ?last_last; repeat split; eauto 10.
Qed.

Lemma verify_verdict_witness :
  exists a,
    auth_data ready_proc = true /\ state_as ready_proc = Some a /\
    exists pr e p,
      List.last (prompts verified_proc) (EmptyString, 0, false) =
        (pr, def_passwd_timeout sample_lib * 60, e) /\
      auth_getpass sample_lib pr (def_passwd_timeout sample_lib * 60) e =
        Some p /\
      responses verified_proc = (responses ready_proc ++ [(a, p)])%list /\
      auth_userresponse sample_lib a p = 0 /\
      warnings verified_proc =
        (warnings ready_proc ++
         match auth_getvalue sample_lib a "errormsg" with
         | Some m => [(false, m)]
         | None => []
         end)%list.
Proof.
  apply (verify_verdict sample_lib "Password: " ready_proc verified_proc
           AUTH_FAILURE).
  reflexivity.
Defined.

(** bsdauth.c, [bsdauth_verify]: a verification that returns leaves the
    disposition of SIGCHLD as it found it, whatever the verdict, and
    closes nothing: the open login classes and sessions, the static state,
    [auth->data], the login style and the items of the session are as
    before. *)
Theorem verify_restores_sigchld (L : bsd_lib) (prompt : string)
    (s s' : bsd_proc) (r : auth_status) :
  bsdauth_verify L prompt s = Some (r, s') ->
  sigchld s' = sigchld s /\
  open_classes s' = open_classes s /\
  open_sessions s' = open_sessions s /\
  bad_closes s' = bad_closes s /\
  state_as s' = state_as s /\
  state_lc s' = state_lc s /\
  auth_data s' = auth_data s /\
  login_style s' = login_style s /\
  items s' = items s.
Proof.
  intros H. verify_cases L prompt s H; rewrite ?Has, ?Hdata;
    repeat split.
Qed.

Lemma verify_restores_sigchld_witness :
  sigchld verified_proc = sigchld ready_proc /\
  open_classes verified_proc = open_classes ready_proc /\
  open_sessions verified_proc = open_sessions ready_proc /\
  bad_closes verified_proc = bad_closes ready_proc /\
  state_as verified_proc = state_as ready_proc /\
  state_lc verified_proc = state_lc ready_proc /\
  auth_data verified_proc = auth_data ready_proc /\
  login_style verified_proc = login_style ready_proc /\
  items verified_proc = items ready_proc.
Proof.
  apply (verify_restores_sigchld sample_lib "Password: " ready_proc
           verified_proc AUTH_FAILURE).
  reflexivity.
Defined.

(** bsdauth.c, [bsdauth_verify], lines 157-160: when no reply of
    [auth_getpass] is longer than SUDO_CONV_REPL_MAX, a verification that
    returns leaves no password in memory: of the buffers [auth_getpass]
    handed out, at most two, every byte is zero afterwards. *)
Theorem verify_clears_passwords (L : bsd_lib) (prompt : string)
    (s s' : bsd_proc) (r : auth_status) :
  (forall pr t e p,
     auth_getpass L pr t e = Some p ->
     (String.length p <= SUDO_CONV_REPL_MAX)%nat) ->
  bsdauth_verify L prompt s = Some (r, s') ->
  exists new,
    pass_buffers s' = (pass_buffers s ++ new)%list /\
    (List.length new <= 2)%nat /\
    forallb all_zero new = true.
Proof.
  intros Hmax H. verify_cases L prompt s H;
    rewrite ?removelast_last, ?last_last.
  all: try (apply Hmax in Hsecond; apply memset_s_clears in Hsecond).
  all: try (match type of Hfirst with
            | _ = Some (String _ _) =>
                apply Hmax in Hfirst; apply memset_s_clears in Hfirst
            end).
  all: try (exists []; rewrite app_nil_r; repeat split; cbn; lia).
  all: try (eexists [_]; split; [reflexivity|]; split; [cbn; lia|];
            cbn [forallb]; rewrite andb_true_r;
            first [exact Hfirst | reflexivity]).
  all: try (eexists [_; _]; split; [rewrite <- app_assoc; reflexivity|];
            split; [cbn; lia|]; cbn [forallb]; rewrite ?Hsecond;
            reflexivity).
Qed.

Lemma verify_clears_passwords_witness :
  exists new,
    pass_buffers verified_proc = (pass_buffers ready_proc ++ new)%list /\
    (List.length new <= 2)%nat /\
    forallb all_zero new = true.
Proof.
  apply (verify_clears_passwords sample_lib "Password: " ready_proc
           verified_proc AUTH_FAILURE).
  - intros pr t [|] p H; injection H as <-; unfold SUDO_CONV_REPL_MAX;
      cbn; lia.
  - reflexivity.
Defined.

(** bsdauth.c, [bsdauth_verify], lines 133-155: the prompts of a
    verification that returns.  The first is the caller's prompt with echo
    off.  There is a second one exactly when the session has a challenge
    and the first reply is the empty string: it has echo on and the same
    time limit, and its text is the trimmed last line of the challenge
    itself, which never ends in the white space or colon that the text
    with [echo on] appended ends in.  There is no third. *)
Theorem verify_prompts (L : bsd_lib) (prompt : string) (s s' : bsd_proc)
    (r : auth_status) :
  bsdauth_verify L prompt s = Some (r, s') ->
  exists a extra,
    state_as s = Some a /\
    prompts s' =
      (prompts s ++ (prompt, def_passwd_timeout L * 60, false) :: extra)%list /\
    ((extra = [] /\
      ~ (auth_challenge L a <> None /\
         auth_getpass L prompt (def_passwd_timeout L * 60) false =
           Some EmptyString)) \/
     (exists chal q,
        auth_challenge L a = Some chal /\
        auth_getpass L prompt (def_passwd_timeout L * 60) false =
          Some EmptyString /\
        strip_prompt (last_line chal) = Some q /\
        extra = [(q, def_passwd_timeout L * 60, true)] /\
        forall t, q <> (t ++ " [echo on]: ")%string)).
Proof.
  assert (Hecho : forall q t, strip_prompt q <> Some (t ++ " [echo on]: ")%string).
  { intros q t Hq. pose proof (strip_prompt_spec q) as Hs.
    rewrite Hq in Hs. destruct Hs as (q' & c & tail & He & Hc & _).
    replace (t ++ " [echo on]: ")%string
      with ((t ++ " [echo on]:") ++ String " " "")%string in He
      by (rewrite append_assoc; reflexivity).
    assert (Hlast : forall a b x y,
               (a ++ String x "")%string = (b ++ String y "")%string -> x = y).
    { induction a as [|u a IH]; intros [|v b] x y E; cbn in E.
      - now injection E.
      - destruct b; discriminate.
      - destruct a; discriminate.
      - injection E as _ E. now apply IH in E. }
    apply Hlast in He. subst c. discriminate Hc. }
  intros H. verify_cases L prompt s H; exists a.
  all: try (exists []; split; [reflexivity|]; split; [reflexivity|]; left;
            split; [reflexivity|]; intros [Hc Hp];
            congruence).
  all: eexists [_]; split; [reflexivity|];
       split; [rewrite <- app_assoc; reflexivity|]; right;
       exists chal, q; repeat split; trivial;
       intros t ->; exact (Hecho _ _ Hq).
Qed.

Lemma verify_prompts_witness :
  exists a extra,
    state_as ready_proc = Some a /\
    prompts verified_proc =
      (prompts ready_proc ++
       ("Password: "%string, def_passwd_timeout sample_lib * 60, false) :: extra)%list /\
    ((extra = [] /\
      ~ (auth_challenge sample_lib a <> None /\
         auth_getpass sample_lib "Password: "
           (def_passwd_timeout sample_lib * 60) false = Some EmptyString)) \/
     (exists chal q,
        auth_challenge sample_lib a = Some chal /\
        auth_getpass sample_lib "Password: "
          (def_passwd_timeout sample_lib * 60) false = Some EmptyString /\
        strip_prompt (last_line chal) = Some q /\
        extra = [(q, def_passwd_timeout sample_lib * 60, true)] /\
        forall t, q <> (t ++ " [echo on]: ")%string)).
Proof.
  apply (verify_prompts sample_lib "Password: " ready_proc verified_proc
           AUTH_FAILURE).
  reflexivity.
Defined.


